(** * Fantasy-football snake draft: a shallow embedding of the draft core

    The development follows the three source files of the simulation core:
    [models.py] (Player, Team, DRAFT_CONFIG), [algorithms.py] (the Greedy and
    the Regret strategies) and [draft_simulator.py] (snake order, the pick
    loop and its bookkeeping).

    Conventions of the embedding:
    - Python [int] is [Z]; a list length is [nat].
    - Python [float] is an exact rational [Q]: every float in the modelled
      code is produced from integers by [+], [-], [*], [/], [min] and [max],
      so the model is the real-number reading of the code, and equality of
      floats is read as [Qeq] ([==]).  Rounding is not modelled there.
      Where the order of two rounded values decides the outcome (the choice
      among the candidates of the Regret strategy, the win rate of the
      summary) the computation is modelled a second time in binary64, on
      Rocq's primitive floats (modules [Regret64] and the summary).
    - [str] is [string]; a [set] of names is a [gset string].
    - The roster [dict] keeps its six keys in insertion order for the whole
      life of a team, so it is an association list in that order.
    - A method that mutates [self] returns the new object next to its result. *)

From Stdlib Require Import ZArith QArith Qminmax Lqa Lia List String Bool Permutation Sorted.
From Stdlib Require Floats.
From stdpp Require Import gmap strings list.
Import ListNotations.

Local Open Scope string_scope.
Local Open Scope list_scope.
Local Open Scope Z_scope.

(** ** Python built-ins used by the source *)

(** [x in xs] for a list of strings. *)
Definition str_in (x : string) (xs : list string) : bool :=
  existsb (String.eqb x) xs.

(** [range(lo, hi)] *)
Definition py_range (lo hi : Z) : list Z :=
  List.map (fun i => lo + Z.of_nat i) (seq 0 (Z.to_nat (hi - lo))).

(** [range(hi, lo, -1)] *)
Definition py_range_down (hi lo : Z) : list Z :=
  List.map (fun i => hi - Z.of_nat i) (seq 0 (Z.to_nat (hi - lo))).

(** [max(a, b)] and [min(a, b)] on floats: Python returns the first argument
    unless the second is strictly larger (smaller). *)
Definition py_max (a b : Q) : Q := if Qle_bool b a then a else b.
Definition py_min (a b : Q) : Q := if Qle_bool a b then a else b.

(** [xs.sort(...)]: Python's sort is stable.  [before x y] says that [x] may
    stay in front of [y]; an element moves behind exactly the elements that
    must come first.  [key=k] is [before x y := k x <= k y]; with
    [reverse=True] it is [before x y := k y <= k x] (stability is kept). *)
Section PySort.
Context {A : Type} (before : A -> A -> bool).

Fixpoint sort_insert (x : A) (l : list A) : list A :=
  match l with
  | [] => [x]
  | y :: l' => if before x y then x :: y :: l' else y :: sort_insert x l'
  end.

Definition py_sort (l : list A) : list A := fold_right sort_insert [] l.
End PySort.

(** ** models.py *)

Module DRAFT_CONFIG.
Definition num_teams : Z := 10.
Definition draft_position : Z := 5.
(** A [dict] literal: iteration follows the order of the entries. *)
Definition roster_spots : list (string * nat) :=
  [("QB", 1%nat); ("RB", 2%nat); ("WR", 2%nat); ("TE", 1%nat); ("FLEX", 1%nat); ("K", 1%nat)].
Definition total_picks : Z := 8.
End DRAFT_CONFIG.

Record Player := mkPlayer {
  name : string;
  position : string;
  team : string;
  adp_rank : Z;
  auction_value : Z;
  actual_points : Q;
  bye_week : Z
}.

(** [Player.__eq__]: same name and same position. *)
Definition Player_eq (a b : Player) : bool :=
  String.eqb (name a) (name b) && String.eqb (position a) (position b).

(** The roster dictionary: slot name to the players stored there. *)
Definition Roster := list (string * list Player).

(** [pos in roster] *)
Fixpoint roster_mem (pos : string) (r : Roster) : bool :=
  match r with
  | [] => false
  | (k, _) :: r' => String.eqb k pos || roster_mem pos r'
  end.

(** [roster[pos]]; every read in the source uses one of the six keys the
    constructor installs, so the [KeyError] of a missing key is read as []. *)
Fixpoint roster_get (pos : string) (r : Roster) : list Player :=
  match r with
  | [] => []
  | (k, ps) :: r' => if String.eqb k pos then ps else roster_get pos r'
  end.

(** [roster[pos].append(p)] *)
Fixpoint roster_append (pos : string) (p : Player) (r : Roster) : Roster :=
  match r with
  | [] => []
  | (k, ps) :: r' =>
      if String.eqb k pos then (k, ps ++ [p]) :: r' else (k, ps) :: roster_append pos p r'
  end.

(** [roster.values()], flattened: every player stored in some slot. *)
Definition roster_players (r : Roster) : list Player := concat (List.map snd r).

Record Team := mkTeam {
  team_id : Z;
  roster : Roster;
  total_points : Q;
  draft_picks : list Player
}.

(** [Team.__init__] *)
Definition new_Team (id : Z) : Team :=
  {| team_id := id;
     roster := [("QB", []); ("RB", []); ("WR", []); ("TE", []); ("FLEX", []); ("K", [])];
     total_points := 0%Q;
     draft_picks := [] |}.

(** [position in ['RB', 'WR', 'TE']] *)
Definition flex_eligible (pos : string) : bool := str_in pos ["RB"; "WR"; "TE"].

(** [Team.add_player(player, position=None)] *)
Definition add_player (t : Team) (player : Player) (pos : option string) : Team :=
  let position_ := match pos with None => position player | Some s => s end in
  let roster' :=
    if String.eqb position_ "FLEX" && flex_eligible (position player) then
      roster_append "FLEX" player (roster t)
    else if roster_mem position_ (roster t) then
      roster_append position_ player (roster t)
    else if roster_mem (position player) (roster t) then
      roster_append (position player) player (roster t)
    else if flex_eligible (position player) then
      roster_append "FLEX" player (roster t)
    else roster t in
  {| team_id := team_id t;
     roster := roster';
     total_points := (total_points t + actual_points player)%Q;
     draft_picks := draft_picks t ++ [player] |}.

(** The loop of [Team.get_needs] over the configured slots. *)
Fixpoint needs_from (r : Roster) (spots : list (string * nat)) : list string :=
  match spots with
  | [] => []
  | (pos, max_count) :: rest =>
      if (length (roster_get pos r) <? max_count)%nat
      then pos :: needs_from r rest
      else needs_from r rest
  end.

(** [Team.get_needs] *)
Definition get_needs (t : Team) : list string :=
  needs_from (roster t) DRAFT_CONFIG.roster_spots.

(** [Team.is_complete] *)
Definition is_complete (t : Team) : bool :=
  (length (get_needs t) =? 0)%nat.

(** [sum(p.actual_points for p in ps)] *)
Definition sum_points (ps : list Player) : Q :=
  fold_left (fun acc p => (acc + actual_points p)%Q) ps 0%Q.

(** [Team.get_position_points]: [roster.get(position, [])] *)
Definition get_position_points (t : Team) (pos : string) : Q :=
  sum_points (roster_get pos (roster t)).

(** The sum of [actual_points] over every roster entry of every slot. *)
Definition roster_points (t : Team) : Q := sum_points (roster_players (roster t)).

(** The slot names of the configuration, and the test for being one. *)
Definition slot_names : list string := List.map fst DRAFT_CONFIG.roster_spots.
Definition is_slot (s : string) : bool := str_in s slot_names.

(** A run of [add_player] calls, each with its player and its slot argument. *)
Definition add_players (t : Team) (calls : list (Player * option string)) : Team :=
  fold_left (fun t c => add_player t (fst c) (snd c)) calls t.

(** ** draft_simulator.py: the snake order *)

(** [DraftSimulator.generate_snake_draft_order]: the body of the [for] loop
    extends the accumulated order, round by round. *)
Definition snake_round (num_teams round_num : Z) : list Z :=
  if round_num mod 2 =? 0 then py_range 1 (num_teams + 1)
  else py_range_down num_teams 0.

Definition generate_snake_draft_order (num_teams num_rounds : Z) : list Z :=
  fold_left (fun draft_order round_num => draft_order ++ snake_round num_teams round_num)
            (py_range 0 num_rounds) [].

(** ** algorithms.py *)

(** What both constructors build from a pool entry: [Player(name=..., ...,
    actual_points=p.actual_points)].  The call passes six keyword arguments;
    [bye_week] is not among them and takes the constructor's default, 0. *)
Definition copy_player (p : Player) : Player :=
  {| name := name p;
     position := position p;
     team := team p;
     adp_rank := adp_rank p;
     auction_value := auction_value p;
     actual_points := actual_points p;
     bye_week := 0 |}.

(** [player.name in drafted_players] *)
Definition is_drafted (drafted : gset string) (p : Player) : bool :=
  bool_decide (name p ∈ drafted).

(** The test both strategies apply to a candidate: a direct need, or FLEX
    is needed and the position is RB, WR or TE. *)
Definition fills_need (needs : list string) (p : Player) : bool :=
  str_in (position p) needs || (str_in "FLEX" needs && flex_eligible (position p)).

Module Greedy.

Record GreedyDraftAlgorithm := mk {
  available_players : list Player;
  drafted_players : gset string
}.

(** [GreedyDraftAlgorithm.__init__] *)
Definition init (players : list Player) : GreedyDraftAlgorithm :=
  {| available_players :=
       py_sort (fun a b => adp_rank a <=? adp_rank b) (List.map copy_player players);
     drafted_players := ∅ |}.

(** First loop of [draft_player]: the first undrafted player that fits. *)
Fixpoint scan_needs (needs : list string) (drafted : gset string)
         (l : list Player) : option Player :=
  match l with
  | [] => None
  | player :: rest =>
      if is_drafted drafted player then scan_needs needs drafted rest
      else if str_in (position player) needs then Some player
      else if str_in "FLEX" needs && flex_eligible (position player) then Some player
      else scan_needs needs drafted rest
  end.

(** Second loop of [draft_player]: the first undrafted player. *)
Fixpoint scan_any (drafted : gset string) (l : list Player) : option Player :=
  match l with
  | [] => None
  | player :: rest =>
      if is_drafted drafted player then scan_any drafted rest else Some player
  end.

Definition mark (g : GreedyDraftAlgorithm) (p : Player) : GreedyDraftAlgorithm :=
  {| available_players := available_players g;
     drafted_players := {[ name p ]} ∪ drafted_players g |}.

(** [GreedyDraftAlgorithm.draft_player] *)
Definition draft_player (g : GreedyDraftAlgorithm) (t : Team)
  : option Player * GreedyDraftAlgorithm :=
  let needs := get_needs t in
  match needs with
  | [] => (None, g)
  | _ =>
      match scan_needs needs (drafted_players g) (available_players g) with
      | Some player => (Some player, mark g player)
      | None =>
          match scan_any (drafted_players g) (available_players g) with
          | Some player => (Some player, mark g player)
          | None => (None, g)
          end
      end
  end.

End Greedy.

(** [np.percentile(values, q)] of numpy, an external library, by its
    documented default method (linear interpolation): on the ascending
    values [a], the virtual index is [(n-1)*q/100]; the result lies between
    its two neighbours, at the fractional part of the index. *)
Definition np_percentile (values : list Z) (q : Z) : Q :=
  let a := py_sort Z.leb values in
  let n := Z.of_nat (length a) in
  let num := (n - 1) * q in
  let lo := num / 100 in
  let hi := Z.min (lo + 1) (n - 1) in
  let frac := (num mod 100) # 100 in
  let alo := nth (Z.to_nat lo) a 0 in
  let ahi := nth (Z.to_nat hi) a 0 in
  (inject_Z alo + frac * inject_Z (ahi - alo))%Q.

Module Regret.

Record RegretDraftAlgorithm := mk {
  all_players : list Player;
  drafted_players : gset string;
  max_auction : Z;
  position_counts : gmap string (list Z)
}.

(** [max([...], default=1)] *)
Definition max_default (vs : list Z) : Z :=
  match vs with
  | [] => 1
  | v :: vs' => fold_left Z.max vs' v
  end.

(** The loop of [_cache_max_values] that groups auction values by position. *)
Definition group_values (players : list Player) : gmap string (list Z) :=
  fold_left (fun m p =>
               <[ position p := default [] (m !! position p) ++ [auction_value p] ]> m)
            players ∅.

(** [RegretDraftAlgorithm.__init__] with [_cache_max_values] *)
Definition init (players : list Player) : RegretDraftAlgorithm :=
  let all := List.map copy_player players in
  {| all_players := all;
     drafted_players := ∅;
     max_auction := max_default (List.map auction_value all);
     position_counts := py_sort (fun a b => b <=? a) <$> group_values all |}.

Definition mark (r : RegretDraftAlgorithm) (p : Player) : RegretDraftAlgorithm :=
  {| all_players := all_players r;
     drafted_players := {[ name p ]} ∪ drafted_players r;
     max_auction := max_auction r;
     position_counts := position_counts r |}.

(** [get_available_players] *)
Definition get_available_players (r : RegretDraftAlgorithm) : list Player :=
  List.filter (fun p => negb (is_drafted (drafted_players r) p)) (all_players r).

(** The comprehension shared by the scarcity and the dropoff. *)
Definition available_at_position (r : RegretDraftAlgorithm) (pos : string) : list Player :=
  List.filter (fun p => String.eqb (position p) pos && negb (is_drafted (drafted_players r) p))
              (all_players r).

(** [len([v for v in auction_values if v >= threshold])] *)
Definition quality_players (auction_values : list Z) (threshold : Q) : nat :=
  length (List.filter (fun v => Qle_bool threshold (inject_Z v)) auction_values).

(** [calculate_positional_scarcity] *)
Definition calculate_positional_scarcity (r : RegretDraftAlgorithm) (pos : string) : Q :=
  let available := available_at_position r pos in
  match available with
  | [] => 0%Q
  | [_] => 1%Q
  | _ =>
      let auction_values := List.map auction_value available in
      if (length auction_values <? 2)%nat then 1%Q
      else
        let threshold := np_percentile auction_values 75 in
        let quality := quality_players auction_values threshold in
        let scarcity := py_max (1 # 10) (1 / inject_Z (Z.max 1 (Z.of_nat quality)))%Q in
        py_min 1 scarcity
  end.

(** [calculate_value_dropoff] *)
Definition calculate_value_dropoff (r : RegretDraftAlgorithm) (pos : string) : Q :=
  let available := available_at_position r pos in
  if (length available <? 2)%nat then 0%Q
  else
    match py_sort (fun a b => auction_value b <=? auction_value a) available with
    | best :: second :: _ =>
        let best_value := auction_value best in
        let second_best_value := auction_value second in
        if best_value <=? 0 then 0%Q
        else
          let dropoff := Z.max 0 (best_value - second_best_value) in
          py_min 1 (inject_Z dropoff / inject_Z best_value)%Q
    | _ => 0%Q
    end.

(** [calculate_pick_urgency] *)
Definition calculate_pick_urgency (picks_until_next : Z) : Q :=
  let normalized_picks := Z.min 19 (Z.max 1 picks_until_next) in
  (inject_Z normalized_picks / 19)%Q.

(** The bye weeks gathered from every slot of the team's roster. *)
Definition team_bye_weeks (t : Team) : list Z :=
  concat (List.map (fun slot => List.map bye_week (snd slot)) (roster t)).

Definition bye_penalty (player : Player) (t : Team) : Q :=
  if existsb (Z.eqb (bye_week player)) (team_bye_weeks t) then (5 # 100) else 0%Q.

Definition value_score (r : RegretDraftAlgorithm) (player : Player) : Q :=
  if 0 <? max_auction r
  then (inject_Z (auction_value player) / inject_Z (max_auction r))%Q
  else 0%Q.

(** [calculate_regret_score] *)
Definition calculate_regret_score (r : RegretDraftAlgorithm) (player : Player)
           (t : Team) (picks_until_next : Z) : Q :=
  let scarcity := calculate_positional_scarcity r (position player) in
  let dropoff := calculate_value_dropoff r (position player) in
  let urgency := calculate_pick_urgency picks_until_next in
  let scarcity_component := (scarcity * dropoff * (4 # 10))%Q in
  let urgency_component := (urgency * (3 # 10))%Q in
  let value_component := (value_score r player * (3 # 10))%Q in
  let regret_score :=
    (value_component + scarcity_component + urgency_component - bye_penalty player t)%Q in
  py_max 0 regret_score.

(** The [(regret_score, player)] pairs of a list of players. *)
Definition scored (r : RegretDraftAlgorithm) (t : Team) (picks_until_next : Z)
           (l : list Player) : list (Q * Player) :=
  List.map (fun p => (calculate_regret_score r p t picks_until_next, p)) l.

(** The candidate list of [draft_player], before it is sorted. *)
Definition candidates (r : RegretDraftAlgorithm) (t : Team) (picks_until_next : Z)
  : list (Q * Player) :=
  let needs := get_needs t in
  let available := get_available_players r in
  match scored r t picks_until_next (List.filter (fills_need needs) available) with
  | [] => scored r t picks_until_next available
  | cs => cs
  end.

(** [candidates.sort(key=lambda x: x[0], reverse=True)] *)
Definition sort_candidates (cs : list (Q * Player)) : list (Q * Player) :=
  py_sort (fun a b => Qle_bool (fst b) (fst a)) cs.

(** [RegretDraftAlgorithm.draft_player] *)
Definition draft_player (r : RegretDraftAlgorithm) (t : Team) (picks_until_next : Z)
  : option Player * RegretDraftAlgorithm :=
  match get_needs t with
  | [] => (None, r)
  | _ =>
      match get_available_players r with
      | [] => (None, r)
      | _ =>
          match sort_candidates (candidates r t picks_until_next) with
          | [] => (None, r)
          | (_, best_player) :: _ => (Some best_player, mark r best_player)
          end
      end
  end.

End Regret.

(** ** draft_simulator.py: the pick loop *)

(** What a call of [draft_player] hands back to the engine: an exception, or
    the method's return value ([None] or a player). *)
Inductive pick_result :=
| Raised
| Returned (p : option Player).

(** The engine is duck-typed over the algorithm class.  A strategy is what
    the engine touches: the constructor, the [drafted_players] attribute
    (when the object has one; otherwise the update does nothing), the
    [draft_player] method (which may ignore [picks_until_next]) and the
    optional [update_available_players] hook. *)
Class Strategy (A : Type) := {
  construct : list Player -> A;
  sync_drafted : gset string -> A -> A;
  call_draft_player : A -> Team -> Z -> pick_result * A;
  update_hook : A -> A
}.

#[export] Instance greedy_strategy : Strategy Greedy.GreedyDraftAlgorithm := {
  construct := Greedy.init;
  sync_drafted names g :=
    Greedy.mk (Greedy.available_players g) (Greedy.drafted_players g ∪ names);
  call_draft_player g t _ :=
    let '(p, g') := Greedy.draft_player g t in (Returned p, g');
  update_hook g := g
}.

#[export] Instance regret_strategy : Strategy Regret.RegretDraftAlgorithm := {
  construct := Regret.init;
  sync_drafted names r :=
    Regret.mk (Regret.all_players r) (Regret.drafted_players r ∪ names)
              (Regret.max_auction r) (Regret.position_counts r);
  call_draft_player r t picks_until_next :=
    let '(p, r') := Regret.draft_player r t picks_until_next in (Returned p, r');
  update_hook r := r
}.

(** The copy [simulate_draft] makes of every pool entry for every team's
    algorithm: all seven fields are passed on. *)
Definition fresh_player (p : Player) : Player :=
  {| name := name p;
     position := position p;
     team := team p;
     adp_rank := adp_rank p;
     auction_value := auction_value p;
     actual_points := actual_points p;
     bye_week := bye_week p |}.

(** The position of [l[i]] in [l], Python style; [None] is [IndexError]. *)
Definition py_pos {A : Type} (l : list A) (i : Z) : option nat :=
  let n := Z.of_nat (length l) in
  if (0 <=? i) && (i <? n) then Some (Z.to_nat i)
  else if (i <? 0) && (0 <=? n + i) then Some (Z.to_nat (n + i))
  else None.

(** [xs.index(x)]; [None] is [ValueError]. *)
Fixpoint list_index (x : Z) (xs : list Z) : option Z :=
  match xs with
  | [] => None
  | y :: xs' => if y =? x then Some 0 else option_map Z.succ (list_index x xs')
  end.

(** [enumerate(xs)] *)
Definition enumerate {A : Type} (xs : list A) : list (Z * A) :=
  combine (List.map Z.of_nat (seq 0 (length xs))) xs.

(** [DraftSimulator._calculate_picks_until_next] *)
Definition _calculate_picks_until_next (current_pick team_id : Z) (draft_order : list Z) : Z :=
  if negb (team_id =? DRAFT_CONFIG.draft_position) then 11
  else
    let remaining_picks := skipn (Z.to_nat (current_pick + 1)) draft_order in
    match list_index DRAFT_CONFIG.draft_position remaining_picks with
    | Some next_our_pick => next_our_pick + 1
    | None => Z.of_nat (length remaining_picks) + 1
    end.

(** [DraftSimulator._determine_roster_position] *)
Definition _determine_roster_position (player : Player) (t : Team) : string :=
  let needs := get_needs t in
  if str_in (position player) needs then position player
  else if str_in "FLEX" needs && flex_eligible (position player) then "FLEX"
  else position player.

Section Engine.
Context {A : Type} `{Strategy A}.

(** [DraftSimulator._execute_draft_pick]: the algorithm's drafted set is
    brought up to date, the strategy is asked once, an exception and an
    already-drafted player both end in [None]. *)
Definition _execute_draft_pick (algorithm : A) (t : Team) (picks_until_next : Z)
           (globally_drafted : gset string) : option Player * A :=
  let algorithm1 := sync_drafted globally_drafted algorithm in
  match call_draft_player algorithm1 t picks_until_next with
  | (Raised, algorithm2) => (None, algorithm2)
  | (Returned None, algorithm2) => (None, algorithm2)
  | (Returned (Some player), algorithm2) =>
      if bool_decide (name player ∈ globally_drafted) then (None, algorithm2)
      else (Some player, algorithm2)
  end.

(** [DraftSimulator._update_all_algorithms] *)
Definition _update_all_algorithms (team_algorithms : gmap Z A) (drafted_player_name : string)
  : gmap Z A :=
  (fun algorithm => update_hook (sync_drafted {[ drafted_player_name ]} algorithm))
    <$> team_algorithms.

(** The objects the pick loop of [simulate_draft] mutates. *)
Record DraftState := mkState {
  teams : list Team;
  team_algorithms : gmap Z A;
  globally_drafted : gset string
}.

(** How one turn of the pick loop ends. *)
Inductive turn :=
| Next (st : DraftState)
| Break (st : DraftState)
| Raise.

(** The body of the pick loop, for one [(pick_num, team_id)]. *)
Definition draft_pick (num_players : nat) (draft_order : list Z)
           (pick_num team_id : Z) (st : DraftState) : turn :=
  match py_pos (teams st) (team_id - 1), team_algorithms st !! team_id with
  | Some i, Some current_algorithm =>
      match teams st !! i with
      | None => Raise
      | Some current_team =>
          let picks_until_next :=
            _calculate_picks_until_next pick_num team_id draft_order in
          let '(drafted_player, algorithm') :=
            _execute_draft_pick current_algorithm current_team picks_until_next
                                (globally_drafted st) in
          let algorithms1 := <[ team_id := algorithm' ]> (team_algorithms st) in
          match drafted_player with
          | Some player =>
              let globally := {[ name player ]} ∪ globally_drafted st in
              let position_ := _determine_roster_position player current_team in
              let current_team' := add_player current_team player (Some position_) in
              Next {| teams := <[ i := current_team' ]> (teams st);
                      team_algorithms := _update_all_algorithms algorithms1 (name player);
                      globally_drafted := globally |}
          | None =>
              let st' := {| teams := teams st;
                            team_algorithms := algorithms1;
                            globally_drafted := globally_drafted st |} in
              if Qle_bool (inject_Z (Z.of_nat num_players) * (9 # 10))
                          (inject_Z (Z.of_nat (size (globally_drafted st))))
              then Break st' else Next st'
          end
      end
  | _, _ => Raise
  end.

(** The pick loop over [enumerate(draft_order)]; [None] is an exception
    that leaves [simulate_draft]. *)
Fixpoint run_picks (num_players : nat) (draft_order : list Z)
         (picks : list (Z * Z)) (st : DraftState) : option DraftState :=
  match picks with
  | [] => Some st
  | (pick_num, team_id) :: rest =>
      match draft_pick num_players draft_order pick_num team_id st with
      | Raise => None
      | Break st' => Some st'
      | Next st' => run_picks num_players draft_order rest st'
      end
  end.

(** The number of rounds [simulate_draft] settles on for a pool. *)
Definition actual_rounds (num_players : nat) : Z :=
  let total_picks_needed := DRAFT_CONFIG.num_teams * DRAFT_CONFIG.total_picks in
  if Z.of_nat num_players <? total_picks_needed then
    let max_picks_per_team := Z.max 1 (Z.of_nat num_players / DRAFT_CONFIG.num_teams) in
    Z.min DRAFT_CONFIG.total_picks max_picks_per_team
  else DRAFT_CONFIG.total_picks.

(** The state before the first pick: fresh teams, one algorithm instance
    per team over its own copy of the pool, nobody drafted. *)
Definition initial_state (players : list Player) : DraftState :=
  let ids := py_range 1 (DRAFT_CONFIG.num_teams + 1) in
  {| teams := List.map new_Team ids;
     team_algorithms :=
       fold_left (fun m team_id => <[ team_id := construct (List.map fresh_player players) ]> m)
                 ids ∅;
     globally_drafted := ∅ |}.

(** [simulate_draft], from the created player list to the end of the
    pick loop. *)
Definition run_draft (players : list Player) : option DraftState :=
  let draft_order :=
    generate_snake_draft_order DRAFT_CONFIG.num_teams (actual_rounds (length players)) in
  run_picks (length players) draft_order (enumerate draft_order) (initial_state players).

(** What [simulate_draft] returns. *)
Inductive sim_result :=
| SimRaise
| SimNone
| SimDone (our_team : Team) (all_teams : list Team).

(** [DraftSimulator.simulate_draft], after [create_players_for_year]. *)
Definition simulate_draft (players : list Player) : sim_result :=
  match players with
  | [] => SimNone
  | _ =>
      match run_draft players with
      | None => SimRaise
      | Some st =>
          match py_pos (teams st) (DRAFT_CONFIG.draft_position - 1) with
          | Some i =>
              match teams st !! i with
              | Some our_team => SimDone our_team (teams st)
              | None => SimRaise
              end
          | None => SimRaise
          end
      end
  end.
End Engine.

Arguments DraftState A : clear implicits.
Arguments turn A : clear implicits.

(** A strategy whose instances are never told about the picks of the others:
    the Greedy picker under a class that exposes no [drafted_players]
    attribute to the engine ([hasattr] fails, so nothing is propagated). *)
Record Unsynced := mkUnsynced { inner : Greedy.GreedyDraftAlgorithm }.

#[export] Instance unsynced_strategy : Strategy Unsynced := {
  construct players := mkUnsynced (Greedy.init players);
  sync_drafted _ u := u;
  call_draft_player u t _ :=
    let '(p, g') := Greedy.draft_player (inner u) t in (Returned p, mkUnsynced g');
  update_hook u := u
}.


(** ** Notions used in the statements *)

(** Every pick logged by some team, team by team. *)
Definition all_picks (ts : list Team) : list Player := concat (List.map draft_picks ts).

(** A team whose roster has the six configured keys, in their order. *)
Definition keyed (t : Team) : Prop := List.map fst (roster t) = slot_names.

(** An [add_player] call that names a roster slot or carries a player whose
    position is one. *)
Definition storable (c : Player * option string) : bool :=
  is_slot (match snd c with None => position (fst c) | Some s => s end)
  || is_slot (position (fst c)).

(** What the engine relies on in a strategy, stated for any class that
    keeps a copy of the pool ([pool_of]) and a set of drafted names
    ([drafted_of]): the constructor copies the pool, the engine's updates
    only add names, and [draft_player] never raises, returns an undrafted
    player of the pool and marks it, or returns nothing and only when the
    team has no need or every player of the pool is marked. *)
Section DraftInvariant.
Context {A : Type} `{Strategy A}.
Variables (pool_of : A -> list Player) (drafted_of : A -> gset string).

Record pool_strategy : Prop := {
  ps_construct_pool : forall ps, Permutation (pool_of (construct ps)) (List.map copy_player ps);
  ps_construct_drafted : forall ps, drafted_of (construct ps) = ∅;
  ps_sync_pool : forall names a, pool_of (sync_drafted names a) = pool_of a;
  ps_sync_drafted : forall names a, drafted_of (sync_drafted names a) = drafted_of a ∪ names;
  ps_hook_pool : forall a, pool_of (update_hook a) = pool_of a;
  ps_hook_drafted : forall a, drafted_of (update_hook a) = drafted_of a;
  ps_draft : forall a t k,
    match call_draft_player a t k with
    | (Raised, _) => False
    | (Returned None, a') =>
        pool_of a' = pool_of a /\ drafted_of a' = drafted_of a
        /\ (get_needs t = [] \/ Forall (fun p => name p ∈ drafted_of a) (pool_of a))
    | (Returned (Some p), a') =>
        In p (pool_of a) /\ (name p ∉ drafted_of a)
        /\ pool_of a' = pool_of a /\ drafted_of a' = {[ name p ]} ∪ drafted_of a
    end
}.

(** The state of the pick loop after the picks of the teams in [done], all
    of them successful: ten teams and ten algorithms, every algorithm over
    the copied pool and aware of no name the engine does not know, every
    team keyed, with as many picks as it had turns and all of them stored,
    and the logged picks being distinct pool players, exactly those of the
    global set. *)
Record draft_invariant (players : list Player) (st : DraftState A) (done : list Z) : Prop := {
  inv_teams : length (teams st) = 10%nat;
  inv_algs : forall id, 1 <= id <= 10 -> is_Some (team_algorithms st !! id);
  inv_alg : forall id a, team_algorithms st !! id = Some a ->
            Permutation (pool_of a) (List.map copy_player players)
            /\ drafted_of a ⊆ globally_drafted st;
  inv_team : forall i t, teams st !! i = Some t ->
             keyed t
             /\ length (draft_picks t) = count_occ Z.eq_dec done (Z.of_nat i + 1)
             /\ Permutation (roster_players (roster t)) (draft_picks t);
  inv_pool : Forall (fun q => In q (List.map copy_player players)) (all_picks (teams st));
  inv_nodup : NoDup (List.map name (all_picks (teams st)));
  inv_global : forall n, n ∈ globally_drafted st <-> In n (List.map name (all_picks (teams st)));
  inv_count : length (all_picks (teams st)) = length done
}.
End DraftInvariant.

(** Object identity.  Python lists hold references; to speak about
    aliasing, objects live in a store and a reference is the index at which
    the object was allocated. *)
Abbreviation Store := (list Player).

(** [Player(...)]: a new object at a fresh address. *)
Definition new_Player (h : Store) (p : Player) : Store * nat :=
  (h ++ [p], length h).

(** The comprehension both constructors start with,
    [[Player(name=p.name, ...) for p in players]], over references; [None]
    is a dangling reference. *)
Fixpoint copy_pool (h : Store) (players : list nat) : option (Store * list nat) :=
  match players with
  | [] => Some (h, [])
  | a :: rest =>
      match h !! a with
      | None => None
      | Some p =>
          let '(h1, a') := new_Player h (copy_player p) in
          match copy_pool h1 rest with
          | None => None
          | Some (h2, rest') => Some (h2, a' :: rest')
          end
      end
  end.

(** The teams a finished simulation returns (none otherwise). *)
Definition sim_teams (r : sim_result) : list Team :=
  match r with
  | SimDone _ all_teams => all_teams
  | _ => []
  end.

(** ** Sample data *)

Definition mahomes : Player := mkPlayer "Patrick Mahomes" "QB" "KC" 1 50 300 10.
Definition kelce : Player := mkPlayer "Travis Kelce" "TE" "KC" 8 38 (2205 # 10) 10.
Definition bears_dst : Player := mkPlayer "Bears D/ST" "DST" "CHI" 150 1 96 13.

(** The pools of the repository's test suite. *)
Definition greedy_test_pool : list Player :=
  [ mkPlayer "Player1" "QB" "T1" 1 50 300 0;
    mkPlayer "Player2" "RB" "T2" 2 45 250 0;
    mkPlayer "Player3" "WR" "T3" 3 40 200 0;
    mkPlayer "Player4" "TE" "T4" 4 35 150 0;
    mkPlayer "Player5" "K" "T5" 5 30 100 0 ].

Definition regret_test_pool : list Player :=
  [ mkPlayer "Elite QB" "QB" "T1" 1 50 350 0;
    mkPlayer "Good QB" "QB" "T2" 10 25 280 0;
    mkPlayer "Elite RB" "RB" "T3" 2 48 300 0;
    mkPlayer "Good RB" "RB" "T4" 8 30 220 0;
    mkPlayer "Avg RB" "RB" "T5" 15 20 180 0;
    mkPlayer "Elite WR" "WR" "T6" 3 45 280 0;
    mkPlayer "Good WR" "WR" "T7" 7 32 200 0 ].

(** A pool whose only auction value is negative. *)
Definition negative_pool : list Player :=
  [ mkPlayer "Undervalued" "QB" "T1" 1 (-2) 100 7 ].

(** A five-player pool with ADP ranks 1..5 whose best-ranked entry is a
    team defense, a position the roster has no slot for. *)
Definition defense_first_pool : list Player :=
  [ mkPlayer "Bears D/ST" "DST" "CHI" 1 50 300 0;
    mkPlayer "Player2" "QB" "T2" 2 45 250 0;
    mkPlayer "Player3" "WR" "T3" 3 40 200 0;
    mkPlayer "Player4" "TE" "T4" 4 35 150 0;
    mkPlayer "Player5" "K" "T5" 5 30 100 0 ].

(** Eighty quarterbacks, named P01 .. P80 and ranked in that order. *)
Definition two_digits (i : nat) : string :=
  String (Ascii.ascii_of_nat (48 + i / 10))
         (String (Ascii.ascii_of_nat (48 + i mod 10)) EmptyString).

Definition quarterback (i : nat) : Player :=
  mkPlayer ("P" ++ two_digits i) "QB" "T" (Z.of_nat i) 10 (inject_Z (Z.of_nat i)) 7.

Definition quarterback_pool : list Player := List.map quarterback (seq 1 80).

(** The draft of the Greedy test pool by instances that are not told about
    each other's picks, stopped after the first pick (team 1 has taken
    Player1), and the order that draft follows (one round of ten picks). *)
Definition unsynced_order : list Z :=
  generate_snake_draft_order DRAFT_CONFIG.num_teams (actual_rounds (length greedy_test_pool)).

Definition unsynced_after_first_pick : DraftState Unsynced :=
  match draft_pick (length greedy_test_pool) unsynced_order 0 1
                   (initial_state greedy_test_pool) with
  | Next st => st
  | Break st => st
  | Raise => initial_state greedy_test_pool
  end.

(** The quarterback pool with its last entry renamed to the name of the
    first: eighty players, seventy-nine names. *)
Definition duplicate_name_pool : list Player :=
  List.map quarterback (seq 1 79) ++ [ mkPlayer "P01" "QB" "T" 80 10 80 7 ].

(** ** models.py: the report functions *)

(** One value of the dictionary that [get_roster_summary] returns: the keys
    ['players'], ['total_points'] and ['count']. *)
Record SlotSummary := mkSlotSummary {
  summary_players : list string;
  summary_total_points : Q;
  summary_count : nat
}.

(** The loop of [Team.get_roster_summary] over [roster.items()]: a slot
    with no player gets no entry. *)
Fixpoint summary_from (r : Roster) : list (string * SlotSummary) :=
  match r with
  | [] => []
  | (pos, players) :: r' =>
      match players with
      | [] => summary_from r'
      | _ :: _ =>
          (pos, {| summary_players := List.map name players;
                   summary_total_points := sum_points players;
                   summary_count := length players |}) :: summary_from r'
      end
  end.

(** [Team.get_roster_summary] *)
Definition get_roster_summary (t : Team) : list (string * SlotSummary) :=
  summary_from (roster t).

(** ** Runs of picks from one instance *)

(** The players one Greedy instance returns when [draft_player] is called
    for the given teams in turn. *)
Fixpoint greedy_run (g : Greedy.GreedyDraftAlgorithm) (ts : list Team) : list Player :=
  match ts with
  | [] => []
  | t :: ts' =>
      match Greedy.draft_player g t with
      | (Some p, g') => p :: greedy_run g' ts'
      | (None, g') => greedy_run g' ts'
      end
  end.

(** The same for a Regret instance; each call has its [picks_until_next]. *)
Fixpoint regret_run (r : Regret.RegretDraftAlgorithm) (calls : list (Team * Z)) : list Player :=
  match calls with
  | [] => []
  | (t, picks_until_next) :: calls' =>
      match Regret.draft_player r t picks_until_next with
      | (Some p, r') => p :: regret_run r' calls'
      | (None, r') => regret_run r' calls'
      end
  end.

(** ** What the pick loop keeps whatever the strategy does *)


(** No law is asked of the strategy here: ten teams numbered 1 to 10 with
    an algorithm each, every total equal to the sum over the pick log,
    every rostered player a logged pick, the logged names distinct and
    exactly those of the global set. *)
Section EngineSafe.
Context {A : Type} `{Strategy A}.

Record engine_safe (st : DraftState A) : Prop := {
  safe_teams : List.map team_id (teams st) = py_range 1 11;
  safe_algs : forall id, 1 <= id <= 10 -> is_Some (team_algorithms st !! id);
  safe_points : Forall (fun t => (total_points t == sum_points (draft_picks t))%Q) (teams st);
  safe_roster : Forall (fun t => roster_players (roster t) ⊆+ draft_picks t) (teams st);
  safe_nodup : NoDup (List.map name (all_picks (teams st)));
  safe_global : forall n, n ∈ globally_drafted st <-> In n (List.map name (all_picks (teams st)))
}.
End EngineSafe.

(** A pool too small for eight rounds: twenty-five players. *)
Definition short_pool : list Player := List.map quarterback (seq 1 25).

(** ** data_loader.py: matching a player to the realized points *)

(** [sub in s] on strings: [sub] occurs in [s] as a contiguous block. *)
Fixpoint str_contains (sub s : string) : bool :=
  String.prefix sub s
  || match s with
     | EmptyString => false
     | String _ s' => str_contains sub s'
     end.

(** [actual_data[name]] on the items of the dict; [None] when the key is
    absent. *)
Fixpoint dict_get (key : string) (items : list (string * Q)) : option Q :=
  match items with
  | [] => None
  | (k, v) :: items' => if String.eqb k key then Some v else dict_get key items'
  end.

(** [str.lower] and [str.split] are built-ins of Python; the matching is
    modelled over any two functions in their place. *)
Section NameMatching.
Variables (lower : string -> string) (split : string -> list string).

(** [DataLoader._names_similar] *)
Definition _names_similar (name1 name2 : string) : bool :=
  let parts1 : gset string := list_to_set (split name1) in
  let parts2 : gset string := list_to_set (split name2) in
  let common_parts := parts1 ∩ parts2 in
  (2 <=? size common_parts)%nat
  || ((1 <=? size common_parts)%nat
      && ((size parts1 <=? 2)%nat || (size parts2 <=? 2)%nat)).

(** The test of the fuzzy loop for one key of [actual_data]. *)
Definition fuzzy_match (player_lower actual_name : string) : bool :=
  let actual_lower := lower actual_name in
  str_contains player_lower actual_lower
  || str_contains actual_lower player_lower
  || _names_similar player_lower actual_lower.

(** [DataLoader.match_player_points], over the items of [actual_data] in
    their order. *)
Definition match_player_points (player_name : string) (actual_data : list (string * Q)) : Q :=
  match dict_get player_name actual_data with
  | Some points => points
  | None =>
      let player_lower := lower player_name in
      match List.find (fun item => fuzzy_match player_lower (fst item)) actual_data with
      | Some (_, points) => points
      | None => 0%Q
      end
  end.
End NameMatching.

(** ** algorithms.py in binary64: the regret score as the program computes it

    The choice among the candidates of [draft_player] depends on the order
    of their scores, and two scores that are equal as real numbers may be
    rounded apart.  Here the score is computed in IEEE 754 binary64, the
    [float] of Python, operation by operation in the order of the source
    (Rocq's primitive floats are binary64 with rounding to nearest even).
    What stays exact: the integers, and the count of quality players, whose
    threshold numpy computes without rounding (the interpolation weight is a
    multiple of 1/4) for auction values below 2^51. *)
Module Regret64.
Import PrimFloat.

(** [float(z)], exact for [|z| <= 2^53]; [int / int] is then the float
    division of the two conversions. *)
Definition of_int (z : Z) : PrimFloat.float :=
  match z with
  | Z0 => PrimFloat.zero
  | Zpos _ => PrimFloat.of_uint63 (Uint63.of_Z z)
  | Zneg p => PrimFloat.opp (PrimFloat.of_uint63 (Uint63.of_Z (Zpos p)))
  end.

(** [max(a, b)] and [min(a, b)]: the first argument unless the second is
    strictly larger (smaller). *)
Definition fmax (a b : PrimFloat.float) : PrimFloat.float :=
  if PrimFloat.ltb a b then b else a.
Definition fmin (a b : PrimFloat.float) : PrimFloat.float :=
  if PrimFloat.ltb b a then b else a.

(** The literals of the source. *)
Definition f0_1 : PrimFloat.float := 0x1.999999999999ap-4%float.
Definition f0_3 : PrimFloat.float := 0x1.3333333333333p-2%float.
Definition f0_4 : PrimFloat.float := 0x1.999999999999ap-2%float.
Definition f0_05 : PrimFloat.float := 0x1.999999999999ap-5%float.
Definition f19 : PrimFloat.float := 19%float.

(** [calculate_positional_scarcity] *)
Definition calculate_positional_scarcity (r : Regret.RegretDraftAlgorithm) (pos : string)
  : PrimFloat.float :=
  let available := Regret.available_at_position r pos in
  match available with
  | [] => PrimFloat.zero
  | [_] => PrimFloat.one
  | _ =>
      let auction_values := List.map auction_value available in
      if (length auction_values <? 2)%nat then PrimFloat.one
      else
        let threshold := np_percentile auction_values 75 in
        let quality := Regret.quality_players auction_values threshold in
        let scarcity :=
          fmax f0_1 (PrimFloat.div PrimFloat.one (of_int (Z.max 1 (Z.of_nat quality)))) in
        fmin PrimFloat.one scarcity
  end.

(** [calculate_value_dropoff] *)
Definition calculate_value_dropoff (r : Regret.RegretDraftAlgorithm) (pos : string)
  : PrimFloat.float :=
  let available := Regret.available_at_position r pos in
  if (length available <? 2)%nat then PrimFloat.zero
  else
    match py_sort (fun a b => auction_value b <=? auction_value a) available with
    | best :: second :: _ =>
        let best_value := auction_value best in
        let second_best_value := auction_value second in
        if best_value <=? 0 then PrimFloat.zero
        else
          let dropoff := Z.max 0 (best_value - second_best_value) in
          fmin PrimFloat.one (PrimFloat.div (of_int dropoff) (of_int best_value))
    | _ => PrimFloat.zero
    end.

(** [calculate_pick_urgency] *)
Definition calculate_pick_urgency (picks_until_next : Z) : PrimFloat.float :=
  let normalized_picks := Z.min 19 (Z.max 1 picks_until_next) in
  PrimFloat.div (of_int normalized_picks) f19.

Definition bye_penalty (player : Player) (t : Team) : PrimFloat.float :=
  if existsb (Z.eqb (bye_week player)) (Regret.team_bye_weeks t) then f0_05
  else PrimFloat.zero.

Definition value_score (r : Regret.RegretDraftAlgorithm) (player : Player) : PrimFloat.float :=
  if 0 <? Regret.max_auction r
  then PrimFloat.div (of_int (auction_value player)) (of_int (Regret.max_auction r))
  else PrimFloat.zero.

(** [calculate_regret_score]: products and sums associate to the left, as
    Python evaluates them. *)
Definition calculate_regret_score (r : Regret.RegretDraftAlgorithm) (player : Player)
           (t : Team) (picks_until_next : Z) : PrimFloat.float :=
  let scarcity := calculate_positional_scarcity r (position player) in
  let dropoff := calculate_value_dropoff r (position player) in
  let urgency := calculate_pick_urgency picks_until_next in
  let scarcity_component := PrimFloat.mul (PrimFloat.mul scarcity dropoff) f0_4 in
  let urgency_component := PrimFloat.mul urgency f0_3 in
  let value_component := PrimFloat.mul (value_score r player) f0_3 in
  let regret_score :=
    PrimFloat.sub
      (PrimFloat.add (PrimFloat.add value_component scarcity_component) urgency_component)
      (bye_penalty player t) in
  fmax PrimFloat.zero regret_score.

(** The [(regret_score, player)] pairs of a list of players. *)
Definition scored (r : Regret.RegretDraftAlgorithm) (t : Team) (picks_until_next : Z)
           (l : list Player) : list (PrimFloat.float * Player) :=
  List.map (fun p => (calculate_regret_score r p t picks_until_next, p)) l.

(** The candidate list of [draft_player], before it is sorted. *)
Definition candidates (r : Regret.RegretDraftAlgorithm) (t : Team) (picks_until_next : Z)
  : list (PrimFloat.float * Player) :=
  let needs := get_needs t in
  let available := Regret.get_available_players r in
  match scored r t picks_until_next (List.filter (fills_need needs) available) with
  | [] => scored r t picks_until_next available
  | cs => cs
  end.

(** [candidates.sort(key=lambda x: x[0], reverse=True)] on float keys. *)
Definition sort_candidates (cs : list (PrimFloat.float * Player))
  : list (PrimFloat.float * Player) :=
  py_sort (fun a b => PrimFloat.leb (fst b) (fst a)) cs.

(** [RegretDraftAlgorithm.draft_player] *)
Definition draft_player (r : Regret.RegretDraftAlgorithm) (t : Team) (picks_until_next : Z)
  : option Player * Regret.RegretDraftAlgorithm :=
  match get_needs t with
  | [] => (None, r)
  | _ =>
      match Regret.get_available_players r with
      | [] => (None, r)
      | _ =>
          match sort_candidates (candidates r t picks_until_next) with
          | [] => (None, r)
          | (_, best_player) :: _ => (Some best_player, Regret.mark r best_player)
          end
      end
  end.

End Regret64.

(** Four players whose best quarterback and best running back have the same
    regret score as real numbers (609/1045 each, for a team with every slot
    open and the default [picks_until_next] of 11). *)
Definition near_tie_pool : list Player :=
  [ mkPlayer "qA" "QB" "T1" 1 8 0 0;
    mkPlayer "qB" "QB" "T2" 2 11 0 0;
    mkPlayer "rA" "RB" "T3" 3 1 0 0;
    mkPlayer "rB" "RB" "T4" 4 4 0 0 ].

(** A team whose eight slots are filled. *)
Definition complete_team : Team :=
  add_players (new_Team 1)
    [ (mkPlayer "A1" "QB" "T1" 11 1 0 0, None);
      (mkPlayer "A2" "RB" "T1" 12 1 0 0, None);
      (mkPlayer "A3" "RB" "T1" 13 1 0 0, None);
      (mkPlayer "A4" "WR" "T1" 14 1 0 0, None);
      (mkPlayer "A5" "WR" "T1" 15 1 0 0, None);
      (mkPlayer "A6" "TE" "T1" 16 1 0 0, None);
      (mkPlayer "A7" "TE" "T1" 17 1 0 0, Some "FLEX");
      (mkPlayer "A8" "K" "T1" 18 1 0 0, None) ].

(** ** main.py and visualizer.py: the multi-year summary, in binary64

    The totals of a team reach [main] as floats, and the summary adds and
    compares them as floats; the summary is therefore modelled on binary64
    values, whatever the two simulations returned. *)

(** One entry of [all_results]. *)
Record YearResult := mkYearResult {
  yr_greedy : PrimFloat.float;
  yr_regret : PrimFloat.float;
  yr_improvement : PrimFloat.float
}.

(** The entry [main] stores for a year, from the [total_points] of the two
    tracked teams. *)
Definition year_result (greedy_points regret_points : PrimFloat.float) : YearResult :=
  {| yr_greedy := greedy_points;
     yr_regret := regret_points;
     yr_improvement := PrimFloat.sub regret_points greedy_points |}.

(** The loop of [main] over the five seasons; a year is kept when both data
    sets have it and both simulations return a result.  [greedy_result] and
    [regret_result] give the [total_points] of the tracked team of a
    simulation that returned one. *)
Definition collect_results (has_data : Z -> bool)
           (greedy_result regret_result : Z -> option PrimFloat.float)
  : list (Z * YearResult) :=
  flat_map (fun year =>
              if has_data year then
                match greedy_result year, regret_result year with
                | Some greedy_points, Some regret_points =>
                    [(year, year_result greedy_points regret_points)]
                | _, _ => []
                end
              else [])
           [2020; 2021; 2022; 2023; 2024].

Record Summary := mkSummary {
  total_greedy : PrimFloat.float;
  total_regret : PrimFloat.float;
  regret_wins : Z;
  total_improvement : PrimFloat.float;
  win_rate : PrimFloat.float
}.

(** [improvement > 0] *)
Definition positive (x : PrimFloat.float) : bool := PrimFloat.ltb PrimFloat.zero x.

(** The summary loop of [main]: the three accumulators. *)
Definition summary_loop (all_results : list (Z * YearResult))
  : PrimFloat.float * PrimFloat.float * Z :=
  fold_left (fun '(total_greedy, total_regret, regret_wins) entry =>
               let results := snd entry in
               let regret_wins' :=
                 if positive (yr_improvement results) then regret_wins + 1 else regret_wins in
               (PrimFloat.add total_greedy (yr_greedy results),
                PrimFloat.add total_regret (yr_regret results),
                regret_wins'))
            all_results (PrimFloat.zero, PrimFloat.zero, 0).

(** [(regret_wins / n) * 100] *)
Definition rate (regret_wins : Z) (n : nat) : PrimFloat.float :=
  PrimFloat.mul
    (PrimFloat.div (Regret64.of_int regret_wins) (Regret64.of_int (Z.of_nat n)))
    (Regret64.of_int 100).

(** The summary block of [main]; nothing is computed for an empty
    [all_results]. *)
Definition multi_year_summary (all_results : list (Z * YearResult)) : option Summary :=
  match all_results with
  | [] => None
  | _ :: _ =>
      let '(total_greedy, total_regret, regret_wins) := summary_loop all_results in
      Some {| total_greedy := total_greedy;
              total_regret := total_regret;
              regret_wins := regret_wins;
              total_improvement := PrimFloat.sub total_regret total_greedy;
              win_rate := rate regret_wins (length all_results) |}
  end.

(** The win statistics of [create_comparison_charts], from the improvements. *)
Definition chart_regret_wins (improvements : list PrimFloat.float) : Z :=
  fold_left (fun acc imp => if positive imp then acc + 1 else acc) improvements 0.

Definition chart_win_rate (improvements : list PrimFloat.float) : PrimFloat.float :=
  rate (chart_regret_wins improvements) (length improvements).


(** * Properties *)

(** * Snake order *)

Lemma fold_left_extend {A B : Type} (f : B -> list A) (l : list B) (acc : list A) :
  fold_left (fun acc b => acc ++ f b) l acc = acc ++ concat (List.map f l).
Proof.
  revert acc. induction l as [|b l IH]; intros acc; simpl.
  - by rewrite app_nil_r.
  - rewrite IH. by rewrite <- app_assoc.
Qed.

Lemma nth_error_blocks {A : Type} (n : nat) (bs : list (list A)) (r j : nat) :
  Forall (fun b => length b = n) bs -> (j < n)%nat ->
  nth_error (concat bs) (r * n + j) =
  match nth_error bs r with Some b => nth_error b j | None => None end.
Proof.
  intros Hbs Hj. revert r. induction Hbs as [|b bs Hb Hbs IH]; intros r.
  - simpl. by destruct r, (0 * n + j)%nat; simpl; try (destruct (_ + _)%nat).
  - destruct r as [|r]; simpl.
    + rewrite nth_error_app1; [done | lia].
    + rewrite nth_error_app2; [| lia].
      replace (n + r * n + j - length b)%nat with (r * n + j)%nat by lia.
      apply IH.
Qed.

Lemma nth_error_py_range (lo hi : Z) (j : nat) :
  Z.of_nat j < hi - lo -> nth_error (py_range lo hi) j = Some (lo + Z.of_nat j).
Proof.
  intros Hj. unfold py_range.
  rewrite nth_error_map, nth_error_seq.
  destruct (Nat.ltb_spec j (Z.to_nat (hi - lo))); [done | lia].
Qed.

Lemma nth_error_py_range_down (hi lo : Z) (j : nat) :
  Z.of_nat j < hi - lo -> nth_error (py_range_down hi lo) j = Some (hi - Z.of_nat j).
Proof.
  intros Hj. unfold py_range_down.
  rewrite nth_error_map, nth_error_seq.
  destruct (Nat.ltb_spec j (Z.to_nat (hi - lo))); [done | lia].
Qed.

Lemma length_py_range lo hi : length (py_range lo hi) = Z.to_nat (hi - lo).
Proof. unfold py_range. by rewrite length_map, length_seq. Qed.

Lemma length_py_range_down hi lo : length (py_range_down hi lo) = Z.to_nat (hi - lo).
Proof. unfold py_range_down. by rewrite length_map, length_seq. Qed.

Lemma length_snake_round n r : length (snake_round n r) = Z.to_nat n.
Proof.
  unfold snake_round. destruct (_ =? _).
  - rewrite length_py_range. f_equal. lia.
  - rewrite length_py_range_down. f_equal. lia.
Qed.

Lemma snake_order_concat n rounds :
  generate_snake_draft_order n rounds =
  concat (List.map (snake_round n) (py_range 0 rounds)).
Proof. unfold generate_snake_draft_order. by rewrite fold_left_extend. Qed.

(** C8: in [generate_snake_draft_order num_teams num_rounds], pick [j] of
    round [r] (both counted from 0) belongs to team [j + 1] when [r] is even
    and to team [num_teams - j] when [r] is odd: even rounds run 1..num_teams
    upwards, odd rounds run num_teams..1 downwards.  For 4 teams and 2 rounds
    the order is [1;2;3;4;4;3;2;1]. *)
Theorem snake_order_by_round (num_teams num_rounds r j : Z) :
  0 <= r < num_rounds -> 0 <= j < num_teams ->
  nth_error (generate_snake_draft_order num_teams num_rounds)
            (Z.to_nat (r * num_teams + j))
  = Some (if Z.even r then j + 1 else num_teams - j)
  /\ generate_snake_draft_order 4 2 = [1; 2; 3; 4; 4; 3; 2; 1].
Proof.
  intros Hr Hj. split; [| reflexivity].
  rewrite snake_order_concat.
  replace (Z.to_nat (r * num_teams + j))
    with (Z.to_nat r * Z.to_nat num_teams + Z.to_nat j)%nat by nia.
  rewrite (nth_error_blocks (Z.to_nat num_teams)).
  - rewrite nth_error_map, nth_error_py_range by lia. simpl.
    rewrite Z2Nat.id by lia. rewrite Z.add_0_l.
    unfold snake_round. rewrite Zmod_even.
    destruct (Z.even r); simpl.
    + rewrite nth_error_py_range by lia. f_equal. lia.
    + rewrite nth_error_py_range_down by lia. f_equal. lia.
  - apply List.Forall_forall. intros b Hb. apply in_map_iff in Hb as (x & <- & _).
    apply length_snake_round.
  - lia.
Qed.

Lemma snake_order_by_round_witness :
  nth_error (generate_snake_draft_order 4 2) (Z.to_nat (1 * 4 + 2)) = Some (if Z.even 1 then 2 + 1 else 4 - 2)
  /\ generate_snake_draft_order 4 2 = [1; 2; 3; 4; 4; 3; 2; 1].
Proof. apply (snake_order_by_round 4 2 1 2); lia. Defined.


(** * Team bookkeeping *)

Lemma sum_points_acc (l : list Player) (a : Q) :
  (fold_left (fun acc p => acc + actual_points p) l a == a + sum_points l)%Q.
Proof.
  unfold sum_points. revert a. induction l as [|x l IH]; intros a; simpl.
  - ring.
  - rewrite (IH (a + actual_points x)%Q), (IH (0 + actual_points x)%Q). ring.
Qed.

Lemma sum_points_app (l1 l2 : list Player) :
  (sum_points (l1 ++ l2) == sum_points l1 + sum_points l2)%Q.
Proof.
  unfold sum_points at 1. rewrite fold_left_app.
  rewrite sum_points_acc. reflexivity.
Qed.

Lemma sum_points_single (p : Player) : (sum_points [p] == actual_points p)%Q.
Proof. unfold sum_points. simpl. ring. Qed.

Lemma roster_append_keys pos p r :
  List.map fst (roster_append pos p r) = List.map fst r.
Proof.
  induction r as [|[k ps] r IH]; simpl; [done |].
  destruct (String.eqb k pos); simpl; [done | by rewrite IH].
Qed.

Lemma roster_mem_keys pos r : roster_mem pos r = str_in pos (List.map fst r).
Proof.
  induction r as [|[k ps] r IH]; simpl; [done |].
  unfold str_in in *. simpl. rewrite IH. by rewrite (String.eqb_sym k pos).
Qed.

Lemma roster_append_points pos p r :
  (sum_points (roster_players (roster_append pos p r)) ==
   sum_points (roster_players r) + (if roster_mem pos r then actual_points p else 0))%Q.
Proof.
  unfold roster_players.
  induction r as [|[k ps] r IH]; simpl.
  - ring.
  - destruct (String.eqb k pos); simpl.
    + rewrite !sum_points_app, sum_points_single. ring.
    + rewrite !sum_points_app, IH. ring.
Qed.

Lemma keyed_new_Team id : keyed (new_Team id).
Proof. reflexivity. Qed.

Lemma keyed_add_player t p pos : keyed t -> keyed (add_player t p pos).
Proof.
  unfold keyed, add_player. simpl. intros Hk.
  repeat match goal with |- context [if ?b then _ else _] => destruct b end;
    rewrite ?roster_append_keys; done.
Qed.

Lemma flex_eligible_cases s :
  flex_eligible s = true -> s = "RB" \/ s = "WR" \/ s = "TE".
Proof.
  unfold flex_eligible, str_in. simpl. rewrite orb_false_r, !orb_true_iff.
  rewrite !String.eqb_eq. tauto.
Qed.

Lemma flex_eligible_is_slot s : flex_eligible s = true -> is_slot s = true.
Proof. intros H. apply flex_eligible_cases in H as [-> | [-> | ->]]; reflexivity. Qed.

(** What one [add_player] does to the points stored in the roster. *)
Lemma add_player_roster_points t p pos :
  keyed t ->
  (roster_points (add_player t p pos) ==
   roster_points t +
   (if is_slot (match pos with None => position p | Some s => s end) || is_slot (position p)
    then actual_points p else 0))%Q.
Proof.
  intros Hk. unfold roster_points, add_player. simpl.
  set (req := match pos with None => position p | Some s => s end).
  assert (Hmem : forall s, roster_mem s (roster t) = is_slot s).
  { intros s. rewrite roster_mem_keys, Hk. done. }
  rewrite !Hmem.
  destruct (String.eqb req "FLEX" && flex_eligible (position p)) eqn:E1.
  - apply andb_true_iff in E1 as [E1 E2].
    rewrite roster_append_points, Hmem.
    rewrite (flex_eligible_is_slot _ E2), orb_true_r. reflexivity.
  - destruct (is_slot req) eqn:E2; simpl.
    + rewrite roster_append_points, Hmem, E2. reflexivity.
    + destruct (is_slot (position p)) eqn:E3.
      * rewrite roster_append_points, Hmem, E3. reflexivity.
      * destruct (flex_eligible (position p)) eqn:E4.
        -- apply flex_eligible_is_slot in E4. congruence.
        -- ring.
Qed.

Lemma add_players_invariant (calls : list (Player * option string)) (t : Team) :
  keyed t ->
  Forall (fun c => storable c = true) calls ->
  (total_points t == roster_points t)%Q ->
  (total_points (add_players t calls) == roster_points (add_players t calls))%Q.
Proof.
  revert t. induction calls as [|[p pos] calls IH]; intros t Hk Hall Heq; simpl; [done |].
  inversion Hall as [|c cs Hc Hcs]; subst.
  apply IH; [by apply keyed_add_player | done |].
  rewrite add_player_roster_points by done.
  unfold storable in Hc. simpl in Hc. rewrite Hc. simpl. rewrite Heq. reflexivity.
Qed.

Lemma add_players_draft_picks (calls : list (Player * option string)) (t : Team) :
  draft_picks (add_players t calls) = draft_picks t ++ List.map fst calls.
Proof.
  revert t. induction calls as [|[p pos] calls IH]; intros t; simpl.
  - by rewrite app_nil_r.
  - rewrite IH. simpl. by rewrite <- app_assoc.
Qed.

(** What [add_player] does keep: starting from a fresh team, after any run
    of N calls in which every call names a roster slot or carries a player
    whose position is one, [total_points] equals the sum of [actual_points]
    over the players stored in the roster slots, and [draft_picks] has
    length N. *)
Lemma add_player_additive (id : Z) (calls : list (Player * option string)) :
  Forall (fun c => storable c = true) calls ->
  (total_points (add_players (new_Team id) calls)
   == roster_points (add_players (new_Team id) calls))%Q
  /\ length (draft_picks (add_players (new_Team id) calls)) = length calls.
Proof.
  intros Hall. split.
  - apply add_players_invariant; [apply keyed_new_Team | done | reflexivity].
  - rewrite add_players_draft_picks. simpl. by rewrite length_map.
Qed.

Lemma add_player_additive_example :
  (total_points (add_players (new_Team 1) [(mahomes, Some "QB"); (kelce, Some "FLEX"); (bears_dst, Some "K")])
   == roster_points (add_players (new_Team 1) [(mahomes, Some "QB"); (kelce, Some "FLEX"); (bears_dst, Some "K")]))%Q
  /\ length (draft_picks (add_players (new_Team 1) [(mahomes, Some "QB"); (kelce, Some "FLEX"); (bears_dst, Some "K")])) = 3%nat.
Proof.
  apply (add_player_additive 1 [(mahomes, Some "QB"); (kelce, Some "FLEX"); (bears_dst, Some "K")]).
  repeat constructor.
Qed.

(** C3 at a failing input: a player whose position is "DST", which is no
    roster slot, added to a fresh team with the default slot argument, is
    counted in [total_points] (96) and logged in [draft_picks], but stored
    in no roster slot, so the points held by the roster are 0. *)
Theorem add_player_unstored_position :
  (total_points (add_players (new_Team 1) [(bears_dst, None)]) == 96)%Q
  /\ draft_picks (add_players (new_Team 1) [(bears_dst, None)]) = [bears_dst]
  /\ roster_players (roster (add_players (new_Team 1) [(bears_dst, None)])) = []
  /\ (roster_points (add_players (new_Team 1) [(bears_dst, None)]) == 0)%Q
  /\ ~ (total_points (add_players (new_Team 1) [(bears_dst, None)])
        == roster_points (add_players (new_Team 1) [(bears_dst, None)]))%Q.
Proof. repeat split; try reflexivity. vm_compute. discriminate. Qed.


(** * The stable sort *)

Section PySortFacts.
Context {A : Type} (before : A -> A -> bool).

Lemma sort_insert_perm (x : A) (l : list A) :
  Permutation (sort_insert before x l) (x :: l).
Proof.
  induction l as [|y l IH]; simpl; [done |].
  destruct (before x y); [done |].
  rewrite IH. apply perm_swap.
Qed.

Lemma py_sort_perm (l : list A) : Permutation (py_sort before l) l.
Proof.
  induction l as [|x l IH]; simpl; [done |].
  rewrite sort_insert_perm. by constructor.
Qed.

Lemma py_sort_In (x : A) (l : list A) : In x (py_sort before l) <-> In x l.
Proof.
  split; apply Permutation_in; [| symmetry]; apply py_sort_perm.
Qed.

Lemma py_sort_length (l : list A) : length (py_sort before l) = length l.
Proof. apply Permutation_length, py_sort_perm. Qed.

Lemma py_sort_nil_inv (l : list A) : py_sort before l = [] -> l = [].
Proof.
  intros E. apply length_zero_iff_nil. by rewrite <- py_sort_length, E.
Qed.

Hypothesis before_trans :
  forall a b c, before a b = true -> before b c = true -> before a c = true.
Hypothesis before_total :
  forall a b, before a b = false -> before b a = true.

(** The head of the sorted list is the first element of the input that no
    other element must precede: everything in front of it in the input has
    to come strictly later, everything behind it may stay behind it. *)
Lemma py_sort_head (l : list A) (h : A) (s : list A) :
  py_sort before l = h :: s ->
  exists l1 l2, l = l1 ++ h :: l2
    /\ Forall (fun x => before x h = false) l1
    /\ Forall (fun y => before h y = true) l2.
Proof.
  revert h s. induction l as [|x l IH]; intros h s; simpl; [done |].
  destruct (py_sort before l) as [|h' s'] eqn:E; simpl.
  - intros [= <- <-]. apply py_sort_nil_inv in E as ->.
    exists [], []. repeat split; constructor.
  - destruct (IH h' s' eq_refl) as (l1 & l2 & -> & H1 & H2).
    destruct (before x h') eqn:Ex.
    + intros [= <- <-]. exists [], (l1 ++ h' :: l2). repeat split; [constructor |].
      apply Forall_app. split; [| constructor].
      * eapply Forall_impl; [exact H1 |]. simpl. intros y Hy.
        apply (before_trans x h' y); [done |]. by apply before_total.
      * done.
      * eapply Forall_impl; [exact H2 |]. simpl. intros y Hy.
        by apply (before_trans x h' y).
    + intros [= <- <-]. exists (x :: l1), l2. repeat split; [| done].
      by constructor.
Qed.

Lemma sort_insert_sorted (x : A) (l : list A) :
  StronglySorted (fun a b => before a b = true) l ->
  StronglySorted (fun a b => before a b = true) (sort_insert before x l).
Proof.
  induction 1 as [|y l Hs IH Hy]; simpl; [repeat constructor |].
  destruct (before x y) eqn:Ex.
  - constructor; [by constructor |]. constructor; [done |].
    eapply Forall_impl; [exact Hy |]. simpl. intros z Hz. by apply (before_trans x y z).
  - constructor; [done |].
    eapply Permutation_Forall; [symmetry; apply sort_insert_perm |].
    constructor; [by apply before_total | done].
Qed.

Lemma py_sort_sorted (l : list A) :
  StronglySorted (fun a b => before a b = true) (py_sort before l).
Proof.
  induction l as [|x l IH]; simpl; [constructor |]. by apply sort_insert_sorted.
Qed.

End PySortFacts.

(** * Atomicity of [draft_player] *)

Lemma scan_needs_Some needs drafted l p :
  Greedy.scan_needs needs drafted l = Some p ->
  In p l /\ (name p ∉ drafted) /\ fills_need needs p = true.
Proof.
  induction l as [|q l IH]; simpl; [done |].
  unfold is_drafted, fills_need. case_bool_decide as Hd.
  - intros E. destruct (IH E) as (? & ? & ?). auto.
  - destruct (str_in (position q) needs) eqn:E1.
    + intros [= ->]. rewrite E1. auto.
    + destruct (str_in "FLEX" needs && flex_eligible (position q)) eqn:E2.
      * intros [= ->]. rewrite E1, E2. auto.
      * intros E. destruct (IH E) as (? & ? & ?). auto.
Qed.

Lemma scan_any_Some drafted l p :
  Greedy.scan_any drafted l = Some p -> In p l /\ name p ∉ drafted.
Proof.
  induction l as [|q l IH]; simpl; [done |].
  unfold is_drafted. case_bool_decide as Hd.
  - intros E. destruct (IH E). auto.
  - intros [= ->]. auto.
Qed.

Lemma scan_any_None drafted l :
  Greedy.scan_any drafted l = None <-> Forall (fun p => name p ∈ drafted) l.
Proof.
  induction l as [|q l IH]; simpl.
  - split; [constructor | done].
  - unfold is_drafted. case_bool_decide as Hd.
    + rewrite IH. split; [by constructor | by inversion 1].
    + split; [done | by inversion 1].
Qed.

Lemma greedy_draft_player_Some g t p g' :
  Greedy.draft_player g t = (Some p, g') ->
  In p (Greedy.available_players g)
  /\ (name p ∉ Greedy.drafted_players g)
  /\ g' = Greedy.mark g p
  /\ get_needs t <> [].
Proof.
  unfold Greedy.draft_player.
  destruct (get_needs t) as [|n ns] eqn:En; [done |].
  destruct (Greedy.scan_needs _ _ _) as [q|] eqn:E1.
  - intros [= -> <-]. apply scan_needs_Some in E1 as (? & ? & ?). auto.
  - destruct (Greedy.scan_any _ _) as [q|] eqn:E2; [| done].
    intros [= -> <-]. apply scan_any_Some in E2 as (? & ?). auto.
Qed.

Lemma greedy_draft_player_None g t g' :
  Greedy.draft_player g t = (None, g') ->
  g' = g /\ (get_needs t = [] \/
             Forall (fun p => name p ∈ Greedy.drafted_players g) (Greedy.available_players g)).
Proof.
  unfold Greedy.draft_player.
  destruct (get_needs t) as [|n ns] eqn:En; [intros [= <-]; auto |].
  destruct (Greedy.scan_needs _ _ _) as [q|] eqn:E1; [done |].
  destruct (Greedy.scan_any _ _) as [q|] eqn:E2; [done |].
  intros [= <-]. split; [done |]. right. by apply scan_any_None.
Qed.

Lemma Qle_bool_trans a b c : Qle_bool a b = true -> Qle_bool b c = true -> Qle_bool a c = true.
Proof. rewrite !Qle_bool_iff. apply Qle_trans. Qed.

Lemma Qle_bool_total a b : Qle_bool a b = false -> Qle_bool b a = true.
Proof.
  intros E. apply Qle_bool_iff. destruct (Qlt_le_dec b a) as [H|H]; [by apply Qlt_le_weak |].
  apply Qle_bool_iff in H. congruence.
Qed.

Lemma Qle_bool_false a b : Qle_bool a b = false <-> (b < a)%Q.
Proof.
  split.
  - intros E. destruct (Qlt_le_dec b a) as [H|H]; [done |].
    apply Qle_bool_iff in H. congruence.
  - intros H. destruct (Qle_bool a b) eqn:E; [| done].
    apply Qle_bool_iff in E. by apply Qle_not_lt in E.
Qed.

Lemma available_In r p :
  In p (Regret.get_available_players r) <->
  In p (Regret.all_players r) /\ name p ∉ Regret.drafted_players r.
Proof.
  unfold Regret.get_available_players. rewrite filter_In. unfold is_drafted.
  case_bool_decide; simpl; intuition congruence.
Qed.

Lemma scored_In r t k l s p :
  In (s, p) (Regret.scored r t k l) <->
  In p l /\ s = Regret.calculate_regret_score r p t k.
Proof.
  unfold Regret.scored. rewrite in_map_iff. split.
  - intros (q & [= <- <-] & Hq). auto.
  - intros [Hp ->]. eauto.
Qed.

Lemma candidates_In r t k s p :
  In (s, p) (Regret.candidates r t k) ->
  In p (Regret.get_available_players r) /\ s = Regret.calculate_regret_score r p t k.
Proof.
  unfold Regret.candidates.
  destruct (Regret.scored r t k (List.filter _ _)) as [|c cs] eqn:E.
  - by rewrite scored_In.
  - rewrite <- E, scored_In, filter_In. tauto.
Qed.

Lemma candidates_nil r t k :
  Regret.candidates r t k = [] -> Regret.get_available_players r = [].
Proof.
  unfold Regret.candidates.
  destruct (Regret.scored r t k (List.filter _ _)) as [|c cs] eqn:E; [| done].
  unfold Regret.scored. intros H. by apply map_eq_nil in H.
Qed.

Lemma regret_draft_player_Some r t k p r' :
  Regret.draft_player r t k = (Some p, r') ->
  In p (Regret.all_players r)
  /\ (name p ∉ Regret.drafted_players r)
  /\ r' = Regret.mark r p
  /\ get_needs t <> [].
Proof.
  unfold Regret.draft_player.
  destruct (get_needs t) as [|n ns] eqn:En; [done |].
  destruct (Regret.get_available_players r) as [|a av] eqn:Ea; [done |].
  destruct (Regret.sort_candidates _) as [|[s q] cs] eqn:Es; [done |].
  intros [= -> <-].
  assert (Hin : In (s, p) (Regret.candidates r t k)).
  { apply (py_sort_In (fun a b => Qle_bool (fst b) (fst a))).
    unfold Regret.sort_candidates in Es. rewrite Es. by left. }
  apply candidates_In in Hin as [Hin _]. apply available_In in Hin as [? ?]. auto.
Qed.

Lemma regret_draft_player_None r t k r' :
  Regret.draft_player r t k = (None, r') ->
  r' = r /\ (get_needs t = [] \/ Regret.get_available_players r = []).
Proof.
  unfold Regret.draft_player.
  destruct (get_needs t) as [|n ns] eqn:En; [intros [= <-]; auto |].
  destruct (Regret.get_available_players r) as [|a av] eqn:Ea; [intros [= <-]; auto |].
  destruct (Regret.sort_candidates _) as [|[s q] cs] eqn:Es; [| done].
  intros [= <-]. split; [done |]. right.
  apply py_sort_nil_inv in Es. apply candidates_nil in Es. congruence.
Qed.

(** C10: [draft_player] of either strategy is atomic.  When it returns no
    pick (which happens only when the team has no needs or no undrafted
    player is left) the instance is unchanged; when it returns a player,
    [drafted_players] gains exactly that player's name, which was not in the
    set before. *)
Theorem draft_player_atomic (g : Greedy.GreedyDraftAlgorithm)
        (r : Regret.RegretDraftAlgorithm) (t : Team) (picks_until_next : Z) :
  match Greedy.draft_player g t with
  | (None, g') =>
      g' = g /\ (get_needs t = [] \/
                 Forall (fun p => name p ∈ Greedy.drafted_players g) (Greedy.available_players g))
  | (Some p, g') =>
      Greedy.drafted_players g' = {[ name p ]} ∪ Greedy.drafted_players g
      /\ (name p ∉ Greedy.drafted_players g)
      /\ Greedy.available_players g' = Greedy.available_players g
  end
  /\
  match Regret.draft_player r t picks_until_next with
  | (None, r') =>
      r' = r /\ (get_needs t = [] \/ Regret.get_available_players r = [])
  | (Some p, r') =>
      Regret.drafted_players r' = {[ name p ]} ∪ Regret.drafted_players r
      /\ (name p ∉ Regret.drafted_players r)
      /\ Regret.all_players r' = Regret.all_players r
  end.
Proof.
  split.
  - destruct (Greedy.draft_player g t) as [[p|] g'] eqn:E.
    + apply greedy_draft_player_Some in E as (_ & Hn & -> & _). auto.
    + by apply greedy_draft_player_None in E.
  - destruct (Regret.draft_player r t picks_until_next) as [[p|] r'] eqn:E.
    + apply regret_draft_player_Some in E as (_ & Hn & -> & _). auto.
    + by apply regret_draft_player_None in E.
Qed.


(** * The Regret pick *)

Lemma scored_snd r t k l : List.map snd (Regret.scored r t k l) = l.
Proof. unfold Regret.scored. rewrite map_map. simpl. apply map_id. Qed.

Lemma filter_filter_and {A : Type} (f g : A -> bool) (l : list A) :
  List.filter f (List.filter g l) = List.filter (fun x => g x && f x) l.
Proof.
  induction l as [|x l IH]; simpl; [done |].
  destruct (g x); simpl; [| done]. destruct (f x); by rewrite IH.
Qed.

Lemma candidates_pool_order r t k :
  exists keep, List.map snd (Regret.candidates r t k) = List.filter keep (Regret.all_players r).
Proof.
  unfold Regret.candidates.
  destruct (Regret.scored r t k (List.filter _ _)) as [|c cs] eqn:E.
  - eexists. rewrite scored_snd. reflexivity.
  - rewrite <- E. eexists. rewrite scored_snd.
    unfold Regret.get_available_players. apply filter_filter_and.
Qed.

Lemma regret_draft_player_total r t k :
  get_needs t <> [] -> Regret.get_available_players r <> [] ->
  exists p, Regret.draft_player r t k = (Some p, Regret.mark r p).
Proof.
  intros Hn Ha. unfold Regret.draft_player.
  destruct (get_needs t) as [|n ns]; [done |].
  destruct (Regret.get_available_players r) as [|a av] eqn:Ea; [done |].
  destruct (Regret.sort_candidates _) as [|[s q] cs] eqn:Es; [| eauto].
  apply py_sort_nil_inv, candidates_nil in Es. congruence.
Qed.

(** * The order of binary64 scores *)











(** * The stable sort on keys that are ordered only among themselves *)

Section PySortOn.
Context {A : Type} (before : A -> A -> bool) (ok : A -> Prop).
Hypothesis before_trans :
  forall a b c, ok a -> ok b -> ok c ->
                before a b = true -> before b c = true -> before a c = true.
Hypothesis before_total :
  forall a b, ok a -> ok b -> before a b = false -> before b a = true.

End PySortOn.

(** * The Regret pick, on binary64 scores *)










Section Rounding.
Import PrimFloat.

(** Rounding decides between scores that are equal as real numbers.  In
    [near_tie_pool] the best quarterback and the best running back both
    score 609/1045; in binary64 the running back's score is one unit in the
    last place larger, so the program returns "rB", whereas the exact
    reading of the formula returns the earlier "qB". *)
Lemma rounding_breaks_exact_tie :
  List.map (fun c => (Qred (fst c), name (snd c)))
           (Regret.candidates (Regret.init near_tie_pool) (new_Team 1) 11)
  = [ (1047 # 2090, "qA"); (609 # 1045, "qB"); (1047 # 2090, "rA"); (609 # 1045, "rB") ]%Q
  /\ List.map (fun c => (fst c, name (snd c)))
              (Regret64.candidates (Regret.init near_tie_pool) (new_Team 1) 11)
     = [ (0x1.007d6d811a366p-1%float, "qA"); (0x1.2a61801f5b604p-1%float, "qB");
         (0x1.007d6d811a367p-1%float, "rA"); (0x1.2a61801f5b605p-1%float, "rB") ]
  /\ option_map name (fst (Regret.draft_player (Regret.init near_tie_pool) (new_Team 1) 11))
     = Some "qB"
  /\ option_map name (fst (Regret64.draft_player (Regret.init near_tie_pool) (new_Team 1) 11))
     = Some "rB".
Proof. repeat split; vm_compute; reflexivity. Qed.

End Rounding.

(** * Scarcity, dropoff, urgency and the regret score *)

Lemma py_max_Qmax a b : (py_max a b == Qmax a b)%Q.
Proof.
  unfold py_max. destruct (Qle_bool b a) eqn:E.
  - apply Qle_bool_iff in E. symmetry. by apply Q.max_l.
  - apply Qle_bool_false in E. symmetry. apply Q.max_r. by apply Qlt_le_weak.
Qed.

Lemma py_min_Qmin a b : (py_min a b == Qmin a b)%Q.
Proof.
  unfold py_min. destruct (Qle_bool a b) eqn:E.
  - apply Qle_bool_iff in E. symmetry. by apply Q.min_l.
  - apply Qle_bool_false in E. symmetry. apply Q.min_r. by apply Qlt_le_weak.
Qed.

Lemma py_max_ge_l a b : (a <= py_max a b)%Q.
Proof. rewrite py_max_Qmax. apply Q.le_max_l. Qed.

Lemma py_max_lub a b c : (a <= c -> b <= c -> py_max a b <= c)%Q.
Proof. intros. rewrite py_max_Qmax. by apply Q.max_lub. Qed.

Lemma py_min_le_l a b : (py_min a b <= a)%Q.
Proof. rewrite py_min_Qmin. apply Q.le_min_l. Qed.

Lemma py_min_glb a b c : (c <= a -> c <= b -> c <= py_min a b)%Q.
Proof. intros. rewrite py_min_Qmin. by apply Q.min_glb. Qed.

Lemma available_at_position_In r pos p :
  In p (Regret.available_at_position r pos) <->
  In p (Regret.all_players r) /\ position p = pos /\ (name p ∉ Regret.drafted_players r).
Proof.
  unfold Regret.available_at_position. rewrite filter_In, andb_true_iff, String.eqb_eq.
  unfold is_drafted. case_bool_decide; simpl; intuition congruence.
Qed.

(** The percentile lies below one of the values. *)
Lemma np_percentile_le_some (values : list Z) :
  values <> [] -> exists v, In v values /\ (np_percentile values 75 <= inject_Z v)%Q.
Proof.
  intros Hne. unfold np_percentile.
  set (a := py_sort Z.leb values).
  assert (Hlen : length a = length values) by apply py_sort_length.
  assert (Hpos : (0 < length values)%nat) by (destruct values; [done | simpl; lia]).
  set (n := Z.of_nat (length a)).
  set (num := (n - 1) * 75).
  set (lo := num / 100).
  set (hi := Z.min (lo + 1) (n - 1)).
  assert (Hn : 1 <= n) by (unfold n; lia).
  assert (Hlo : 0 <= lo <= n - 1).
  { unfold lo, num. split; [apply Z.div_pos; lia |].
    apply Z.div_le_upper_bound; lia. }
  assert (Hhi : 0 <= hi <= n - 1) by (unfold hi; lia).
  assert (Hin : forall i, 0 <= i <= n - 1 -> In (nth (Z.to_nat i) a 0) values).
  { intros i Hi. apply (py_sort_In Z.leb). apply nth_In. fold a. unfold n in Hi. lia. }
  set (frac := (num mod 100) # 100).
  assert (Hfrac : (0 <= frac /\ frac <= 1)%Q).
  { pose proof (Z.mod_pos_bound num 100 eq_refl) as Hm.
    unfold frac, Qle. cbn [Qnum Qden]. lia. }
  set (alo := nth (Z.to_nat lo) a 0). set (ahi := nth (Z.to_nat hi) a 0).
  destruct (Z.le_gt_cases alo ahi) as [Hle|Hgt].
  - exists ahi. split; [by apply Hin |].
    assert (H0 : (inject_Z 0 <= inject_Z (ahi - alo))%Q) by (rewrite <- Zle_Qle; lia).
    change (inject_Z 0) with 0%Q in H0.
    unfold Z.sub in *. rewrite inject_Z_plus, inject_Z_opp in *. nra.
  - exists alo. split; [by apply Hin |].
    assert (H0 : (inject_Z (ahi - alo) <= inject_Z 0)%Q) by (rewrite <- Zle_Qle; lia).
    change (inject_Z 0) with 0%Q in H0.
    unfold Z.sub in *. rewrite inject_Z_plus, inject_Z_opp in *. nra.
Qed.

Lemma quality_players_pos (values : list Z) :
  values <> [] -> (1 <= Regret.quality_players values (np_percentile values 75))%nat.
Proof.
  intros Hne. destruct (np_percentile_le_some values Hne) as (v & Hv & Hle).
  unfold Regret.quality_players.
  assert (Hin : In v (List.filter (fun v => Qle_bool (np_percentile values 75) (inject_Z v)) values)).
  { apply filter_In. split; [done |]. by apply Qle_bool_iff. }
  destruct (List.filter _ _); [done | simpl; lia].
Qed.

Lemma inv_quality_bounds (q : nat) :
  (1 <= q)%nat -> (0 < 1 / inject_Z (Z.of_nat q) /\ 1 / inject_Z (Z.of_nat q) <= 1)%Q.
Proof.
  intros Hq.
  assert (H1 : (1 <= inject_Z (Z.of_nat q))%Q) by (rewrite <- (Zle_Qle 1); lia).
  split.
  - apply Qlt_shift_div_l; lra.
  - apply Qle_shift_div_r; lra.
Qed.

Lemma scarcity_few (r : Regret.RegretDraftAlgorithm) (pos : string) :
  (Regret.available_at_position r pos = [] ->
   Regret.calculate_positional_scarcity r pos = 0%Q)
  /\ (length (Regret.available_at_position r pos) = 1%nat ->
      Regret.calculate_positional_scarcity r pos = 1%Q).
Proof.
  unfold Regret.calculate_positional_scarcity.
  destruct (Regret.available_at_position r pos) as [|p1 [|p2 rest]]; by split.
Qed.

Lemma scarcity_many (r : Regret.RegretDraftAlgorithm) (pos : string) :
  let values := List.map auction_value (Regret.available_at_position r pos) in
  let quality := Regret.quality_players values (np_percentile values 75) in
  (2 <= length (Regret.available_at_position r pos))%nat ->
  (1 <= quality)%nat
  /\ (Regret.calculate_positional_scarcity r pos
      == Qmin 1 (Qmax (1 # 10) (1 / inject_Z (Z.of_nat quality))))%Q.
Proof.
  intros values quality Hlen. subst quality values.
  unfold Regret.calculate_positional_scarcity.
  set (available := Regret.available_at_position r pos) in *.
  destruct available as [|p1 [|p2 rest]] eqn:Ea; simpl in Hlen; try lia.
  rewrite <- Ea.
  assert (Hv : List.map auction_value available <> []) by (rewrite Ea; done).
  pose proof (quality_players_pos _ Hv) as Hq.
  split; [done |].
  rewrite length_map. rewrite Ea at 1. simpl.
  rewrite Z.max_r by lia.
  rewrite py_min_Qmin, py_max_Qmax. reflexivity.
Qed.

Lemma scarcity_range (r : Regret.RegretDraftAlgorithm) (pos : string) :
  (Regret.calculate_positional_scarcity r pos == 0)%Q
  \/ ((1 # 10) <= Regret.calculate_positional_scarcity r pos
      /\ Regret.calculate_positional_scarcity r pos <= 1)%Q.
Proof.
  destruct (Nat.le_gt_cases 2 (length (Regret.available_at_position r pos))) as [Hl|Hl].
  - right. destruct (scarcity_many r pos Hl) as [Hq ->].
    destruct (inv_quality_bounds _ Hq) as [Hlo Hhi].
    split.
    + apply Q.min_glb; [lra | apply Q.le_max_l].
    + apply Q.le_min_l.
  - destruct (scarcity_few r pos) as [H0 H1].
    destruct (Regret.available_at_position r pos) as [|p1 [|p2 rest]]; simpl in Hl; try lia.
    + left. by rewrite H0.
    + right. rewrite H1 by done. split; [unfold Qle; simpl; lia | apply Qle_refl].
Qed.

Lemma ascending_sorted (l : list Z) : StronglySorted Z.le (py_sort Z.leb l).
Proof.
  assert (Hs : StronglySorted (fun a b => (a <=? b) = true) (py_sort Z.leb l)).
  { apply py_sort_sorted.
    - intros a b c Hab Hbc. apply Z.leb_le in Hab, Hbc. apply Z.leb_le. lia.
    - intros a b Hab. apply Z.leb_gt in Hab. apply Z.leb_le. lia. }
  induction Hs as [|a s Hs IH Ha]; constructor; [done |].
  eapply Forall_impl; [exact Ha |]. intros b Hb. by apply Z.leb_le.
Qed.

(** C6: [calculate_positional_scarcity] is 0 when no undrafted player is
    left at the position and 1 when exactly one is left.  With two or more,
    let [ascending] be their auction values in ascending order and
    [threshold] the 75th percentile of these values (numpy's linear
    interpolation: at index [0.75 * (n - 1)] of the ascending values,
    between the two neighbours of that index), and let [quality] be the
    number of these players whose auction value is at least [threshold];
    then [quality >= 1] and the result is [clamp(1/quality, 0.1, 1)].  The
    result is 0 or lies in [0.1, 1]. *)
Theorem positional_scarcity_spec (r : Regret.RegretDraftAlgorithm) (pos : string) :
  let available := Regret.available_at_position r pos in
  let values := List.map auction_value available in
  let s := Regret.calculate_positional_scarcity r pos in
  (forall p, In p available <->
             In p (Regret.all_players r) /\ position p = pos
             /\ (name p ∉ Regret.drafted_players r))
  /\ (available = [] -> s = 0%Q)
  /\ (length available = 1%nat -> s = 1%Q)
  /\ ((2 <= length available)%nat ->
      exists (ascending : list Z) (threshold : Q) (quality : nat),
        Permutation ascending values
        /\ StronglySorted Z.le ascending
        /\ (let n := Z.of_nat (length ascending) in
            let rank := (n - 1) * 75 in
            let lo := rank / 100 in
            let hi := Z.min (lo + 1) (n - 1) in
            let at_lo := nth (Z.to_nat lo) ascending 0 in
            let at_hi := nth (Z.to_nat hi) ascending 0 in
            threshold
            = (inject_Z at_lo + ((rank mod 100) # 100) * inject_Z (at_hi - at_lo))%Q)
        /\ quality
           = length (List.filter (fun p => Qle_bool threshold (inject_Z (auction_value p)))
                                 available)
        /\ (1 <= quality)%nat
        /\ (s == Qmin 1 (Qmax (1 # 10) (1 / inject_Z (Z.of_nat quality))))%Q)
  /\ ((s == 0)%Q \/ ((1 # 10) <= s /\ s <= 1)%Q).
Proof.
  intros available values s.
  split; [| split; [| split; [| split]]].
  - intros p. apply available_at_position_In.
  - apply scarcity_few.
  - apply scarcity_few.
  - intros Hlen. destruct (scarcity_many r pos Hlen) as [Hq Hs].
    exists (py_sort Z.leb values), (np_percentile values 75),
           (Regret.quality_players values (np_percentile values 75)).
    split; [apply py_sort_perm |]. split; [apply ascending_sorted |].
    split; [reflexivity |].
    split; [| split; [exact Hq | exact Hs]].
    unfold Regret.quality_players, values.
    generalize (np_percentile (List.map auction_value available) 75). intros th.
    clear. induction available as [|p l IH]; [done |].
    cbn [List.map List.filter]. destruct (Qle_bool th (inject_Z (auction_value p))); simpl;
      by rewrite IH.
  - apply scarcity_range.
Qed.


Lemma dropoff_range (r : Regret.RegretDraftAlgorithm) (pos : string) :
  (0 <= Regret.calculate_value_dropoff r pos /\ Regret.calculate_value_dropoff r pos <= 1)%Q.
Proof.
  unfold Regret.calculate_value_dropoff.
  destruct (_ <? _)%nat; [lra |].
  destruct (py_sort _ _) as [|best [|second rest]]; try lra.
  destruct (Z.leb_spec (auction_value best) 0) as [Hb|Hb]; [lra |].
  split.
  - apply py_min_glb; [lra |].
    apply Qle_shift_div_l.
    + change 0%Q with (inject_Z 0). rewrite <- Zlt_Qlt. lia.
    + rewrite Qmult_0_l. change 0%Q with (inject_Z 0). rewrite <- Zle_Qle. lia.
  - apply py_min_le_l.
Qed.

Lemma urgency_range (picks_until_next : Z) :
  ((1 # 19) <= Regret.calculate_pick_urgency picks_until_next
   /\ Regret.calculate_pick_urgency picks_until_next <= 1)%Q.
Proof.
  unfold Regret.calculate_pick_urgency.
  set (n := Z.min 19 (Z.max 1 picks_until_next)).
  assert (Hn : 1 <= n <= 19) by (unfold n; lia).
  assert (H1 : (inject_Z 1 <= inject_Z n)%Q) by (rewrite <- Zle_Qle; lia).
  assert (H2 : (inject_Z n <= inject_Z 19)%Q) by (rewrite <- Zle_Qle; lia).
  change (inject_Z 1) with 1%Q in H1. change (inject_Z 19) with 19%Q in H2.
  split.
  - apply Qle_shift_div_l; [reflexivity | lra].
  - apply Qle_shift_div_r; [reflexivity | lra].
Qed.

Lemma fold_max_ge (vs : list Z) (v0 : Z) :
  v0 <= fold_left Z.max vs v0 /\ forall v, In v vs -> v <= fold_left Z.max vs v0.
Proof.
  revert v0. induction vs as [|x vs IH]; intros v0; simpl.
  - split; [lia | done].
  - destruct (IH (Z.max v0 x)) as [H1 H2]. split; [lia |].
    intros v [<- | Hv]; [lia | by apply H2].
Qed.

Lemma max_default_ge (vs : list Z) (v : Z) : In v vs -> v <= Regret.max_default vs.
Proof.
  destruct vs as [|x vs]; [done |]. simpl.
  destruct (fold_max_ge vs x) as [H1 H2]. intros [<- | Hv]; [done | by apply H2].
Qed.

Lemma value_score_le_1 (r : Regret.RegretDraftAlgorithm) (player : Player) :
  Regret.max_auction r = Regret.max_default (List.map auction_value (Regret.all_players r)) ->
  In player (Regret.all_players r) ->
  (Regret.value_score r player <= 1)%Q.
Proof.
  intros Hmax Hin. unfold Regret.value_score.
  destruct (Z.ltb_spec 0 (Regret.max_auction r)) as [Hpos|Hneg]; [| lra].
  assert (Hle : auction_value player <= Regret.max_auction r).
  { rewrite Hmax. apply max_default_ge. by apply in_map. }
  apply Qle_shift_div_r.
  - change 0%Q with (inject_Z 0). by rewrite <- Zlt_Qlt.
  - rewrite Qmult_1_l. by rewrite <- Zle_Qle.
Qed.

Lemma team_bye_weeks_roster (t : Team) :
  Regret.team_bye_weeks t = List.map bye_week (roster_players (roster t)).
Proof.
  unfold Regret.team_bye_weeks, roster_players.
  induction (roster t) as [|[k ps] r IH]; simpl; [done |].
  by rewrite map_app, IH.
Qed.

Lemma bye_penalty_cases (player : Player) (t : Team) :
  ((exists q, In q (roster_players (roster t)) /\ bye_week q = bye_week player)
   /\ Regret.bye_penalty player t = (5 # 100))
  \/ (~ (exists q, In q (roster_players (roster t)) /\ bye_week q = bye_week player)
      /\ Regret.bye_penalty player t = 0%Q).
Proof.
  unfold Regret.bye_penalty. rewrite team_bye_weeks_roster.
  destruct (existsb _ _) eqn:E.
  - left. split; [| done]. apply existsb_exists in E as (w & Hw & Heq).
    apply in_map_iff in Hw as (q & <- & Hq). apply Z.eqb_eq in Heq. eauto.
  - right. split; [| done]. intros (q & Hq & Heq).
    assert (existsb (Z.eqb (bye_week player)) (List.map bye_week (roster_players (roster t))) = true).
    { apply existsb_exists. exists (bye_week q). split; [by apply in_map |].
      apply Z.eqb_eq. done. }
    congruence.
Qed.

(** C4 (as amended): [calculate_regret_score] is
    [max(0, 0.3*value + 0.4*scarcity*dropoff + 0.3*urgency - bye_penalty)],
    where [value] is [auction_value / max_auction] when [max_auction] is
    positive and 0 otherwise, and [bye_penalty] is 0.05 exactly when some
    player on the team's roster has the candidate's bye week, else 0.  For a
    player of the pool the result lies between 0 and 1. *)
Theorem regret_score_spec (r : Regret.RegretDraftAlgorithm) (player : Player)
        (t : Team) (picks_until_next : Z) :
  Regret.max_auction r = Regret.max_default (List.map auction_value (Regret.all_players r)) ->
  In player (Regret.all_players r) ->
  let value :=
    if 0 <? Regret.max_auction r
    then (inject_Z (auction_value player) / inject_Z (Regret.max_auction r))%Q
    else 0%Q in
  let shares_bye :=
    exists q, In q (roster_players (roster t)) /\ bye_week q = bye_week player in
  let score := Regret.calculate_regret_score r player t picks_until_next in
  exists penalty : Q,
    ((shares_bye /\ penalty = (5 # 100)) \/ (~ shares_bye /\ penalty = 0%Q))
    /\ (score == Qmax 0 ((3 # 10) * value
                         + (4 # 10) * Regret.calculate_positional_scarcity r (position player)
                                    * Regret.calculate_value_dropoff r (position player)
                         + (3 # 10) * Regret.calculate_pick_urgency picks_until_next
                         - penalty))%Q
    /\ (0 <= score /\ score <= 1)%Q.
Proof.
  intros Hmax Hin value shares_bye score.
  exists (Regret.bye_penalty player t).
  split; [apply bye_penalty_cases |].
  assert (Hscore : (score == Qmax 0 ((3 # 10) * value
                         + (4 # 10) * Regret.calculate_positional_scarcity r (position player)
                                    * Regret.calculate_value_dropoff r (position player)
                         + (3 # 10) * Regret.calculate_pick_urgency picks_until_next
                         - Regret.bye_penalty player t))%Q).
  { subst score. unfold Regret.calculate_regret_score. rewrite py_max_Qmax.
    apply Q.max_compat; [reflexivity |].
    fold (Regret.value_score r player) in value. subst value. ring. }
  split; [exact Hscore |].
  split.
  - subst score. unfold Regret.calculate_regret_score. apply py_max_ge_l.
  - rewrite Hscore. apply Q.max_lub; [lra |].
    pose proof (value_score_le_1 r player Hmax Hin) as Hv.
    fold (Regret.value_score r player) in value. fold value in Hv.
    pose proof (dropoff_range r (position player)) as [Hd0 Hd1].
    pose proof (urgency_range picks_until_next) as [Hu0 Hu1].
    assert (Hp : (0 <= Regret.bye_penalty player t)%Q).
    { unfold Regret.bye_penalty. destruct (existsb _ _); [unfold Qle; simpl; lia | lra]. }
    assert (Hsd : (Regret.calculate_positional_scarcity r (position player)
                   * Regret.calculate_value_dropoff r (position player) <= 1)%Q).
    { destruct (scarcity_range r (position player)) as [-> | [Hs0 Hs1]]; [lra | nra]. }
    lra.
Qed.

Lemma regret_score_spec_witness :
  let r := Regret.init regret_test_pool in
  let player := copy_player (mkPlayer "Elite QB" "QB" "T1" 1 50 350 0) in
  let t := new_Team 1 in
  exists penalty : Q,
    (((exists q, In q (roster_players (roster t)) /\ bye_week q = bye_week player)
      /\ penalty = (5 # 100))
     \/ (~ (exists q, In q (roster_players (roster t)) /\ bye_week q = bye_week player)
         /\ penalty = 0%Q))
    /\ (Regret.calculate_regret_score r player t 11
        == Qmax 0 ((3 # 10) * (if 0 <? Regret.max_auction r
                               then inject_Z (auction_value player) / inject_Z (Regret.max_auction r)
                               else 0)
                   + (4 # 10) * Regret.calculate_positional_scarcity r (position player)
                              * Regret.calculate_value_dropoff r (position player)
                   + (3 # 10) * Regret.calculate_pick_urgency 11
                   - penalty))%Q
    /\ (0 <= Regret.calculate_regret_score r player t 11
        /\ Regret.calculate_regret_score r player t 11 <= 1)%Q.
Proof.
  apply (regret_score_spec (Regret.init regret_test_pool)
           (copy_player (mkPlayer "Elite QB" "QB" "T1" 1 50 350 0)) (new_Team 1) 11).
  - reflexivity.
  - simpl. auto.
Defined.

(** C4 (as stated) fails where the code's guard on [max_auction] applies:
    in a pool whose auction values are all negative the code takes the
    value term as 0, while [0.3 * (auction_value / max_auction)] is 0.3. *)
Lemma regret_score_guarded_value :
  let r := Regret.init negative_pool in
  let player := copy_player (mkPlayer "Undervalued" "QB" "T1" 1 (-2) 100 7) in
  let t := new_Team 1 in
  In player (Regret.all_players r)
  /\ Regret.max_auction r = -2
  /\ (Regret.calculate_regret_score r player t 11 == 33 # 190)%Q
  /\ (Qmax 0 ((3 # 10) * (inject_Z (auction_value player) / inject_Z (Regret.max_auction r))
              + (4 # 10) * Regret.calculate_positional_scarcity r (position player)
                         * Regret.calculate_value_dropoff r (position player)
              + (3 # 10) * Regret.calculate_pick_urgency 11
              - Regret.bye_penalty player t) == 90 # 190)%Q
  /\ ~ (Regret.calculate_regret_score r player t 11
        == Qmax 0 ((3 # 10) * (inject_Z (auction_value player) / inject_Z (Regret.max_auction r))
                   + (4 # 10) * Regret.calculate_positional_scarcity r (position player)
                              * Regret.calculate_value_dropoff r (position player)
                   + (3 # 10) * Regret.calculate_pick_urgency 11
                   - Regret.bye_penalty player t))%Q.
Proof.
  cbv zeta. split; [simpl; auto |]. split; [reflexivity |].
  split; [by vm_compute |]. split; [by vm_compute |].
  vm_compute. discriminate.
Qed.


(** * The Greedy pick *)

Lemma scan_needs_find needs drafted l :
  Greedy.scan_needs needs drafted l
  = List.find (fun p => negb (is_drafted drafted p) && fills_need needs p) l.
Proof.
  induction l as [|q l IH]; simpl; [done |].
  unfold fills_need at 1. destruct (is_drafted drafted q); simpl; [done |].
  destruct (str_in (position q) needs); simpl; [done |].
  by destruct (str_in "FLEX" needs && flex_eligible (position q)).
Qed.

Lemma scan_any_find drafted l :
  Greedy.scan_any drafted l = List.find (fun p => negb (is_drafted drafted p)) l.
Proof.
  induction l as [|q l IH]; simpl; [done |]. by destruct (is_drafted drafted q).
Qed.

Lemma greedy_draft_player_find g t :
  get_needs t <> [] ->
  fst (Greedy.draft_player g t) =
  match List.find (fun p => negb (is_drafted (Greedy.drafted_players g) p)
                            && fills_need (get_needs t) p)
                  (Greedy.available_players g) with
  | Some p => Some p
  | None => List.find (fun p => negb (is_drafted (Greedy.drafted_players g) p))
                      (Greedy.available_players g)
  end.
Proof.
  intros Hn. unfold Greedy.draft_player.
  rewrite <- scan_needs_find, <- scan_any_find.
  destruct (get_needs t) as [|n ns]; [done |].
  destruct (Greedy.scan_needs _ _ _); [done |].
  by destruct (Greedy.scan_any _ _).
Qed.

Lemma StronglySorted_weaken {A : Type} (R S : A -> A -> Prop) (l : list A) :
  (forall a b, R a b -> S a b) -> StronglySorted R l -> StronglySorted S l.
Proof.
  intros HRS. induction 1 as [|x l Hs IH Hx]; constructor; [exact IH |].
  eapply Forall_impl; [exact Hx |]. simpl. auto.
Qed.

Lemma greedy_init_sorted (pool : list Player) :
  StronglySorted (fun a b => adp_rank a <= adp_rank b)
                 (Greedy.available_players (Greedy.init pool)).
Proof.
  simpl. eapply StronglySorted_weaken; [| apply py_sort_sorted].
  - intros a b H. by apply Z.leb_le.
  - intros a b c Hab Hbc. apply Z.leb_le in Hab, Hbc. apply Z.leb_le. lia.
  - intros a b H. apply Z.leb_gt in H. apply Z.leb_le. lia.
Qed.

Lemma greedy_init_perm (pool : list Player) :
  Permutation (Greedy.available_players (Greedy.init pool)) (List.map copy_player pool).
Proof. simpl. apply py_sort_perm. Qed.

Lemma copy_player_adp_ranks (pool : list Player) :
  List.map adp_rank (List.map copy_player pool) = List.map adp_rank pool.
Proof. rewrite map_map. done. Qed.

(** With ranks 1..5 the sorted list starts with a copy of a rank-1 player. *)
Lemma greedy_init_head (pool : list Player) :
  Permutation (List.map adp_rank pool) [1; 2; 3; 4; 5] ->
  exists p0 h rest,
    In p0 pool /\ adp_rank p0 = 1 /\ h = copy_player p0
    /\ Greedy.available_players (Greedy.init pool) = h :: rest.
Proof.
  intros Hranks.
  pose proof (greedy_init_sorted pool) as Hsorted.
  pose proof (greedy_init_perm pool) as Hperm.
  assert (Hr : Permutation (List.map adp_rank (Greedy.available_players (Greedy.init pool)))
                           [1; 2; 3; 4; 5]).
  { rewrite <- Hranks, <- (copy_player_adp_ranks pool). apply Permutation_map. exact Hperm. }
  destruct (Greedy.available_players (Greedy.init pool)) as [|h rest] eqn:E.
  { apply Permutation_length in Hr. simpl in Hr. lia. }
  assert (Hh : In h (List.map copy_player pool)).
  { eapply Permutation_in; [exact Hperm | by left]. }
  apply in_map_iff in Hh as (p0 & <- & Hin).
  exists p0, (copy_player p0), rest. repeat split; try done.
  assert (Hge : 1 <= adp_rank p0).
  { assert (H1 : In (adp_rank (copy_player p0)) [1; 2; 3; 4; 5]).
    { eapply Permutation_in; [exact Hr | by left]. }
    simpl in H1. lia. }
  assert (H1 : In 1 (List.map adp_rank (copy_player p0 :: rest))).
  { eapply Permutation_in; [symmetry; exact Hr | by left]. }
  simpl in H1. destruct H1 as [H1 | H1]; [lia |].
  apply in_map_iff in H1 as (q & Hq & Hqin).
  inversion Hsorted as [|? ? _ Hall]; subst.
  rewrite List.Forall_forall in Hall. specialize (Hall q Hqin). simpl in Hall. lia.
Qed.

Lemma fills_need_slot (p : Player) :
  is_slot (position p) = true -> fills_need slot_names p = true.
Proof. unfold fills_need, is_slot. by intros ->. Qed.

(** C7 (as amended): Greedy [draft_player] returns no pick for a team
    without needs.  For a team that still has a need it returns the first
    undrafted player of the ADP-ascending list whose position is a direct
    need, or is RB/WR/TE while FLEX is a need, and when there is none, the
    lowest-ADP undrafted player (no pick when every player is drafted).
    For a pool whose ADP ranks are 1..5 and whose rank-1 player has a
    position the roster has a slot for, the first pick for a team with
    every slot open has ADP rank 1. *)
Theorem greedy_pick_spec (pool : list Player) (drafted : gset string) (t : Team) :
  let g := Greedy.mk (Greedy.available_players (Greedy.init pool)) drafted in
  StronglySorted (fun a b => adp_rank a <= adp_rank b) (Greedy.available_players g)
  /\ Permutation (Greedy.available_players g) (List.map copy_player pool)
  /\ (get_needs t = [] -> Greedy.draft_player g t = (None, g))
  /\ (get_needs t <> [] ->
      fst (Greedy.draft_player g t) =
      match List.find (fun p => negb (is_drafted drafted p) && fills_need (get_needs t) p)
                      (Greedy.available_players g) with
      | Some p => Some p
      | None => List.find (fun p => negb (is_drafted drafted p)) (Greedy.available_players g)
      end)
  /\ (Permutation (List.map adp_rank pool) [1; 2; 3; 4; 5] ->
      (forall p, In p pool -> adp_rank p = 1 -> is_slot (position p) = true) ->
      get_needs t = slot_names ->
      drafted = ∅ ->
      exists p, fst (Greedy.draft_player g t) = Some p /\ adp_rank p = 1).
Proof.
  intros g.
  split; [apply greedy_init_sorted |].
  split; [apply greedy_init_perm |].
  split; [intros Hnil; unfold Greedy.draft_player; by rewrite Hnil |].
  split; [intros Hn; by apply greedy_draft_player_find |].
  intros Hranks Hslot Hneeds ->.
  assert (Hn : get_needs t <> []) by (by rewrite Hneeds).
  rewrite (greedy_draft_player_find g t Hn).
  destruct (greedy_init_head pool Hranks) as (p0 & h & rest & Hin & Hrank & -> & E).
  subst g. cbv beta iota delta [Greedy.available_players Greedy.drafted_players].
  fold (Greedy.available_players (Greedy.init pool)).
  rewrite E. cbn [List.find].
  assert (Hfit : fills_need (get_needs t) (copy_player p0) = true).
  { rewrite Hneeds. apply fills_need_slot. simpl. by apply Hslot. }
  rewrite Hfit. unfold is_drafted. rewrite bool_decide_eq_false_2 by set_solver.
  simpl. eauto.
Qed.

Lemma greedy_pick_spec_witness :
  Permutation (Greedy.available_players (Greedy.init greedy_test_pool))
              (List.map copy_player greedy_test_pool)
  /\ Greedy.draft_player (Greedy.init greedy_test_pool) complete_team
     = (None, Greedy.init greedy_test_pool)
  /\ exists p, fst (Greedy.draft_player (Greedy.init greedy_test_pool) (new_Team 1)) = Some p
               /\ adp_rank p = 1.
Proof.
  destruct (greedy_pick_spec greedy_test_pool ∅ (new_Team 1)) as (_ & Hperm & _ & _ & Hfirst).
  destruct (greedy_pick_spec greedy_test_pool ∅ complete_team) as (_ & _ & Hnone & _).
  split; [exact Hperm |]. split; [apply Hnone; reflexivity |]. apply Hfirst.
  - reflexivity.
  - intros p Hp Hrank. simpl in Hp.
    destruct Hp as [<- | [<- | [<- | [<- | [<- | []]]]]]; reflexivity.
  - reflexivity.
  - reflexivity.
Defined.

(** C7 (as stated) fails twice.  With ADP ranks 1..5 and every slot of the
    team open, the first Greedy pick has rank 2 when the rank-1 player is a
    team defense, which fits no slot.  And for a team without needs nobody
    matches, yet the lowest-ADP undrafted player is not returned: the
    method returns no pick. *)
Lemma greedy_skips_unslotted_position :
  List.map adp_rank defense_first_pool = [1; 2; 3; 4; 5]
  /\ get_needs (new_Team 1) = ["QB"; "RB"; "WR"; "TE"; "FLEX"; "K"]
  /\ option_map adp_rank (fst (Greedy.draft_player (Greedy.init defense_first_pool) (new_Team 1)))
     = Some 2
  /\ option_map name (fst (Greedy.draft_player (Greedy.init defense_first_pool) (new_Team 1)))
     = Some "Player2"
  /\ get_needs complete_team = []
  /\ option_map name
       (List.find (fun p => negb (is_drafted ∅ p))
                  (Greedy.available_players (Greedy.init greedy_test_pool)))
     = Some "Player1"
  /\ fst (Greedy.draft_player (Greedy.init greedy_test_pool) complete_team) = None.
Proof. repeat split; by vm_compute. Qed.

(** * The copies made by the constructors *)

Lemma copy_player_fields (p : Player) :
  name (copy_player p) = name p
  /\ position (copy_player p) = position p
  /\ team (copy_player p) = team p
  /\ adp_rank (copy_player p) = adp_rank p
  /\ auction_value (copy_player p) = auction_value p
  /\ actual_points (copy_player p) = actual_points p
  /\ bye_week (copy_player p) = 0.
Proof. by repeat split. Qed.

Lemma fresh_player_id (p : Player) : fresh_player p = p.
Proof. by destruct p. Qed.

Lemma regret_init_all_players (pool : list Player) :
  Regret.all_players (Regret.init pool) = List.map copy_player pool.
Proof. reflexivity. Qed.

(** C5 at a failing input: built from a pool holding one player with bye
    week 10, the Greedy and the Regret instance each hold a copy that agrees
    with the source on the six other fields and has bye week 0, whereas the
    copy made by [simulate_draft] keeps the bye week. *)
Theorem constructor_copy_drops_bye_week :
  bye_week mahomes = 10
  /\ Greedy.available_players (Greedy.init [mahomes])
     = [ mkPlayer "Patrick Mahomes" "QB" "KC" 1 50 300 0 ]
  /\ Regret.all_players (Regret.init [mahomes])
     = [ mkPlayer "Patrick Mahomes" "QB" "KC" 1 50 300 0 ]
  /\ List.map bye_week (Greedy.available_players (Greedy.init [mahomes])) <> [bye_week mahomes]
  /\ List.map bye_week (Regret.all_players (Regret.init [mahomes])) <> [bye_week mahomes]
  /\ List.map fresh_player [mahomes] = [mahomes].
Proof. repeat split; try reflexivity; by vm_compute. Qed.


(** * The copies made by the constructors, as objects *)

Lemma copy_pool_cons (h : Store) (a : nat) (rest : list nat) (p : Player) :
  h !! a = Some p ->
  copy_pool h (a :: rest) =
  match copy_pool (h ++ [copy_player p]) rest with
  | None => None
  | Some (h2, rest') => Some (h2, length h :: rest')
  end.
Proof. intros Hp. cbn [copy_pool]. by rewrite Hp. Qed.

(** The copies are new objects: the store only grows, every copy sits at an
    address that did not exist before the constructor ran, no two copies
    share an address, and each copy is [copy_player] of its source. *)
Lemma copy_pool_fresh (players : list nat) (h : Store) :
  Forall (fun a => (a < length h)%nat) players ->
  exists h' copies,
    copy_pool h players = Some (h', copies)
    /\ (exists added, h' = h ++ added)
    /\ Forall (fun c => (length h <= c < length h')%nat) copies
    /\ NoDup copies
    /\ Forall2 (fun a c => exists p, h' !! a = Some p /\ h' !! c = Some (copy_player p))
               players copies.
Proof.
  revert h. induction players as [|a rest IH]; intros h Hvalid.
  - exists h, []. repeat split; try constructor. exists []. by rewrite app_nil_r.
  - apply Forall_cons in Hvalid as [Ha Hrest].
    destruct (lookup_lt_is_Some_2 h a Ha) as [p Hp].
    rewrite (copy_pool_cons h a rest p Hp).
    destruct (IH (h ++ [copy_player p])) as (h' & copies & Hcopy & [added ->] & Hfresh & Hnd & Hall).
    { eapply Forall_impl; [exact Hrest |]. intros x Hx. simpl in Hx. rewrite length_app. simpl. lia. }
    rewrite Hcopy. exists ((h ++ [copy_player p]) ++ added), (length h :: copies).
    rewrite !length_app in *. simpl in *.
    split; [done |]. split; [exists ([copy_player p] ++ added); by rewrite app_assoc |].
    split.
    { constructor; [lia |]. eapply Forall_impl; [exact Hfresh |]. simpl. intros c Hc. lia. }
    split.
    { apply NoDup_cons. split; [| done]. intros Hin.
      rewrite Forall_forall in Hfresh. specialize (Hfresh _ Hin). lia. }
    constructor; [| exact Hall].
    exists p. rewrite <- app_assoc. split.
    + by rewrite lookup_app_l.
    + rewrite lookup_app_r by lia.
      by replace (length h - length h)%nat with 0%nat by lia.
Qed.

(** Two instances built one after the other from the same pool share no
    player object with each other or with the pool. *)
Lemma constructors_do_not_alias (players : list nat) (h : Store) :
  Forall (fun a => (a < length h)%nat) players ->
  exists h1 copies1 h2 copies2,
    copy_pool h players = Some (h1, copies1)
    /\ copy_pool h1 players = Some (h2, copies2)
    /\ (forall c, c ∈ copies1 -> (c ∉ players) /\ (c ∉ copies2))
    /\ (forall c, c ∈ copies2 -> c ∉ players).
Proof.
  intros Hvalid.
  destruct (copy_pool_fresh players h Hvalid) as (h1 & c1 & H1 & [added ->] & Hf1 & _ & _).
  destruct (copy_pool_fresh players (h ++ added)) as (h2 & c2 & H2 & _ & Hf2 & _ & _).
  { eapply Forall_impl; [exact Hvalid |]. simpl. intros x Hx. rewrite length_app. lia. }
  exists (h ++ added), c1, h2, c2. split; [done |]. split; [done |].
  rewrite Forall_forall in Hvalid, Hf1, Hf2.
  split.
  - intros c Hc. specialize (Hf1 _ Hc). split.
    + intros Hin. specialize (Hvalid _ Hin). lia.
    + intros Hin. specialize (Hf2 _ Hin). lia.
  - intros c Hc. specialize (Hf2 _ Hc). intros Hin. specialize (Hvalid _ Hin).
    rewrite length_app in Hf2. lia.
Qed.

(** * The pick loop: a pick that is already taken *)

Section Conflict.
Context {A : Type} `{Strategy A}.

Lemma execute_conflict (algorithm algorithm' : A) (t : Team) (picks_until_next : Z)
      (globally : gset string) (player : Player) :
  call_draft_player (sync_drafted globally algorithm) t picks_until_next
  = (Returned (Some player), algorithm') ->
  name player ∈ globally ->
  _execute_draft_pick algorithm t picks_until_next globally = (None, algorithm').
Proof.
  intros Hcall Hin. unfold _execute_draft_pick. rewrite Hcall.
  by rewrite bool_decide_eq_true_2.
Qed.

(** C1 (as amended): when the strategy, asked for the pick of [team_id],
    returns a player whose name is already in the global drafted set, the
    engine discards the pick ([_execute_draft_pick] returns [None]) and the
    turn ends there: no team's roster or pick log changes, the global set is
    unchanged, only the asked algorithm keeps the state its single call left,
    and the loop goes on to the next pick (or stops under the 90% rule).
    The pick-slot is not retried. *)
Theorem conflicting_pick_is_skipped (num_players : nat) (draft_order : list Z)
        (pick_num team_id : Z) (st : DraftState A) (i : nat)
        (current_team : Team) (algorithm algorithm' : A) (player : Player) :
  py_pos (teams st) (team_id - 1) = Some i ->
  teams st !! i = Some current_team ->
  team_algorithms st !! team_id = Some algorithm ->
  call_draft_player (sync_drafted (globally_drafted st) algorithm) current_team
                    (_calculate_picks_until_next pick_num team_id draft_order)
  = (Returned (Some player), algorithm') ->
  name player ∈ globally_drafted st ->
  _execute_draft_pick algorithm current_team
                      (_calculate_picks_until_next pick_num team_id draft_order)
                      (globally_drafted st)
  = (None, algorithm')
  /\ exists st',
      (draft_pick num_players draft_order pick_num team_id st = Next st'
       \/ draft_pick num_players draft_order pick_num team_id st = Break st')
      /\ teams st' = teams st
      /\ globally_drafted st' = globally_drafted st
      /\ team_algorithms st' = <[ team_id := algorithm' ]> (team_algorithms st).
Proof.
  intros Hpos Hteam Halg Hcall Hin.
  pose proof (execute_conflict _ _ _ _ _ _ Hcall Hin) as Hexec.
  split; [exact Hexec |].
  unfold draft_pick. rewrite Hpos, Halg, Hteam, Hexec.
  destruct (Qle_bool _ _); eexists; (split; [eauto |]); done.
Qed.

End Conflict.

Lemma conflicting_pick_is_skipped_witness :
  _execute_draft_pick
    (mkUnsynced (Greedy.init greedy_test_pool)) (new_Team 2)
    (_calculate_picks_until_next 1 2 unsynced_order)
    (globally_drafted unsynced_after_first_pick)
  = (None, mkUnsynced (Greedy.mark (Greedy.init greedy_test_pool)
                                   (mkPlayer "Player1" "QB" "T1" 1 50 300 0)))
  /\ exists st',
      (draft_pick 5 unsynced_order 1 2 unsynced_after_first_pick = Next st'
       \/ draft_pick 5 unsynced_order 1 2 unsynced_after_first_pick = Break st')
      /\ teams st' = teams unsynced_after_first_pick
      /\ globally_drafted st' = globally_drafted unsynced_after_first_pick
      /\ team_algorithms st'
         = <[ 2 := mkUnsynced (Greedy.mark (Greedy.init greedy_test_pool)
                                           (mkPlayer "Player1" "QB" "T1" 1 50 300 0)) ]>
             (team_algorithms unsynced_after_first_pick).
Proof.
  apply (conflicting_pick_is_skipped 5 unsynced_order 1 2 unsynced_after_first_pick 1
           (new_Team 2) (mkUnsynced (Greedy.init greedy_test_pool))
           (mkUnsynced (Greedy.mark (Greedy.init greedy_test_pool)
                                    (mkPlayer "Player1" "QB" "T1" 1 50 300 0)))
           (mkPlayer "Player1" "QB" "T1" 1 50 300 0)).
  - reflexivity.
  - reflexivity.
  - by vm_compute.
  - reflexivity.
  - by vm_compute.
Defined.

(** C1 (as stated) fails: the pick is dropped, not retried.  Team 1 has
    taken Player1; team 2's instance, not told, returns Player1 again.  Four
    players are still undrafted, yet the turn leaves team 2 without a player,
    and at the end of the draft teams 2 to 10 have no pick at all. *)
Lemma conflicting_pick_is_dropped :
  globally_drafted unsynced_after_first_pick = {[ "Player1" ]}
  /\ fst (call_draft_player
            (sync_drafted (globally_drafted unsynced_after_first_pick)
                          (mkUnsynced (Greedy.init greedy_test_pool)))
            (new_Team 2) (_calculate_picks_until_next 1 2 unsynced_order))
     = Returned (Some (mkPlayer "Player1" "QB" "T1" 1 50 300 0))
  /\ List.filter (fun p => negb (is_drafted (globally_drafted unsynced_after_first_pick) p))
                 greedy_test_pool
     = skipn 1 greedy_test_pool
  /\ (exists st',
        draft_pick 5 unsynced_order 1 2 unsynced_after_first_pick = Next st'
        /\ List.map (fun t => length (draft_picks t)) (teams st')
           = [1; 0; 0; 0; 0; 0; 0; 0; 0; 0]%nat)
  /\ (exists st_end,
        run_draft (A := Unsynced) greedy_test_pool = Some st_end
        /\ List.map (fun t => List.map name (draft_picks t)) (teams st_end)
           = [["Player1"]; []; []; []; []; []; []; []; []; []]
        /\ globally_drafted st_end = {[ "Player1" ]}).
Proof.
  split; [by vm_compute |]. split; [by vm_compute |]. split; [by vm_compute |].
  split; eexists; (split; [vm_compute; reflexivity |]); try split; by vm_compute.
Qed.


(** * The pick loop: a full draft *)

Lemma roster_append_players_perm pos p r :
  roster_mem pos r = true ->
  Permutation (roster_players (roster_append pos p r)) (p :: roster_players r).
Proof.
  unfold roster_players. induction r as [|[k ps] r IH]; simpl; [done |].
  destruct (String.eqb k pos); simpl.
  - intros _. rewrite <- app_assoc. simpl.
    rewrite <- Permutation_middle. done.
  - intros Hm. rewrite (IH Hm). rewrite Permutation_middle. done.
Qed.

Lemma add_player_stored t p pos :
  keyed t -> is_slot (position p) = true ->
  Permutation (roster_players (roster (add_player t p pos))) (p :: roster_players (roster t)).
Proof.
  intros Hk Hslot. unfold add_player. simpl.
  set (req := match pos with None => position p | Some s => s end).
  assert (Hmem : forall s, roster_mem s (roster t) = is_slot s).
  { intros s. rewrite roster_mem_keys, Hk. done. }
  rewrite !Hmem, Hslot.
  destruct (_ && _).
  - apply roster_append_players_perm. by rewrite Hmem.
  - destruct (is_slot req) eqn:E; apply roster_append_players_perm; by rewrite Hmem.
Qed.

Lemma needs_nil_roster_full t :
  keyed t -> get_needs t = [] -> (8 <= length (roster_players (roster t)))%nat.
Proof.
  unfold keyed, get_needs, roster_players. destruct (roster t) as [|[k1 l1] r]; [done |].
  destruct r as [|[k2 l2] r]; [done |]. destruct r as [|[k3 l3] r]; [done |].
  destruct r as [|[k4 l4] r]; [done |]. destruct r as [|[k5 l5] r]; [done |].
  destruct r as [|[k6 l6] r]; [done |]. destruct r; [| done].
  intros [= -> -> -> -> -> ->]. cbn -[Nat.ltb].
  repeat match goal with
  | |- context [(?a <? ?b)%nat] => destruct (Nat.ltb_spec a b); try done
  end.
  intros _. rewrite !length_app. simpl. lia.
Qed.

Lemma all_picks_insert (ts : list Team) (i : nat) (t t' : Team) (p : Player) :
  ts !! i = Some t ->
  draft_picks t' = draft_picks t ++ [p] ->
  Permutation (all_picks (<[ i := t' ]> ts)) (p :: all_picks ts).
Proof.
  intros Hi Hp. unfold all_picks.
  rewrite <- (take_drop_middle ts i t Hi) at 2.
  rewrite insert_take_drop by (by eapply lookup_lt_Some).
  rewrite !map_app. simpl. rewrite !concat_app. simpl. rewrite Hp.
  rewrite <- !app_assoc. simpl.
  rewrite (Permutation_middle _ _ p). apply Permutation_app_head.
  rewrite <- Permutation_middle. done.
Qed.

Lemma NoDup_map_inj {X Y : Type} (f : X -> Y) (l : list X) (x y : X) :
  NoDup (List.map f l) -> In x l -> In y l -> f x = f y -> x = y.
Proof.
  induction l as [|z l IH]; simpl; [done |].
  rewrite NoDup_cons. intros [Hz Hnd] [-> | Hx] [-> | Hy] Hf; try done.
  - exfalso. apply Hz. rewrite Hf. apply list_elem_of_In. by apply in_map.
  - exfalso. apply Hz. rewrite <- Hf. apply list_elem_of_In. by apply in_map.
  - by apply IH.
Qed.

Lemma py_range_In (lo hi k : Z) : In k (py_range lo hi) <-> lo <= k < hi.
Proof.
  unfold py_range. rewrite in_map_iff. split.
  - intros (j & <- & Hj). apply in_seq in Hj. lia.
  - intros Hk. exists (Z.to_nat (k - lo)). split; [lia |]. apply in_seq. lia.
Qed.

Lemma fold_insert_lookup {V : Type} (c : V) (ids : list Z) (m0 : gmap Z V) (k : Z) :
  fold_left (fun m id => <[ id := c ]> m) ids m0 !! k
  = if decide (k ∈ ids) then Some c else m0 !! k.
Proof.
  revert m0. induction ids as [|id ids IH]; intros m0.
  - cbn [fold_left]. case_decide as Hk; [by apply not_elem_of_nil in Hk | done].
  - cbn [fold_left]. rewrite IH.
    destruct (decide (k ∈ ids)) as [Hin|Hin]; destruct (decide (k ∈ id :: ids)) as [Hin'|Hin'].
    + done.
    + exfalso. apply Hin'. apply elem_of_cons. by right.
    + apply elem_of_cons in Hin' as [->|]; [by rewrite lookup_insert_eq | done].
    + rewrite lookup_insert_ne; [done |]. intros ->. apply Hin'. apply elem_of_cons. by left.
Qed.

Lemma enumerate_snd {X : Type} (xs : list X) : List.map snd (enumerate xs) = xs.
Proof.
  unfold enumerate.
  assert (H : forall (l1 : list Z) (l2 : list X),
             length l1 = length l2 -> List.map snd (combine l1 l2) = l2).
  { induction l1 as [|a l1 IH]; intros [|b l2]; simpl; try done.
    intros [= Hl]. by rewrite IH. }
  apply H. by rewrite length_map, length_seq.
Qed.


(** The order of a full draft: ten teams, eight rounds. *)
Lemma full_order_range :
  Forall (fun id => 1 <= id <= 10) (generate_snake_draft_order 10 8).
Proof.
  apply List.Forall_forall. intros id Hin.
  assert (Hb : forallb (fun id => (1 <=? id) && (id <=? 10))
                       (generate_snake_draft_order 10 8) = true)
    by (vm_compute; reflexivity).
  rewrite forallb_forall in Hb. specialize (Hb id Hin).
  apply andb_true_iff in Hb as [H1 H2]. apply Z.leb_le in H1, H2. lia.
Qed.

Lemma full_order_turns_exact (i : nat) :
  (i < 10)%nat ->
  count_occ Z.eq_dec (generate_snake_draft_order 10 8) (Z.of_nat i + 1) = 8%nat.
Proof.
  intros Hi. do 10 (destruct i as [|i]; [vm_compute; reflexivity |]). lia.
Qed.

Lemma full_order_turns (id : Z) :
  (count_occ Z.eq_dec (generate_snake_draft_order 10 8) id <= 8)%nat.
Proof.
  destruct (decide (1 <= id <= 10)) as [Hin|Hout].
  - replace id with (Z.of_nat (Z.to_nat (id - 1)) + 1) by lia.
    rewrite full_order_turns_exact; lia.
  - rewrite (proj1 (count_occ_not_In Z.eq_dec _ id)); [lia |].
    intros Hin. apply Hout.
    exact (proj1 (List.Forall_forall _ _) full_order_range id Hin).
Qed.

Lemma full_order_length : length (generate_snake_draft_order 10 8) = 80%nat.
Proof. vm_compute. reflexivity. Qed.

Lemma actual_rounds_full : actual_rounds 80 = 8.
Proof. reflexivity. Qed.

Section DraftRun.
Context {A : Type} `{Strategy A}.
Variables (pool_of : A -> list Player) (drafted_of : A -> gset string).
Hypothesis strategy_ok : pool_strategy pool_of drafted_of.
Variable players : list Player.
Hypothesis names_distinct : NoDup (List.map name players).
Hypothesis positions_slotted : Forall (fun p => is_slot (position p) = true) players.

Lemma copy_in_pool_slotted (q : Player) :
  In q (List.map copy_player players) -> is_slot (position q) = true.
Proof.
  intros Hq. apply in_map_iff in Hq as (p & <- & Hp).
  pose proof (proj1 (List.Forall_forall _ _) positions_slotted) as Hs.
  simpl. by apply Hs.
Qed.

Lemma copy_player_names (ps : list Player) :
  List.map name (List.map copy_player ps) = List.map name ps.
Proof. by rewrite map_map. Qed.

(** While fewer picks are logged than there are players, one is undrafted. *)
Lemma undrafted_exists (st : DraftState A) (done : list Z) :
  draft_invariant pool_of drafted_of players st done ->
  (length done < length players)%nat ->
  exists p, In p players /\ (name p ∉ globally_drafted st).
Proof.
  intros Hinv Hlt.
  destruct (List.Forall_Exists_dec (fun p => name p ∈ globally_drafted st)
              (fun p => decide (name p ∈ globally_drafted st)) players) as [Hall|Hex].
  - exfalso.
    assert (Hincl : incl (List.map name players) (List.map name (all_picks (teams st)))).
    { intros n Hn. apply in_map_iff in Hn as (p & <- & Hp).
      apply (inv_global _ _ _ _ _ Hinv).
      rewrite List.Forall_forall in Hall. by apply Hall. }
    apply NoDup_incl_length in Hincl; [| by apply NoDup_ListNoDup].
    rewrite !length_map in Hincl. rewrite (inv_count _ _ _ _ _ Hinv) in Hincl. lia.
  - apply List.Exists_exists in Hex as (p & Hp & Hn). eauto.
Qed.

Lemma execute_pick_succeeds (a : A) (t : Team) (k : Z) (g : gset string) :
  Permutation (pool_of a) (List.map copy_player players) ->
  drafted_of a ⊆ g ->
  get_needs t <> [] ->
  (exists p, In p players /\ (name p ∉ g)) ->
  exists p a',
    _execute_draft_pick a t k g = (Some p, a')
    /\ In p (List.map copy_player players)
    /\ (name p ∉ g)
    /\ pool_of a' = pool_of a
    /\ drafted_of a' = {[ name p ]} ∪ g.
Proof.
  intros Hpool Hsub Hneeds (p0 & Hp0 & Hn0).
  unfold _execute_draft_pick.
  pose proof (ps_draft _ _ strategy_ok (sync_drafted g a) t k) as Hd.
  rewrite (ps_sync_pool _ _ strategy_ok), (ps_sync_drafted _ _ strategy_ok) in Hd.
  destruct (call_draft_player (sync_drafted g a) t k) as [[|[p|]] a']; [done | |].
  - destruct Hd as (Hin & Hnot & Hpool' & Hdr').
    assert (Hng : name p ∉ g) by set_solver.
    rewrite bool_decide_eq_false_2 by done.
    exists p, a'.
    split; [done |]. split; [eapply Permutation_in; [exact Hpool | done] |].
    split; [done |]. split; [done |].
    rewrite Hdr'. set_solver.
  - exfalso. destruct Hd as (_ & _ & [Hnil | Hall]); [done |].
    rewrite List.Forall_forall in Hall.
    assert (Hc : In (copy_player p0) (pool_of a)).
    { eapply Permutation_in; [symmetry; exact Hpool | by apply in_map]. }
    specialize (Hall _ Hc). simpl in Hall. set_solver.
Qed.

Lemma py_pos_team (ts : list Team) (id : Z) :
  length ts = 10%nat -> 1 <= id <= 10 ->
  py_pos ts (id - 1) = Some (Z.to_nat (id - 1)).
Proof.
  intros Hl Hid. unfold py_pos. rewrite Hl.
  destruct (Z.leb_spec 0 (id - 1)); [| lia].
  destruct (Z.ltb_spec (id - 1) (Z.of_nat 10)); [done | lia].
Qed.

Lemma draft_pick_step (num_players : nat) (draft_order : list Z) (pick_num id : Z)
      (st : DraftState A) (done : list Z) :
  draft_invariant pool_of drafted_of players st done ->
  1 <= id <= 10 ->
  (count_occ Z.eq_dec done id < 8)%nat ->
  (length done < length players)%nat ->
  exists st',
    draft_pick num_players draft_order pick_num id st = Next st'
    /\ draft_invariant pool_of drafted_of players st' (done ++ [id]).
Proof.
  intros Hinv Hid Hturns Hlt.
  set (i := Z.to_nat (id - 1)).
  assert (Hi : (i < length (teams st))%nat).
  { rewrite (inv_teams _ _ _ _ _ Hinv). unfold i. lia. }
  destruct (lookup_lt_is_Some_2 _ _ Hi) as [t Ht].
  destruct (inv_algs _ _ _ _ _ Hinv id Hid) as [a Ha].
  destruct (inv_team _ _ _ _ _ Hinv i t Ht) as (Hkeyed & Hpicks & Hroster).
  destruct (inv_alg _ _ _ _ _ Hinv id a Ha) as (Hpool & Hsub).
  replace (Z.of_nat i + 1) with id in Hpicks by (unfold i; lia).
  assert (Hneeds : get_needs t <> []).
  { intros Hnil. apply (needs_nil_roster_full t Hkeyed) in Hnil.
    apply Permutation_length in Hroster. lia. }
  destruct (execute_pick_succeeds a t
              (_calculate_picks_until_next pick_num id draft_order)
              (globally_drafted st) Hpool Hsub Hneeds
              (undrafted_exists st done Hinv Hlt))
    as (p & a' & Hexec & Hp & Hng & Hpool' & Hdr').
  unfold draft_pick.
  rewrite (py_pos_team _ _ (inv_teams _ _ _ _ _ Hinv) Hid). fold i.
  rewrite Ha, Ht, Hexec.
  eexists. split; [reflexivity |].
  set (t' := add_player t p (Some (_determine_roster_position p t))).
  assert (Hall : Permutation (all_picks (<[ i := t' ]> (teams st)))
                             (p :: all_picks (teams st))).
  { by apply (all_picks_insert _ _ t). }
  constructor; cbn [teams team_algorithms globally_drafted].
  - rewrite length_insert. apply (inv_teams _ _ _ _ _ Hinv).
  - intros id' Hid'. unfold _update_all_algorithms. rewrite lookup_fmap.
    destruct (decide (id = id')) as [<- | Hne].
    + rewrite lookup_insert_eq. by eexists.
    + rewrite lookup_insert_ne by done.
      destruct (inv_algs _ _ _ _ _ Hinv id' Hid') as [b ->]. by eexists.
  - intros id' b. unfold _update_all_algorithms. rewrite lookup_fmap.
    destruct (decide (id = id')) as [<- | Hne].
    + rewrite lookup_insert_eq. cbn. intros [= <-].
      rewrite (ps_hook_pool _ _ strategy_ok), (ps_hook_drafted _ _ strategy_ok).
      rewrite (ps_sync_pool _ _ strategy_ok), (ps_sync_drafted _ _ strategy_ok).
      rewrite Hpool', Hdr'. split; [done | set_solver].
    + rewrite lookup_insert_ne by done.
      destruct (team_algorithms st !! id') as [b0|] eqn:Eb; cbn; [| done].
      intros [= <-].
      rewrite (ps_hook_pool _ _ strategy_ok), (ps_hook_drafted _ _ strategy_ok).
      rewrite (ps_sync_pool _ _ strategy_ok), (ps_sync_drafted _ _ strategy_ok).
      destruct (inv_alg _ _ _ _ _ Hinv id' b0 Eb) as (Hp0 & Hs0).
      split; [done | set_solver].
  - intros j tj. destruct (decide (i = j)) as [<- | Hne].
    + rewrite list_lookup_insert_eq by done. intros [= <-].
      split; [by apply keyed_add_player |]. split.
      * cbn. rewrite length_app, count_occ_app. simpl.
        replace (Z.of_nat i + 1) with id by (unfold i; lia).
        destruct (Z.eq_dec id id); [| done]. rewrite Hpicks. lia.
      * unfold t'. rewrite (add_player_stored t p _ Hkeyed (copy_in_pool_slotted p Hp)).
        cbn. rewrite <- Permutation_cons_append. by constructor.
    + rewrite list_lookup_insert_ne by done. intros Hj.
      destruct (inv_team _ _ _ _ _ Hinv j tj Hj) as (Hk & Hc & Hr).
      split; [done |]. split; [| done].
      rewrite count_occ_app. simpl.
      destruct (Z.eq_dec id (Z.of_nat j + 1)); [| lia].
      exfalso. apply Hne. unfold i. lia.
  - eapply Permutation_Forall; [symmetry; exact Hall |].
    constructor; [done | apply (inv_pool _ _ _ _ _ Hinv)].
  - apply NoDup_ListNoDup.
    eapply Permutation_NoDup; [symmetry; apply Permutation_map; exact Hall |].
    simpl. constructor.
    + intros Hin. apply Hng. by apply (inv_global _ _ _ _ _ Hinv).
    + apply NoDup_ListNoDup. apply (inv_nodup _ _ _ _ _ Hinv).
  - intros n. rewrite elem_of_union, elem_of_singleton.
    rewrite (inv_global _ _ _ _ _ Hinv n).
    split.
    + intros Hn. eapply Permutation_in; [symmetry; apply Permutation_map; exact Hall |].
      simpl. destruct Hn as [-> | Hn]; auto.
    + intros Hn. eapply Permutation_in in Hn; [| apply Permutation_map; exact Hall].
      simpl in Hn. destruct Hn as [<- | Hn]; auto.
  - rewrite (Permutation_length Hall). simpl. rewrite length_app. simpl.
    rewrite (inv_count _ _ _ _ _ Hinv). lia.
Qed.

Lemma run_picks_complete (num_players : nat) (draft_order : list Z)
      (rest : list (Z * Z)) (done : list Z) (st : DraftState A) :
  draft_invariant pool_of drafted_of players st done ->
  Forall (fun id => 1 <= id <= 10) (List.map snd rest) ->
  (forall id, (count_occ Z.eq_dec (done ++ List.map snd rest) id <= 8)%nat) ->
  (length (done ++ List.map snd rest) <= length players)%nat ->
  exists st',
    run_picks num_players draft_order rest st = Some st'
    /\ draft_invariant pool_of drafted_of players st' (done ++ List.map snd rest).
Proof.
  revert done st. induction rest as [|[pick_num id] rest IH]; intros done st Hinv Hids Hocc Hlen.
  - simpl. rewrite app_nil_r. eauto.
  - simpl in *. apply Forall_cons in Hids as [Hid Hids].
    destruct (draft_pick_step num_players draft_order pick_num id st done Hinv Hid)
      as (st1 & Hstep & Hinv1).
    + specialize (Hocc id). rewrite count_occ_app in Hocc. simpl in Hocc.
      destruct (Z.eq_dec id id); [lia | done].
    + rewrite length_app in Hlen. simpl in Hlen. lia.
    + rewrite Hstep.
      replace (done ++ id :: List.map snd rest)
        with ((done ++ [id]) ++ List.map snd rest) in * by (by rewrite <- app_assoc).
      by apply IH.
Qed.

Lemma initial_state_invariant :
  draft_invariant pool_of drafted_of players (initial_state players) [].
Proof.
  constructor; cbn [teams team_algorithms globally_drafted initial_state].
  - reflexivity.
  - intros id Hid. rewrite fold_insert_lookup.
    rewrite decide_True; [by eexists |]. apply list_elem_of_In, py_range_In.
    unfold DRAFT_CONFIG.num_teams. lia.
  - intros id a. rewrite fold_insert_lookup. case_decide; [| done].
    intros [= <-]. rewrite (ps_construct_drafted _ _ strategy_ok). split; [| done].
    rewrite (ps_construct_pool _ _ strategy_ok).
    by rewrite (map_ext _ _ fresh_player_id), map_id.
  - intros i t Hi.
    assert (Ht : In t (List.map new_Team (py_range 1 (DRAFT_CONFIG.num_teams + 1)))).
    { apply list_elem_of_In. by eapply list_elem_of_lookup_2. }
    apply in_map_iff in Ht as (id & <- & _). by repeat split.
  - by vm_compute.
  - vm_compute. constructor.
  - intros n. split; [set_solver | done].
  - reflexivity.
Qed.

(** With eighty players, distinct names and slotted positions, every pick
    of the eight snake rounds succeeds. *)
Lemma run_draft_complete :
  length players = 80%nat ->
  exists st,
    run_draft players = Some st
    /\ draft_invariant pool_of drafted_of players st (generate_snake_draft_order 10 8).
Proof.
  intros Hlen. unfold run_draft. rewrite Hlen, actual_rounds_full.
  change DRAFT_CONFIG.num_teams with 10.
  generalize full_order_range, full_order_turns, full_order_length.
  generalize (generate_snake_draft_order 10 8). intros order Hrange Hturns Horder.
  destruct (run_picks_complete 80 order (enumerate order) [] (initial_state players))
    as (st & Hrun & Hinv).
  - apply initial_state_invariant.
  - by rewrite enumerate_snd.
  - intros id. rewrite enumerate_snd. apply Hturns.
  - rewrite enumerate_snd. change ([] ++ order) with order. lia.
  - rewrite enumerate_snd in Hinv. exists st. split; [exact Hrun | exact Hinv].
Qed.

Lemma simulate_draft_nonempty (ps : list Player) :
  ps <> [] ->
  simulate_draft ps =
  match run_draft ps with
  | None => SimRaise
  | Some st =>
      match py_pos (teams st) (DRAFT_CONFIG.draft_position - 1) with
      | Some i =>
          match teams st !! i with
          | Some our_team => SimDone our_team (teams st)
          | None => SimRaise
          end
      | None => SimRaise
      end
  end.
Proof. by destruct ps. Qed.

(** The end of a full draft, for any strategy that obeys [pool_strategy]. *)
Lemma simulate_draft_full :
  length players = 80%nat ->
  exists our_team all_teams,
    simulate_draft players = SimDone our_team all_teams
    /\ length all_teams = 10%nat
    /\ Forall (fun t => length (draft_picks t) = 8%nat
                        /\ Permutation (roster_players (roster t)) (draft_picks t)) all_teams
    /\ (forall p, In p players ->
        exists t, In t all_teams /\ In (copy_player p) (roster_players (roster t))).
Proof.
  intros Hlen. destruct (run_draft_complete Hlen) as (st & Hrun & Hinv).
  pose proof (inv_teams _ _ _ _ _ Hinv) as Hteams.
  assert (H4 : (4 < length (teams st))%nat) by lia.
  destruct (lookup_lt_is_Some_2 _ _ H4) as [our Hour].
  exists our, (teams st).
  split.
  { rewrite simulate_draft_nonempty by (intros E; by rewrite E in Hlen).
    rewrite Hrun.
    change (DRAFT_CONFIG.draft_position - 1) with (5 - 1).
    rewrite (py_pos_team _ 5 Hteams) by lia. change (Z.to_nat (5 - 1)) with 4%nat.
    by rewrite Hour. }
  split; [done |].
  split.
  { apply List.Forall_forall. intros t Ht.
    apply list_elem_of_In, list_elem_of_lookup_1 in Ht as [i Hi].
    destruct (inv_team _ _ _ _ _ Hinv i t Hi) as (_ & Hc & Hr).
    split; [| done]. rewrite Hc.
    assert (Hi10 : (i < 10)%nat) by (rewrite <- Hteams; by eapply lookup_lt_Some).
    by apply full_order_turns_exact. }
  intros p Hp.
  assert (Hname : In (name p) (List.map name (all_picks (teams st)))).
  { apply (NoDup_length_incl (l := List.map name (all_picks (teams st)))
                              (l' := List.map name players)).
    - apply NoDup_ListNoDup, (inv_nodup _ _ _ _ _ Hinv).
    - rewrite !length_map, (inv_count _ _ _ _ _ Hinv), Hlen, full_order_length. lia.
    - intros n Hn. apply in_map_iff in Hn as (q & <- & Hq).
      pose proof (proj1 (List.Forall_forall _ _) (inv_pool _ _ _ _ _ Hinv) q Hq) as Hqp.
      apply in_map_iff in Hqp as (p' & <- & Hp'). simpl. by apply in_map.
    - by apply in_map. }
  apply in_map_iff in Hname as (q & Hqn & Hq).
  pose proof (proj1 (List.Forall_forall _ _) (inv_pool _ _ _ _ _ Hinv) q Hq) as Hqp.
  apply in_map_iff in Hqp as (p' & <- & Hp'). simpl in Hqn.
  assert (p' = p) as -> by exact (NoDup_map_inj name players p' p names_distinct Hp' Hp Hqn).
  unfold all_picks in Hq. apply in_concat in Hq as (l & Hl & Hin).
  apply in_map_iff in Hl as (t & <- & Ht).
  exists t. split; [done |].
  apply list_elem_of_In, list_elem_of_lookup_1 in Ht as [i Hi].
  destruct (inv_team _ _ _ _ _ Hinv i t Hi) as (_ & _ & Hr).
  eapply Permutation_in; [symmetry; exact Hr | done].
Qed.

End DraftRun.


Lemma available_nil_all_drafted (r : Regret.RegretDraftAlgorithm) :
  Regret.get_available_players r = [] ->
  Forall (fun p => name p ∈ Regret.drafted_players r) (Regret.all_players r).
Proof.
  intros Hnil. apply List.Forall_forall. intros p Hp.
  destruct (decide (name p ∈ Regret.drafted_players r)) as [Hd|Hd]; [done |].
  exfalso. assert (Hin : In p (Regret.get_available_players r)) by (by apply available_In).
  by rewrite Hnil in Hin.
Qed.

Lemma greedy_pool_strategy :
  pool_strategy Greedy.available_players Greedy.drafted_players.
Proof.
  constructor; try done.
  - intros ps. apply greedy_init_perm.
  - intros g t k. cbn [call_draft_player greedy_strategy].
    destruct (Greedy.draft_player g t) as [[p|] g'] eqn:E.
    + apply greedy_draft_player_Some in E as (Hin & Hn & -> & _). by repeat split.
    + apply greedy_draft_player_None in E as [-> Hwhy]. by repeat split.
Qed.

Lemma regret_pool_strategy :
  pool_strategy Regret.all_players Regret.drafted_players.
Proof.
  constructor; try done.
  intros r t k. cbn [call_draft_player regret_strategy].
  destruct (Regret.draft_player r t k) as [[p|] r'] eqn:E.
  - apply regret_draft_player_Some in E as (Hin & Hn & -> & _). by repeat split.
  - apply regret_draft_player_None in E as [-> [Hwhy | Hwhy]]; repeat split; auto.
    right. by apply available_nil_all_drafted.
Qed.

(** C2 (as amended): for a pool of exactly [num_teams * total_picks] = 80
    players with pairwise distinct names, each at a position the roster has
    a slot for, [simulate_draft] with the Greedy or the Regret strategy ends
    normally with ten teams; every team has made eight picks and holds all
    of them in its roster slots, and every player of the pool (as copied by
    the strategy) is in the roster of some team.  Whether a roster is
    complete depends on the positions in the pool. *)
Theorem full_draft_uses_every_player (players : list Player) :
  length players = 80%nat ->
  NoDup (List.map name players) ->
  Forall (fun p => is_slot (position p) = true) players ->
  (exists our_team all_teams,
      simulate_draft (A := Greedy.GreedyDraftAlgorithm) players = SimDone our_team all_teams
      /\ length all_teams = 10%nat
      /\ Forall (fun t => length (draft_picks t) = 8%nat
                          /\ Permutation (roster_players (roster t)) (draft_picks t)) all_teams
      /\ (forall p, In p players ->
          exists t, In t all_teams /\ In (copy_player p) (roster_players (roster t))))
  /\ (exists our_team all_teams,
      simulate_draft (A := Regret.RegretDraftAlgorithm) players = SimDone our_team all_teams
      /\ length all_teams = 10%nat
      /\ Forall (fun t => length (draft_picks t) = 8%nat
                          /\ Permutation (roster_players (roster t)) (draft_picks t)) all_teams
      /\ (forall p, In p players ->
          exists t, In t all_teams /\ In (copy_player p) (roster_players (roster t)))).
Proof.
  intros Hlen Hnames Hslots. split.
  - exact (simulate_draft_full _ _ greedy_pool_strategy players Hnames Hslots Hlen).
  - exact (simulate_draft_full _ _ regret_pool_strategy players Hnames Hslots Hlen).
Qed.

Lemma quarterback_pool_names : NoDup (List.map name quarterback_pool).
Proof. refine (bool_decide_unpack _ _). vm_compute. exact I. Qed.

Lemma quarterback_pool_slotted :
  Forall (fun p => is_slot (position p) = true) quarterback_pool.
Proof.
  apply List.Forall_forall. intros p Hp. apply in_map_iff in Hp as (i & <- & _). reflexivity.
Qed.

Lemma full_draft_uses_every_player_witness :
  (exists our_team all_teams,
      simulate_draft (A := Greedy.GreedyDraftAlgorithm) quarterback_pool
      = SimDone our_team all_teams
      /\ length all_teams = 10%nat
      /\ Forall (fun t => length (draft_picks t) = 8%nat
                          /\ Permutation (roster_players (roster t)) (draft_picks t)) all_teams
      /\ (forall p, In p quarterback_pool ->
          exists t, In t all_teams /\ In (copy_player p) (roster_players (roster t))))
  /\ (exists our_team all_teams,
      simulate_draft (A := Regret.RegretDraftAlgorithm) quarterback_pool
      = SimDone our_team all_teams
      /\ length all_teams = 10%nat
      /\ Forall (fun t => length (draft_picks t) = 8%nat
                          /\ Permutation (roster_players (roster t)) (draft_picks t)) all_teams
      /\ (forall p, In p quarterback_pool ->
          exists t, In t all_teams /\ In (copy_player p) (roster_players (roster t)))).
Proof.
  apply (full_draft_uses_every_player quarterback_pool).
  - reflexivity.
  - exact quarterback_pool_names.
  - exact quarterback_pool_slotted.
Defined.

(** C2 (as stated) fails: a pool of exactly 80 players, all of them
    quarterbacks, is drafted completely, yet no roster is complete: every
    team ends with eight quarterbacks and five open needs, under either
    strategy. *)
Lemma full_draft_leaves_rosters_incomplete :
  length quarterback_pool = 80%nat
  /\ List.map get_needs
       (sim_teams (simulate_draft (A := Greedy.GreedyDraftAlgorithm) quarterback_pool))
     = repeat ["RB"; "WR"; "TE"; "FLEX"; "K"] 10
  /\ List.map is_complete
       (sim_teams (simulate_draft (A := Greedy.GreedyDraftAlgorithm) quarterback_pool))
     = repeat false 10
  /\ List.map (fun t => length (roster_get "QB" (roster t)))
       (sim_teams (simulate_draft (A := Greedy.GreedyDraftAlgorithm) quarterback_pool))
     = repeat 8%nat 10
  /\ List.map get_needs
       (sim_teams (simulate_draft (A := Regret.RegretDraftAlgorithm) quarterback_pool))
     = repeat ["RB"; "WR"; "TE"; "FLEX"; "K"] 10
  /\ List.map is_complete
       (sim_teams (simulate_draft (A := Regret.RegretDraftAlgorithm) quarterback_pool))
     = repeat false 10.
Proof. repeat split; vm_compute; reflexivity. Qed.

(** Why the names have to be distinct: the drafted sets hold names, so of
    two players with one name only one can ever be picked.  With eighty
    players and seventy-nine names the last pick finds nobody, the draft
    stops under the 90% rule, and team 1 ends with seven players. *)
Lemma full_draft_duplicate_name :
  length duplicate_name_pool = 80%nat
  /\ List.map (fun t => length (draft_picks t))
       (sim_teams (simulate_draft (A := Greedy.GreedyDraftAlgorithm) duplicate_name_pool))
     = [7; 8; 8; 8; 8; 8; 8; 8; 8; 8]%nat
  /\ List.map (fun t => length (List.filter (fun q => String.eqb (name q) "P01") (draft_picks t)))
       (sim_teams (simulate_draft (A := Greedy.GreedyDraftAlgorithm) duplicate_name_pool))
     = [1; 0; 0; 0; 0; 0; 0; 0; 0; 0]%nat.
Proof. repeat split; vm_compute; reflexivity. Qed.


(** * More on teams *)

Lemma add_player_total_points t p pos :
  (total_points t == sum_points (draft_picks t))%Q ->
  (total_points (add_player t p pos) == sum_points (draft_picks (add_player t p pos)))%Q.
Proof.
  intros Heq. unfold add_player. cbn [total_points draft_picks].
  rewrite sum_points_app, sum_points_single, Heq. reflexivity.
Qed.

Lemma add_players_total_points calls t :
  (total_points t == sum_points (draft_picks t))%Q ->
  (total_points (add_players t calls) == sum_points (draft_picks (add_players t calls)))%Q.
Proof.
  revert t. induction calls as [|[p pos] calls IH]; intros t Heq; [done |].
  simpl. apply IH. by apply add_player_total_points.
Qed.

Lemma add_players_team_id calls t : team_id (add_players t calls) = team_id t.
Proof.
  revert t. induction calls as [|[p pos] calls IH]; intros t; [done |].
  simpl. by rewrite IH.
Qed.

(** X1: whatever the positions and slot arguments, after any run of
    [add_player] calls on a fresh team [total_points] equals the sum of
    [actual_points] over the pick log [draft_picks], and the log holds the
    added players in call order. *)
Theorem add_player_points_follow_log (id : Z) (calls : list (Player * option string)) :
  (total_points (add_players (new_Team id) calls)
   == sum_points (draft_picks (add_players (new_Team id) calls)))%Q
  /\ draft_picks (add_players (new_Team id) calls) = List.map fst calls
  /\ team_id (add_players (new_Team id) calls) = id.
Proof.
  split; [| split].
  - apply add_players_total_points. reflexivity.
  - by rewrite add_players_draft_picks.
  - by rewrite add_players_team_id.
Qed.

Lemma roster_get_append s pos p r :
  roster_get s (roster_append pos p r)
  = if String.eqb pos s && roster_mem pos r then roster_get s r ++ [p] else roster_get s r.
Proof.
  induction r as [|[k ps] r IH]; simpl; [by rewrite andb_false_r |].
  destruct (String.eqb_spec k pos) as [-> | Hkp]; simpl.
  - by destruct (String.eqb_spec pos s).
  - destruct (String.eqb_spec k s) as [-> | Hks]; [| exact IH].
    by destruct (String.eqb_spec pos s) as [-> | Hps].
Qed.

Lemma roster_mem_append s pos p r :
  roster_mem s (roster_append pos p r) = roster_mem s r.
Proof. by rewrite !roster_mem_keys, roster_append_keys. Qed.

(** The slot [add_player] stores the player in, if any. *)
Lemma add_player_roster t p pos :
  roster (add_player t p pos) = roster t
  \/ exists slot, roster_mem slot (roster t) = true
                  /\ roster (add_player t p pos) = roster_append slot p (roster t).
Proof.
  unfold add_player. cbn [roster].
  set (req := match pos with None => position p | Some s => s end).
  destruct (String.eqb req "FLEX" && flex_eligible (position p)) eqn:E1.
  - destruct (roster_mem "FLEX" (roster t)) eqn:Em; [right; eauto |].
    left. clear -Em. induction (roster t) as [|[k ps] r IH]; simpl in *; [done |].
    apply orb_false_iff in Em as [Ek Em]. rewrite Ek. by rewrite IH.
  - destruct (roster_mem req (roster t)) eqn:E2; [right; eauto |].
    destruct (roster_mem (position p) (roster t)) eqn:E3; [right; eauto |].
    destruct (flex_eligible (position p)); [| by left].
    destruct (roster_mem "FLEX" (roster t)) eqn:Em; [right; eauto |].
    left. clear -Em. induction (roster t) as [|[k ps] r IH]; simpl in *; [done |].
    apply orb_false_iff in Em as [Ek Em]. rewrite Ek. by rewrite IH.
Qed.

(** X2: [add_player] only ever appends.  The keys of the roster stay as
    they are, every slot keeps its players in front, and at most one slot
    gains an entry, which is the added player. *)
Theorem add_player_only_appends (t : Team) (p : Player) (pos : option string) :
  List.map fst (roster (add_player t p pos)) = List.map fst (roster t)
  /\ exists target : option string,
      forall slot,
        roster_get slot (roster (add_player t p pos))
        = roster_get slot (roster t)
          ++ (if bool_decide (target = Some slot) then [p] else []).
Proof.
  destruct (add_player_roster t p pos) as [-> | (slot & Hmem & ->)].
  - split; [done |]. exists None. intros slot.
    rewrite bool_decide_eq_false_2 by done. by rewrite app_nil_r.
  - split; [apply roster_append_keys |]. exists (Some slot). intros s.
    rewrite roster_get_append, Hmem, andb_true_r.
    destruct (String.eqb_spec slot s) as [-> | Hne].
    + by rewrite bool_decide_eq_true_2.
    + rewrite bool_decide_eq_false_2 by congruence. by rewrite app_nil_r.
Qed.

Lemma needs_from_In r spots pos :
  In pos (needs_from r spots) <->
  exists cap, In (pos, cap) spots /\ (length (roster_get pos r) < cap)%nat.
Proof.
  induction spots as [|[k cap] spots IH]; simpl.
  - split; [done | by intros (? & [] & _)].
  - destruct (Nat.ltb_spec (length (roster_get k r)) cap) as [Hlt|Hge]; simpl; rewrite IH.
    + split.
      * intros [<- | (c & Hc & Hl)]; eauto.
      * intros (c & [[= <- <-] | Hc] & Hl); eauto.
    + split.
      * intros (c & Hc & Hl). eauto.
      * intros (c & [[= <- <-] | Hc] & Hl); [lia | eauto].
Qed.

Lemma needs_from_sublist r spots :
  sublist (needs_from r spots) (List.map fst spots).
Proof.
  induction spots as [|[k cap] spots IH]; simpl; [constructor |].
  destruct (_ <? _)%nat; by constructor.
Qed.

(** X3: [get_needs] lists, in configuration order and without repetition,
    exactly the configured slots that hold fewer players than their
    capacity; [is_complete] holds exactly when every configured slot is
    filled to capacity. *)
Theorem get_needs_lists_open_slots (t : Team) :
  (forall pos, In pos (get_needs t) <->
               exists cap, In (pos, cap) DRAFT_CONFIG.roster_spots
                           /\ (length (roster_get pos (roster t)) < cap)%nat)
  /\ sublist (get_needs t) slot_names
  /\ NoDup (get_needs t)
  /\ (is_complete t = true <->
      forall pos cap, In (pos, cap) DRAFT_CONFIG.roster_spots ->
                      (cap <= length (roster_get pos (roster t)))%nat).
Proof.
  split; [intros pos; apply needs_from_In |].
  split; [apply needs_from_sublist |].
  split.
  - eapply sublist_NoDup; [| apply needs_from_sublist].
    refine (bool_decide_unpack _ _). vm_compute. exact I.
  - unfold is_complete. rewrite Nat.eqb_eq, length_zero_iff_nil. split.
    + intros Hnil pos cap Hin.
      destruct (Nat.le_gt_cases cap (length (roster_get pos (roster t)))) as [|Hlt]; [done |].
      assert (Hn : In pos (get_needs t)) by (apply needs_from_In; eauto).
      by rewrite Hnil in Hn.
    + intros Hall. destruct (get_needs t) as [|pos ns] eqn:E; [done |].
      assert (Hn : In pos (get_needs t)) by (rewrite E; by left).
      apply needs_from_In in Hn as (cap & Hin & Hlt).
      specialize (Hall pos cap Hin). lia.
Qed.

Lemma roster_get_add_player_length t p pos slot :
  (length (roster_get slot (roster t))
   <= length (roster_get slot (roster (add_player t p pos))))%nat.
Proof.
  destruct (add_player_roster t p pos) as [-> | (s & Hmem & ->)]; [done |].
  rewrite roster_get_append. destruct (_ && _); [| done]. rewrite length_app. lia.
Qed.

(** X4: adding a player never opens a need: every need of the team after
    [add_player] was a need before, so a complete roster stays complete. *)
Theorem add_player_needs_shrink (t : Team) (p : Player) (pos : option string) :
  incl (get_needs (add_player t p pos)) (get_needs t)
  /\ (is_complete t = true -> is_complete (add_player t p pos) = true).
Proof.
  assert (Hincl : incl (get_needs (add_player t p pos)) (get_needs t)).
  { intros s Hs. apply needs_from_In in Hs as (cap & Hin & Hlt).
    apply needs_from_In. exists cap. split; [done |].
    pose proof (roster_get_add_player_length t p pos s). lia. }
  split; [done |].
  unfold is_complete. rewrite !Nat.eqb_eq, !length_zero_iff_nil. intros Hnil.
  rewrite Hnil in Hincl. destruct (get_needs (add_player t p pos)) as [|s ns]; [done |].
  exfalso. apply (Hincl s). by left.
Qed.

Lemma summary_from_In r pos s :
  In (pos, s) (summary_from r) ->
  exists players, In (pos, players) r /\ players <> []
    /\ summary_players s = List.map name players
    /\ summary_total_points s = sum_points players
    /\ summary_count s = length players.
Proof.
  induction r as [|[k ps] r IH]; simpl; [done |].
  destruct ps as [|q ps].
  - intros Hin. destruct (IH Hin) as (pl & ? & ?). eauto.
  - intros [[= <- <-] | Hin].
    + exists (q :: ps). repeat split; auto.
    + destruct (IH Hin) as (pl & ? & ?). eauto.
Qed.

Lemma summary_from_keys r :
  List.map fst (summary_from r)
  = List.map fst (List.filter (fun e => negb (Nat.eqb (length (snd e)) 0)) r).
Proof.
  induction r as [|[k ps] r IH]; simpl; [done |].
  destruct ps as [|q ps]; simpl; [done | by rewrite IH].
Qed.

Lemma summary_from_count r :
  list_sum (List.map (fun e => summary_count (snd e)) (summary_from r))
  = length (roster_players r).
Proof.
  unfold roster_players. induction r as [|[k ps] r IH]; simpl; [done |].
  destruct ps as [|q ps]; simpl; [done |]. rewrite IH, length_app. done.
Qed.

(** X5: [get_roster_summary] has one entry per non-empty slot, in roster
    order; the entry of a slot gives the names, the point total and the
    number of the players stored there, and the counts add up to the number
    of stored players. *)
Theorem roster_summary_matches_roster (t : Team) :
  List.map fst (get_roster_summary t)
  = List.map fst (List.filter (fun e => negb (Nat.eqb (length (snd e)) 0)) (roster t))
  /\ (forall pos s, In (pos, s) (get_roster_summary t) ->
        exists players, In (pos, players) (roster t) /\ players <> []
          /\ summary_players s = List.map name players
          /\ summary_total_points s = sum_points players
          /\ summary_count s = length players)
  /\ list_sum (List.map (fun e => summary_count (snd e)) (get_roster_summary t))
     = length (roster_players (roster t)).
Proof.
  split; [apply summary_from_keys |].
  split; [intros pos s; apply summary_from_In | apply summary_from_count].
Qed.


(** * More on the strategies *)

Lemma desc_sorted_values (l : list Player) :
  StronglySorted (fun a b => auction_value b <= auction_value a)
                 (py_sort (fun a b => auction_value b <=? auction_value a) l).
Proof.
  eapply StronglySorted_weaken; [| apply py_sort_sorted].
  - intros a b H. by apply Z.leb_le.
  - intros a b c Hab Hbc. apply Z.leb_le in Hab, Hbc. apply Z.leb_le. lia.
  - intros a b H. apply Z.leb_gt in H. apply Z.leb_le. lia.
Qed.

(** X6: [calculate_value_dropoff] is 0 when fewer than two undrafted players
    are left at the position.  Otherwise, with [best] and [second] the two
    largest auction values among them ([second <= best], every other value
    at most [second]), it is 0 when [best <= 0] and
    [min(1, (best - second) / best)] when [best > 0]; the inner [max(0, .)]
    of the code never applies.  The result always lies in [0, 1]. *)
Theorem value_dropoff_spec (r : Regret.RegretDraftAlgorithm) (pos : string) :
  let available := Regret.available_at_position r pos in
  let d := Regret.calculate_value_dropoff r pos in
  (0 <= d /\ d <= 1)%Q
  /\ ((length available < 2)%nat -> d = 0%Q)
  /\ ((2 <= length available)%nat ->
      exists best second rest,
        Permutation (best :: second :: rest) (List.map auction_value available)
        /\ second <= best
        /\ Forall (fun v => v <= second) rest
        /\ (d == if best <=? 0 then 0
                 else Qmin 1 (inject_Z (best - second) / inject_Z best))%Q).
Proof.
  intros available d. split; [apply dropoff_range |]. split.
  - intros Hlt. subst d. unfold Regret.calculate_value_dropoff. fold available.
    by destruct (Nat.ltb_spec (length available) 2); [| lia].
  - intros Hge. subst d. unfold Regret.calculate_value_dropoff. fold available.
    destruct (Nat.ltb_spec (length available) 2) as [|_]; [lia |].
    pose proof (desc_sorted_values available) as Hsorted.
    pose proof (py_sort_perm (fun a b => auction_value b <=? auction_value a) available) as Hperm.
    destruct (py_sort _ available) as [|b [|s rest]] eqn:E.
    + apply Permutation_length in Hperm. simpl in Hperm. lia.
    + apply Permutation_length in Hperm. simpl in Hperm. lia.
    + inversion Hsorted as [|? ? Hs1 Hb]; subst. inversion Hs1 as [|? ? _ Hs]; subst.
      inversion Hb as [|? ? Hbs _]; subst.
      exists (auction_value b), (auction_value s), (List.map auction_value rest).
      split; [by apply (Permutation_map auction_value) in Hperm |].
      split; [done |].
      split; [by apply Forall_map |].
      destruct (auction_value b <=? 0); [reflexivity |].
      rewrite Z.max_r by lia. apply py_min_Qmin.
Qed.

(** X7: [calculate_pick_urgency] lies in [1/19, 1], never decreases when
    [picks_until_next] grows, is [picks_until_next / 19] between 1 and 19,
    and is flat outside: 1/19 below 1 (also for 0 and negative inputs) and
    1 above 19. *)
Theorem pick_urgency_spec (k k' : Z) :
  ((1 # 19) <= Regret.calculate_pick_urgency k /\ Regret.calculate_pick_urgency k <= 1)%Q
  /\ (k <= k' -> (Regret.calculate_pick_urgency k <= Regret.calculate_pick_urgency k')%Q)
  /\ (1 <= k <= 19 -> (Regret.calculate_pick_urgency k == inject_Z k / 19)%Q)
  /\ (k <= 1 -> (Regret.calculate_pick_urgency k == 1 # 19)%Q)
  /\ (19 <= k -> (Regret.calculate_pick_urgency k == 1)%Q).
Proof.
  split; [apply urgency_range |]. unfold Regret.calculate_pick_urgency.
  split; [| split; [| split]].
  - intros Hle. apply Qmult_le_compat_r; [| by vm_compute].
    rewrite <- Zle_Qle. lia.
  - intros Hk. by rewrite Z.max_r, Z.min_r by lia.
  - intros Hk. by rewrite Z.max_l, Z.min_r by lia.
  - intros Hk. by rewrite Z.max_r, Z.min_l by lia.
Qed.

Lemma fills_need_nonempty needs p : fills_need needs p = true -> needs <> [].
Proof. by intros H ->. Qed.

(** X8: both strategies prefer a player the team needs.  When some
    undrafted player of the instance's pool fills a need of the team (its
    position is a need, or it is RB/WR/TE and FLEX is a need), the player
    returned by [draft_player] fills a need too: the fallback to any
    undrafted player is taken only when nobody fits. *)
Theorem draft_player_prefers_needs (g : Greedy.GreedyDraftAlgorithm)
        (r : Regret.RegretDraftAlgorithm) (t : Team) (picks_until_next : Z) :
  ((exists q, In q (Greedy.available_players g)
              /\ (name q ∉ Greedy.drafted_players g)
              /\ fills_need (get_needs t) q = true) ->
   exists p, fst (Greedy.draft_player g t) = Some p
             /\ fills_need (get_needs t) p = true)
  /\ ((exists q, In q (Regret.all_players r)
                 /\ (name q ∉ Regret.drafted_players r)
                 /\ fills_need (get_needs t) q = true) ->
      exists p, fst (Regret.draft_player r t picks_until_next) = Some p
                /\ fills_need (get_needs t) p = true).
Proof.
  split.
  - intros (q & Hq & Hnd & Hfit).
    rewrite greedy_draft_player_find by (by eapply fills_need_nonempty).
    destruct (List.find _ _) as [p|] eqn:E.
    + apply find_some in E as [_ E]. apply andb_true_iff in E as [_ E]. eauto.
    + exfalso. apply (find_none _ _ E) in Hq. unfold is_drafted in Hq.
      rewrite bool_decide_eq_false_2, Hfit in Hq by done. done.
  - intros (q & Hq & Hnd & Hfit).
    assert (Havail : In q (Regret.get_available_players r)) by (by apply available_In).
    assert (Hcand : In q (List.filter (fills_need (get_needs t)) (Regret.get_available_players r)))
      by (by apply filter_In).
    destruct (regret_draft_player_total r t picks_until_next) as [p Hp].
    { by eapply fills_need_nonempty. }
    { intros E. by rewrite E in Havail. }
    exists p. rewrite Hp. split; [done |].
    unfold Regret.draft_player in Hp.
    destruct (get_needs t) as [|n ns] eqn:En; [done |].
    destruct (Regret.get_available_players r) as [|a av] eqn:Ea; [done |].
    destruct (Regret.sort_candidates _) as [|[s p'] cs] eqn:Es; [done |].
    injection Hp as ->.
    assert (Hin : In (s, p) (Regret.candidates r t picks_until_next)).
    { apply (py_sort_In (fun a b => Qle_bool (fst b) (fst a))).
      unfold Regret.sort_candidates in Es. rewrite Es. by left. }
    unfold Regret.candidates in Hin. rewrite En, Ea in Hin.
    destruct (Regret.scored r t picks_until_next (List.filter _ _)) as [|c cs'] eqn:Esc.
    + exfalso. unfold Regret.scored in Esc. apply map_eq_nil in Esc.
      by rewrite Esc in Hcand.
    + rewrite <- Esc in Hin. apply scored_In in Hin as [Hin _].
      apply filter_In in Hin as [_ Hin]. done.
Qed.

Lemma greedy_run_spec ts g :
  NoDup (List.map name (greedy_run g ts))
  /\ Forall (fun p => In p (Greedy.available_players g)
                      /\ (name p ∉ Greedy.drafted_players g)) (greedy_run g ts).
Proof.
  revert g. induction ts as [|t ts IH]; intros g; simpl; [split; constructor |].
  destruct (Greedy.draft_player g t) as [[p|] g'] eqn:E.
  - apply greedy_draft_player_Some in E as (Hin & Hn & -> & _).
    destruct (IH (Greedy.mark g p)) as [Hnd Hall]. simpl in Hall.
    split.
    + simpl. apply NoDup_cons. split; [| done].
      intros Hp. apply list_elem_of_In, in_map_iff in Hp as (q & Hq & Hqin).
      rewrite List.Forall_forall in Hall. destruct (Hall q Hqin) as [_ Hnq].
      apply Hnq. rewrite Hq. set_solver.
    + constructor; [done |]. eapply Forall_impl; [exact Hall |].
      simpl. intros q [Hq1 Hq2]. split; [done | set_solver].
  - apply greedy_draft_player_None in E as [-> _]. apply IH.
Qed.

Lemma regret_run_spec calls r :
  NoDup (List.map name (regret_run r calls))
  /\ Forall (fun p => In p (Regret.all_players r)
                      /\ (name p ∉ Regret.drafted_players r)) (regret_run r calls).
Proof.
  revert r. induction calls as [|[t k] calls IH]; intros r; simpl; [split; constructor |].
  destruct (Regret.draft_player r t k) as [[p|] r'] eqn:E.
  - apply regret_draft_player_Some in E as (Hin & Hn & -> & _).
    destruct (IH (Regret.mark r p)) as [Hnd Hall]. simpl in Hall.
    split.
    + simpl. apply NoDup_cons. split; [| done].
      intros Hp. apply list_elem_of_In, in_map_iff in Hp as (q & Hq & Hqin).
      rewrite List.Forall_forall in Hall. destruct (Hall q Hqin) as [_ Hnq].
      apply Hnq. rewrite Hq. set_solver.
    + constructor; [done |]. eapply Forall_impl; [exact Hall |].
      simpl. intros q [Hq1 Hq2]. split; [done | set_solver].
  - apply regret_draft_player_None in E as [-> _]. apply IH.
Qed.

(** X9: one instance never hands out a name twice.  Over any run of
    [draft_player] calls on one Greedy or one Regret instance, for any teams
    (and any [picks_until_next]), the returned players have pairwise
    distinct names, come from the instance's pool, and none of them bears a
    name that was marked as drafted when the run began. *)
Theorem repeated_picks_are_distinct (g : Greedy.GreedyDraftAlgorithm)
        (r : Regret.RegretDraftAlgorithm) (ts : list Team) (calls : list (Team * Z)) :
  (NoDup (List.map name (greedy_run g ts))
   /\ Forall (fun p => In p (Greedy.available_players g)
                       /\ (name p ∉ Greedy.drafted_players g)) (greedy_run g ts))
  /\ (NoDup (List.map name (regret_run r calls))
      /\ Forall (fun p => In p (Regret.all_players r)
                          /\ (name p ∉ Regret.drafted_players r)) (regret_run r calls)).
Proof. split; [apply greedy_run_spec | apply regret_run_spec]. Qed.


(** * More on the snake order *)

Lemma py_range_down_In (hi lo k : Z) : In k (py_range_down hi lo) <-> lo < k <= hi.
Proof.
  unfold py_range_down. rewrite in_map_iff. split.
  - intros (j & <- & Hj). apply in_seq in Hj. lia.
  - intros Hk. exists (Z.to_nat (hi - k)). split; [lia |]. apply in_seq. lia.
Qed.

Lemma NoDup_py_range lo hi : NoDup (py_range lo hi).
Proof.
  unfold py_range. apply (NoDup_fmap_2_strong (fun i => lo + Z.of_nat i)); [| apply NoDup_seq].
  intros a b _ _. lia.
Qed.

Lemma NoDup_py_range_down hi lo : NoDup (py_range_down hi lo).
Proof.
  unfold py_range_down. apply (NoDup_fmap_2_strong (fun i => hi - Z.of_nat i)); [| apply NoDup_seq].
  intros a b _ _. lia.
Qed.

Lemma count_occ_NoDup_In (l : list Z) (x : Z) :
  NoDup l -> count_occ Z.eq_dec l x = if decide (x ∈ l) then 1%nat else 0%nat.
Proof.
  intros Hnd%NoDup_ListNoDup. case_decide as Hin; rewrite list_elem_of_In in Hin.
  - by apply NoDup_count_occ'.
  - by apply count_occ_not_In.
Qed.

Lemma snake_round_In n r id : In id (snake_round n r) <-> 1 <= id <= n.
Proof.
  unfold snake_round. destruct (_ =? _).
  - rewrite py_range_In. lia.
  - rewrite py_range_down_In. lia.
Qed.

Lemma snake_round_count n r id :
  count_occ Z.eq_dec (snake_round n r) id
  = if (1 <=? id) && (id <=? n) then 1%nat else 0%nat.
Proof.
  rewrite count_occ_NoDup_In.
  - case_decide as Hin; rewrite list_elem_of_In, snake_round_In in Hin.
    + destruct (Z.leb_spec 1 id), (Z.leb_spec id n); simpl; (done || lia).
    + destruct (Z.leb_spec 1 id), (Z.leb_spec id n); simpl; (done || lia).
  - unfold snake_round. destruct (_ =? _); [apply NoDup_py_range | apply NoDup_py_range_down].
Qed.

Lemma count_occ_concat_const (f : Z -> list Z) (x : Z) (c : nat) (ks : list Z) :
  (forall k, count_occ Z.eq_dec (f k) x = c) ->
  count_occ Z.eq_dec (concat (List.map f ks)) x = (length ks * c)%nat.
Proof.
  intros Hc. induction ks as [|k ks IH]; [done |].
  cbn [List.map concat length]. rewrite count_occ_app, Hc, IH. lia.
Qed.

Lemma length_concat_const (f : Z -> list Z) (c : nat) (ks : list Z) :
  (forall k, length (f k) = c) ->
  length (concat (List.map f ks)) = (length ks * c)%nat.
Proof.
  intros Hc. induction ks as [|k ks IH]; [done |].
  cbn [List.map concat length]. rewrite length_app, Hc, IH. lia.
Qed.

Lemma snake_order_count n r id :
  count_occ Z.eq_dec (generate_snake_draft_order n r) id
  = if (1 <=? id) && (id <=? n) then Z.to_nat r else 0%nat.
Proof.
  rewrite snake_order_concat.
  rewrite (count_occ_concat_const _ _ _ _ (fun k => snake_round_count n k id)).
  rewrite length_py_range, Z.sub_0_r. destruct (_ && _); lia.
Qed.

Lemma snake_order_length n r :
  length (generate_snake_draft_order n r) = (Z.to_nat r * Z.to_nat n)%nat.
Proof.
  rewrite snake_order_concat.
  rewrite (length_concat_const _ _ _ (length_snake_round n)).
  by rewrite length_py_range, Z.sub_0_r.
Qed.

Lemma snake_order_range n r :
  Forall (fun id => 1 <= id <= n) (generate_snake_draft_order n r).
Proof.
  apply List.Forall_forall. intros id Hin.
  rewrite snake_order_concat in Hin. apply in_concat in Hin as (l & Hl & Hin).
  apply in_map_iff in Hl as (k & <- & _). by apply snake_round_In in Hin.
Qed.

(** X10: the snake order is fair.  [generate_snake_draft_order] returns
    [num_rounds * num_teams] picks (none when either is zero or negative),
    every pick is a team id between 1 and [num_teams], and every such team
    has exactly [num_rounds] picks. *)
Theorem snake_order_is_fair (num_teams num_rounds id : Z) :
  let order := generate_snake_draft_order num_teams num_rounds in
  Z.of_nat (length order) = Z.max 0 num_rounds * Z.max 0 num_teams
  /\ Forall (fun id => 1 <= id <= num_teams) order
  /\ Z.of_nat (count_occ Z.eq_dec order id)
     = (if (1 <=? id) && (id <=? num_teams) then Z.max 0 num_rounds else 0).
Proof.
  cbn zeta. rewrite snake_order_length, snake_order_count.
  split; [lia |]. split; [apply snake_order_range |].
  destruct (_ && _); lia.
Qed.

Lemma actual_rounds_bounds (n : nat) : 1 <= actual_rounds n <= 8.
Proof.
  unfold actual_rounds, DRAFT_CONFIG.num_teams, DRAFT_CONFIG.total_picks.
  destruct (_ <? _); lia.
Qed.

Lemma actual_rounds_enough (n : nat) :
  (10 <= n)%nat -> 10 * actual_rounds n <= Z.of_nat n.
Proof.
  intros Hn. unfold actual_rounds, DRAFT_CONFIG.num_teams, DRAFT_CONFIG.total_picks.
  change (10 * 8) with 80.
  destruct (Z.ltb_spec (Z.of_nat n) 80) as [Hlt|Hge]; [| lia].
  pose proof (Z.mul_div_le (Z.of_nat n) 10 eq_refl).
  assert (1 <= Z.of_nat n / 10) by (apply Z.div_le_lower_bound; lia).
  lia.
Qed.

(** X11: the number of rounds [simulate_draft] settles on is between 1 and
    8; it is 8 from eighty players on and [len(players) // 10] between ten
    and seventy-nine, so that from ten players on the draft order never
    asks for more picks than there are players.  Below ten players the
    order still has one full round of ten picks: more picks than players. *)
Theorem actual_rounds_fit_the_pool (num_players : nat) :
  let rounds := actual_rounds num_players in
  let order := generate_snake_draft_order DRAFT_CONFIG.num_teams rounds in
  1 <= rounds <= DRAFT_CONFIG.total_picks
  /\ Z.of_nat (length order) = 10 * rounds
  /\ ((80 <= num_players)%nat -> rounds = 8)
  /\ ((10 <= num_players < 80)%nat -> rounds = Z.of_nat num_players / 10)
  /\ ((10 <= num_players)%nat -> (length order <= num_players)%nat)
  /\ ((num_players < 10)%nat -> rounds = 1 /\ (num_players < length order)%nat).
Proof.
  cbn zeta. pose proof (actual_rounds_bounds num_players) as Hb.
  pose proof (actual_rounds_enough num_players) as He.
  rewrite snake_order_length. change DRAFT_CONFIG.num_teams with 10.
  change DRAFT_CONFIG.total_picks with 8.
  split; [done |]. split; [lia |].
  unfold actual_rounds, DRAFT_CONFIG.num_teams, DRAFT_CONFIG.total_picks in *.
  change (10 * 8) with 80 in *.
  destruct (Z.ltb_spec (Z.of_nat num_players) 80) as [Hlt|Hge].
  - split; [lia |]. split.
    { intros Hn. assert (1 <= Z.of_nat num_players / 10) by (apply Z.div_le_lower_bound; lia).
      assert (Z.of_nat num_players / 10 < 8) by (apply Z.div_lt_upper_bound; lia). lia. }
    split; [lia |].
    intros Hn. assert (Z.of_nat num_players / 10 = 0) by (apply Z.div_small; lia).
    split; lia.
  - split; [lia |]. split; [lia |]. split; lia.
Qed.

(** * The pick loop, for any strategy *)

Lemma list_index_spec (x : Z) (xs : list Z) :
  match list_index x xs with
  | Some k => 0 <= k /\ nth_error xs (Z.to_nat k) = Some x
              /\ (forall j, (j < Z.to_nat k)%nat -> nth_error xs j <> Some x)
  | None => ~ In x xs
  end.
Proof.
  induction xs as [|y xs IH]; simpl; [tauto |].
  destruct (Z.eqb_spec y x) as [->|Hne].
  - split; [lia |]. split; [done |]. intros j Hj. simpl in Hj. lia.
  - destruct (list_index x xs) as [k|]; simpl.
    + destruct IH as (Hk & Hnth & Hbefore). split; [lia |].
      replace (Z.to_nat (Z.succ k)) with (S (Z.to_nat k)) by lia.
      split; [done |]. intros [|j] Hj; simpl; [congruence |]. apply Hbefore. lia.
    + intros [?|?]; [done | tauto].
Qed.

(** X12: [_calculate_picks_until_next] is 11 for every team but the
    tracked one (team 5).  For the tracked team at pick [current_pick >= 0]
    it returns a distance [k >= 1] such that none of the picks
    [current_pick + 1 .. current_pick + k - 1] of the order is team 5, and
    either pick [current_pick + k] is team 5 (its next turn) or team 5 has
    no later turn and [current_pick + k] is one past the order's last
    index. *)
Theorem picks_until_next_spec (current_pick team_id : Z) (draft_order : list Z)
        (Hpick : 0 <= current_pick) :
  let k := _calculate_picks_until_next current_pick team_id draft_order in
  (team_id <> 5 -> k = 11)
  /\ (team_id = 5 ->
      1 <= k
      /\ (forall j, 1 <= j < k -> nth_error draft_order (Z.to_nat (current_pick + j)) <> Some 5)
      /\ (nth_error draft_order (Z.to_nat (current_pick + k)) = Some 5
          \/ ((forall j, 1 <= j -> nth_error draft_order (Z.to_nat (current_pick + j)) <> Some 5)
              /\ current_pick + k
                 = Z.max (current_pick + 1) (Z.of_nat (length draft_order))))).
Proof.
  cbn zeta. unfold _calculate_picks_until_next, DRAFT_CONFIG.draft_position.
  split.
  - intros Hne. by destruct (Z.eqb_spec team_id 5).
  - intros ->. simpl negb. cbv iota.
    set (n := Z.to_nat (current_pick + 1)).
    assert (Hnth : forall j, 1 <= j ->
              nth_error draft_order (Z.to_nat (current_pick + j))
              = nth_error (skipn n draft_order) (Z.to_nat (j - 1))).
    { intros j Hj. rewrite nth_error_skipn. f_equal. lia. }
    pose proof (list_index_spec 5 (skipn n draft_order)) as Hspec.
    destruct (list_index 5 (skipn n draft_order)) as [k|].
    + destruct Hspec as (Hk & Hat & Hbefore). split; [lia |]. split.
      * intros j Hj. rewrite Hnth by lia. apply Hbefore. lia.
      * left. rewrite Hnth by lia. by replace (k + 1 - 1) with k by lia.
    + split; [lia |].
      assert (Hno : forall j, 1 <= j ->
                nth_error draft_order (Z.to_nat (current_pick + j)) <> Some 5).
      { intros j Hj. rewrite Hnth by done. intros Hc. apply Hspec.
        by apply nth_error_In in Hc. }
      split; [intros j Hj; apply Hno; lia |].
      right. split; [done |]. rewrite length_skipn. lia.
Qed.

Lemma picks_until_next_spec_witness :
  0 <= 4
  /\ 1 <= _calculate_picks_until_next 4 5 (generate_snake_draft_order 10 8).
Proof.
  split; [lia |].
  destruct (picks_until_next_spec 4 5 (generate_snake_draft_order 10 8)) as [_ Hk]; [lia |].
  destruct (Hk eq_refl) as [Hone _]. exact Hone.
Defined.


Lemma needs_are_slots t pos : In pos (get_needs t) -> is_slot pos = true.
Proof.
  intros Hin. apply needs_from_In in Hin as (cap & Hin & _).
  unfold DRAFT_CONFIG.roster_spots in Hin. simpl in Hin.
  repeat (destruct Hin as [[= <- <-] | Hin]; [by vm_compute |]). done.
Qed.

Lemma roster_spots_functional pos c1 c2 :
  In (pos, c1) DRAFT_CONFIG.roster_spots -> In (pos, c2) DRAFT_CONFIG.roster_spots -> c1 = c2.
Proof.
  unfold DRAFT_CONFIG.roster_spots. simpl. intros H1 H2.
  repeat (destruct H1 as [[= <- <-] | H1]; [intuition congruence |]). done.
Qed.

Lemma str_in_In s l : str_in s l = true <-> In s l.
Proof.
  unfold str_in. rewrite existsb_exists. split.
  - intros (x & Hin & Hx). apply String.eqb_eq in Hx. by subst.
  - intros Hin. exists s. split; [done | apply String.eqb_refl].
Qed.

Lemma keyed_roster_mem t pos : keyed t -> roster_mem pos (roster t) = is_slot pos.
Proof. intros Hk. rewrite roster_mem_keys, Hk. done. Qed.

(** X13: the slot the engine chooses is safe whenever the pick fits.  For a
    team with the six roster keys and a player that fills one of its needs,
    [_determine_roster_position] names a slot that is a need, and
    [add_player] with that slot appends the player there and nowhere else,
    so the slot stays within its capacity.  For a player that fills no need
    the slot named is the player's own position (the overfill fallback). *)
Theorem chosen_slot_is_open (player : Player) (t : Team) (Hkeys : keyed t) :
  let slot := _determine_roster_position player t in
  (fills_need (get_needs t) player = true ->
   In slot (get_needs t)
   /\ (forall s, roster_get s (roster (add_player t player (Some slot)))
                 = roster_get s (roster t) ++ (if String.eqb slot s then [player] else []))
   /\ (forall cap, In (slot, cap) DRAFT_CONFIG.roster_spots ->
                   (length (roster_get slot (roster (add_player t player (Some slot)))) <= cap)%nat))
  /\ (fills_need (get_needs t) player = false -> slot = position player).
Proof.
  cbn zeta. unfold _determine_roster_position, fills_need.
  destruct (str_in (position player) (get_needs t)) eqn:Edirect; cbn [orb andb].
  - split; [| done]. intros _.
    assert (Hneed : In (position player) (get_needs t)) by (by apply str_in_In).
    assert (Hstore : forall s,
              roster_get s (roster (add_player t player (Some (position player))))
              = roster_get s (roster t)
                ++ (if String.eqb (position player) s then [player] else [])).
    { intros s. unfold add_player. cbn [roster].
      pose proof (needs_are_slots _ _ Hneed) as Hslot.
      destruct (String.eqb_spec (position player) "FLEX") as [Hflex|Hflex]; simpl.
      - destruct (flex_eligible (position player)) eqn:Ef.
        + apply flex_eligible_cases in Ef. rewrite Hflex in Ef.
          destruct Ef as [? | [? | ?]]; done.
        + rewrite keyed_roster_mem, Hslot by done.
          rewrite roster_get_append, keyed_roster_mem, Hslot, andb_true_r by done.
          destruct (String.eqb _ s); [done | by rewrite app_nil_r].
      - rewrite keyed_roster_mem, Hslot by done.
        rewrite roster_get_append, keyed_roster_mem, Hslot, andb_true_r by done.
        destruct (String.eqb _ s); [done | by rewrite app_nil_r]. }
    split; [exact Hneed |]. split; [exact Hstore |].
    intros cap Hcap. rewrite Hstore, String.eqb_refl, length_app. simpl.
    apply needs_from_In in Hneed as (cap' & Hcap' & Hlt).
    rewrite (roster_spots_functional _ _ _ Hcap Hcap'). lia.
  - destruct (str_in "FLEX" (get_needs t)) eqn:Eflex; cbn [orb andb]; [| by split].
    destruct (flex_eligible (position player)) eqn:Ef; cbn [orb andb]; [| by split].
    split; [| done]. intros _.
    assert (Hneed : In "FLEX" (get_needs t)) by (by apply str_in_In).
    assert (Hstore : forall s,
              roster_get s (roster (add_player t player (Some "FLEX")))
              = roster_get s (roster t) ++ (if String.eqb "FLEX" s then [player] else [])).
    { intros s. unfold add_player. cbn [roster]. rewrite Ef.
      change (String.eqb "FLEX" "FLEX" && true) with true. cbv iota.
      rewrite roster_get_append, keyed_roster_mem by done.
      change (is_slot "FLEX") with true. rewrite andb_true_r.
      destruct (String.eqb _ s); [done | by rewrite app_nil_r]. }
    split; [exact Hneed |]. split; [exact Hstore |].
    intros cap Hcap. rewrite Hstore, String.eqb_refl, length_app. simpl.
    apply needs_from_In in Hneed as (cap' & Hcap' & Hlt).
    rewrite (roster_spots_functional _ _ _ Hcap Hcap'). lia.
Qed.

Lemma chosen_slot_is_open_witness :
  keyed (new_Team 1)
  /\ In (_determine_roster_position kelce (new_Team 1)) (get_needs (new_Team 1)).
Proof.
  split; [apply keyed_new_Team |].
  destruct (chosen_slot_is_open kelce (new_Team 1) (keyed_new_Team 1)) as [Hfit _].
  destruct (Hfit eq_refl) as [Hin _]. exact Hin.
Defined.


(** * The pick loop, whatever the strategy *)

Lemma map_insert_same {X Y : Type} (f : X -> Y) (l : list X) (i : nat) (x x' : X) :
  l !! i = Some x -> f x' = f x -> List.map f (<[ i := x' ]> l) = List.map f l.
Proof.
  revert i. induction l as [|y l IH]; intros [|i] Hi Hf; simpl in *; try done.
  - injection Hi as ->. by rewrite Hf.
  - by rewrite IH.
Qed.

Lemma add_player_rostered_logged t p pos :
  roster_players (roster t) ⊆+ draft_picks t ->
  roster_players (roster (add_player t p pos)) ⊆+ draft_picks (add_player t p pos).
Proof.
  intros Hsub. change (draft_picks (add_player t p pos)) with (draft_picks t ++ [p]).
  destruct (add_player_roster t p pos) as [-> | (slot & Hmem & ->)].
  - by apply submseteq_inserts_r.
  - rewrite (roster_append_players_perm _ _ _ Hmem).
    rewrite <- Permutation_cons_append. by apply submseteq_skip.
Qed.



Section AnyStrategy.
Context {A : Type} `{Strategy A}.

(** A player the engine accepts is never in the global set. *)
Lemma execute_pick_fresh (a a' : A) (t : Team) (k : Z) (g : gset string) (p : Player) :
  _execute_draft_pick a t k g = (Some p, a') -> name p ∉ g.
Proof.
  unfold _execute_draft_pick.
  destruct (call_draft_player (sync_drafted g a) t k) as [[|[q|]] a2]; try done.
  case_bool_decide as Hq; [done |]. by intros [= <- _].
Qed.

Lemma draft_pick_safe (num_players : nat) (draft_order : list Z) (pick_num id : Z)
      (st : DraftState A) :
  engine_safe st -> 1 <= id <= 10 ->
  exists st',
    (draft_pick num_players draft_order pick_num id st = Next st'
     \/ draft_pick num_players draft_order pick_num id st = Break st')
    /\ engine_safe st'.
Proof.
  intros Hs Hid.
  assert (Hlen : length (teams st) = 10%nat).
  { rewrite <- (length_map team_id), (safe_teams _ Hs). by rewrite length_py_range. }
  set (i := Z.to_nat (id - 1)).
  assert (Hi : (i < length (teams st))%nat) by (unfold i; lia).
  destruct (lookup_lt_is_Some_2 _ _ Hi) as [t Ht].
  destruct (safe_algs _ Hs id Hid) as [a Ha].
  unfold draft_pick. rewrite (py_pos_team _ _ Hlen Hid). fold i. rewrite Ha, Ht.
  destruct (_execute_draft_pick a t _ (globally_drafted st)) as [[p|] a'] eqn:E.
  - apply execute_pick_fresh in E.
    eexists. split; [left; reflexivity |].
    set (t' := add_player t p (Some (_determine_roster_position p t))).
    assert (Hall : Permutation (all_picks (<[ i := t' ]> (teams st)))
                               (p :: all_picks (teams st))).
    { by apply (all_picks_insert _ _ t). }
    constructor; cbn [teams team_algorithms globally_drafted].
    + rewrite (map_insert_same team_id _ _ t t' Ht eq_refl). apply (safe_teams _ Hs).
    + intros id' Hid'. unfold _update_all_algorithms. rewrite lookup_fmap.
      destruct (decide (id = id')) as [<- | Hne].
      * rewrite lookup_insert_eq. by eexists.
      * rewrite lookup_insert_ne by done.
        destruct (safe_algs _ Hs id' Hid') as [b ->]. by eexists.
    + apply Forall_insert; [apply (safe_points _ Hs) |].
      apply add_player_total_points.
      exact (Forall_lookup_1 _ _ _ _ (safe_points _ Hs) Ht).
    + apply Forall_insert; [apply (safe_roster _ Hs) |].
      apply add_player_rostered_logged.
      exact (Forall_lookup_1 _ _ _ _ (safe_roster _ Hs) Ht).
    + apply NoDup_ListNoDup.
      eapply Permutation_NoDup; [symmetry; apply Permutation_map; exact Hall |].
      simpl. constructor.
      * intros Hin. apply E. by apply (safe_global _ Hs).
      * apply NoDup_ListNoDup. apply (safe_nodup _ Hs).
    + intros n. rewrite elem_of_union, elem_of_singleton.
      rewrite (safe_global _ Hs n).
      split.
      * intros Hn. eapply Permutation_in; [symmetry; apply Permutation_map; exact Hall |].
        simpl. destruct Hn as [-> | Hn]; auto.
      * intros Hn. eapply Permutation_in in Hn; [| apply Permutation_map; exact Hall].
        simpl in Hn. destruct Hn as [<- | Hn]; auto.
  - assert (Hsafe : engine_safe {| teams := teams st;
                                   team_algorithms := <[ id := a' ]> (team_algorithms st);
                                   globally_drafted := globally_drafted st |}).
    { constructor; cbn [teams team_algorithms globally_drafted];
        try apply Hs.
      intros id' Hid'. destruct (decide (id = id')) as [<- | Hne].
      - rewrite lookup_insert_eq. by eexists.
      - rewrite lookup_insert_ne by done. by apply (safe_algs _ Hs). }
    destruct (Qle_bool _ _); eexists; (split; [ | exact Hsafe]); [right | left]; reflexivity.
Qed.

Lemma run_picks_safe (num_players : nat) (draft_order : list Z)
      (picks : list (Z * Z)) (st : DraftState A) :
  engine_safe st ->
  Forall (fun id => 1 <= id <= 10) (List.map snd picks) ->
  exists st', run_picks num_players draft_order picks st = Some st' /\ engine_safe st'.
Proof.
  revert st. induction picks as [|[pick_num id] picks IH]; intros st Hs Hids.
  - simpl. eauto.
  - cbn [List.map snd] in Hids. apply Forall_cons in Hids as [Hid Hids].
    cbn [run_picks].
    destruct (draft_pick_safe num_players draft_order pick_num id st Hs Hid)
      as (st1 & [-> | ->] & Hs1); [by apply IH | eauto].
Qed.

Lemma initial_state_safe (players : list Player) : engine_safe (initial_state players).
Proof.
  constructor; cbn [teams team_algorithms globally_drafted initial_state].
  - rewrite map_map. change DRAFT_CONFIG.num_teams with 10. change (10 + 1) with 11.
    by rewrite map_id.
  - intros id Hid. rewrite fold_insert_lookup.
    rewrite decide_True; [by eexists |]. apply list_elem_of_In, py_range_In.
    unfold DRAFT_CONFIG.num_teams. lia.
  - apply List.Forall_forall. intros t Ht. apply in_map_iff in Ht as (id & <- & _). done.
  - apply List.Forall_forall. intros t Ht. apply in_map_iff in Ht as (id & <- & _).
    cbn. done.
  - vm_compute. constructor.
  - intros n. split; [set_solver | done].
Qed.


End AnyStrategy.



(** * The pick loop with a strategy that keeps the pool contract *)

Section Synced.
Context {A : Type} `{Strategy A}.
Variables (pool_of : A -> list Player) (drafted_of : A -> gset string).
Hypothesis strategy_ok : pool_strategy pool_of drafted_of.

Lemma execute_pick_synced (a a' : A) (t : Team) (k : Z) (g : gset string)
      (picked : option Player) :
  drafted_of a = g ->
  _execute_draft_pick a t k g = (picked, a') ->
  drafted_of a' = match picked with Some p => {[ name p ]} ∪ g | None => g end.
Proof.
  intros Ha. unfold _execute_draft_pick.
  pose proof (ps_draft _ _ strategy_ok (sync_drafted g a) t k) as Hd.
  rewrite (ps_sync_drafted _ _ strategy_ok), Ha in Hd.
  destruct (call_draft_player (sync_drafted g a) t k) as [[|[p|]] a2]; [done | |].
  - destruct Hd as (_ & Hnot & _ & Hdr).
    rewrite bool_decide_eq_false_2 by set_solver.
    intros [= <- <-]. rewrite Hdr. set_solver.
  - destruct Hd as (_ & Hdr & _). intros [= <- <-]. rewrite Hdr. set_solver.
Qed.

Lemma draft_pick_synced (num_players : nat) (draft_order : list Z) (pick_num id : Z)
      (st st' : DraftState A) :
  (forall id a, team_algorithms st !! id = Some a -> drafted_of a = globally_drafted st) ->
  draft_pick num_players draft_order pick_num id st = Next st'
  \/ draft_pick num_players draft_order pick_num id st = Break st' ->
  forall id a, team_algorithms st' !! id = Some a -> drafted_of a = globally_drafted st'.
Proof.
  intros Hsync. unfold draft_pick.
  destruct (py_pos (teams st) (id - 1)) as [i|]; [| by intros [? | ?]].
  destruct (team_algorithms st !! id) as [a|] eqn:Ha; [| by intros [? | ?]].
  destruct (teams st !! i) as [t|]; [| by intros [? | ?]].
  destruct (_execute_draft_pick a t _ (globally_drafted st)) as [picked a'] eqn:E.
  apply (execute_pick_synced _ _ _ _ _ _ (Hsync id a Ha)) in E.
  destruct picked as [p|].
  - intros [[= <-] | [=]]. cbn [team_algorithms globally_drafted].
    intros id' b. unfold _update_all_algorithms. rewrite lookup_fmap.
    destruct (decide (id = id')) as [<- | Hne].
    + rewrite lookup_insert_eq. cbn. intros [= <-].
      rewrite (ps_hook_drafted _ _ strategy_ok), (ps_sync_drafted _ _ strategy_ok), E.
      set_solver.
    + rewrite lookup_insert_ne by done.
      destruct (team_algorithms st !! id') as [b0|] eqn:Eb; cbn; [| done].
      intros [= <-].
      rewrite (ps_hook_drafted _ _ strategy_ok), (ps_sync_drafted _ _ strategy_ok).
      rewrite (Hsync id' b0 Eb). set_solver.
  - assert (Hst : forall id' b,
              <[ id := a' ]> (team_algorithms st) !! id' = Some b ->
              drafted_of b = globally_drafted st).
    { intros id' b. destruct (decide (id = id')) as [<- | Hne].
      - rewrite lookup_insert_eq. by intros [= <-].
      - rewrite lookup_insert_ne by done. apply Hsync. }
    destruct (Qle_bool _ _); intros [[= <-] | [= <-]]; exact Hst.
Qed.

Lemma run_picks_synced (num_players : nat) (draft_order : list Z)
      (picks : list (Z * Z)) (st st' : DraftState A) :
  (forall id a, team_algorithms st !! id = Some a -> drafted_of a = globally_drafted st) ->
  run_picks num_players draft_order picks st = Some st' ->
  forall id a, team_algorithms st' !! id = Some a -> drafted_of a = globally_drafted st'.
Proof.
  revert st. induction picks as [|[pick_num id] picks IH]; intros st Hsync.
  - by intros [= <-].
  - cbn [run_picks].
    destruct (draft_pick num_players draft_order pick_num id st) as [st1|st1|] eqn:E;
      [| | done].
    + apply IH. eapply draft_pick_synced; [exact Hsync | left; exact E].
    + intros [= <-]. eapply draft_pick_synced; [exact Hsync | right; exact E].
Qed.

Lemma initial_state_synced (players : list Player) :
  forall id a, team_algorithms (initial_state players) !! id = Some a ->
               drafted_of a = globally_drafted (initial_state players).
Proof.
  intros id a. cbn [team_algorithms globally_drafted initial_state].
  rewrite fold_insert_lookup. case_decide; [| done].
  intros [= <-]. apply (ps_construct_drafted _ _ strategy_ok).
Qed.

Lemma turns_keep_one_view (players : list Player) (num_players : nat)
      (draft_order : list Z) (picks : list (Z * Z)) :
  Forall (fun id => 1 <= id <= 10) (List.map snd picks) ->
  exists st,
    run_picks num_players draft_order picks (initial_state players) = Some st
    /\ forall id a, team_algorithms st !! id = Some a -> drafted_of a = globally_drafted st.
Proof.
  intros Hids.
  destruct (run_picks_safe num_players draft_order picks (initial_state players)
              (initial_state_safe players) Hids) as (st & Hrun & _).
  exists st. split; [done |].
  eapply run_picks_synced; [apply initial_state_synced | exact Hrun].
Qed.

Variable players : list Player.
Hypothesis names_distinct : NoDup (List.map name players).
Hypothesis positions_slotted : Forall (fun p => is_slot (position p) = true) players.

(** From ten players on, every pick of the shortened order succeeds. *)
Lemma simulate_draft_rounds :
  (10 <= length players)%nat ->
  exists our_team all_teams,
    simulate_draft players = SimDone our_team all_teams
    /\ length all_teams = 10%nat
    /\ Forall (fun t => Z.of_nat (length (draft_picks t)) = actual_rounds (length players)
                        /\ Permutation (roster_players (roster t)) (draft_picks t)) all_teams
    /\ Forall (fun q => In q (List.map copy_player players)) (all_picks all_teams)
    /\ Z.of_nat (length (all_picks all_teams)) = 10 * actual_rounds (length players).
Proof.
  intros Hlen.
  assert (Hrun : exists st,
             run_draft players = Some st
             /\ draft_invariant pool_of drafted_of players st
                  (generate_snake_draft_order 10 (actual_rounds (length players)))).
  { unfold run_draft. change DRAFT_CONFIG.num_teams with 10.
    pose proof (actual_rounds_bounds (length players)) as Hb.
    pose proof (actual_rounds_enough (length players) Hlen) as He.
    generalize (snake_order_range 10 (actual_rounds (length players))).
    generalize (snake_order_count 10 (actual_rounds (length players))).
    generalize (snake_order_length 10 (actual_rounds (length players))).
    generalize (generate_snake_draft_order 10 (actual_rounds (length players))).
    intros order Horder Hcount Hrange.
    destruct (run_picks_complete pool_of drafted_of strategy_ok players names_distinct
                positions_slotted (length players) order (enumerate order) []
                (initial_state players))
      as (st & Hrun & Hinv).
    - by apply initial_state_invariant.
    - by rewrite enumerate_snd.
    - intros id. rewrite enumerate_snd. change ([] ++ order) with order.
      rewrite Hcount. destruct (_ && _); lia.
    - rewrite enumerate_snd. change ([] ++ order) with order. rewrite Horder. lia.
    - rewrite enumerate_snd in Hinv. exists st. split; [exact Hrun | exact Hinv]. }
  destruct Hrun as (st & Hrun & Hinv).
  pose proof (inv_teams _ _ _ _ _ Hinv) as Hteams.
  assert (H4 : (4 < length (teams st))%nat) by lia.
  destruct (lookup_lt_is_Some_2 _ _ H4) as [our Hour].
  exists our, (teams st).
  split.
  { rewrite simulate_draft_nonempty by (intros E; rewrite E in Hlen; simpl in Hlen; lia).
    rewrite Hrun.
    change (DRAFT_CONFIG.draft_position - 1) with (5 - 1).
    rewrite (py_pos_team _ 5 Hteams) by lia. change (Z.to_nat (5 - 1)) with 4%nat.
    by rewrite Hour. }
  split; [done |].
  pose proof (actual_rounds_bounds (length players)) as Hb.
  split.
  { apply List.Forall_forall. intros t Ht.
    apply list_elem_of_In, list_elem_of_lookup_1 in Ht as [i Hi].
    destruct (inv_team _ _ _ _ _ Hinv i t Hi) as (_ & Hc & Hr).
    split; [| done]. rewrite Hc, snake_order_count.
    assert (Hi10 : (i < 10)%nat) by (rewrite <- Hteams; by eapply lookup_lt_Some).
    destruct (Z.leb_spec 1 (Z.of_nat i + 1)); [| lia].
    destruct (Z.leb_spec (Z.of_nat i + 1) 10); [| lia]. simpl. lia. }
  split; [apply (inv_pool _ _ _ _ _ Hinv) |].
  rewrite (inv_count _ _ _ _ _ Hinv), snake_order_length. lia.
Qed.

End Synced.

(** X15: the instances never disagree with the engine.  With the Greedy or
    the Regret strategy, after any number of turns of the pick loop (for
    any turns of teams 1 to 10, from the initial state of any pool) the
    loop has not raised, and every team's algorithm instance holds exactly
    the engine's global set as its [drafted_players]: each pick is known to
    all ten instances before the next one is made. *)
Theorem instances_share_the_global_view (players : list Player) (num_players : nat)
        (draft_order : list Z) (picks : list (Z * Z))
        (Hids : Forall (fun id => 1 <= id <= 10) (List.map snd picks)) :
  (exists st,
      run_picks (A := Greedy.GreedyDraftAlgorithm) num_players draft_order picks
                (initial_state players) = Some st
      /\ forall id a, team_algorithms st !! id = Some a ->
                      Greedy.drafted_players a = globally_drafted st)
  /\ (exists st,
      run_picks (A := Regret.RegretDraftAlgorithm) num_players draft_order picks
                (initial_state players) = Some st
      /\ forall id a, team_algorithms st !! id = Some a ->
                      Regret.drafted_players a = globally_drafted st).
Proof.
  split.
  - exact (turns_keep_one_view _ _ greedy_pool_strategy players num_players draft_order
             picks Hids).
  - exact (turns_keep_one_view _ _ regret_pool_strategy players num_players draft_order
             picks Hids).
Qed.

Lemma instances_share_the_global_view_witness :
  (exists st,
      run_picks (A := Greedy.GreedyDraftAlgorithm) 5 [1; 2; 2; 1] [(0, 1); (1, 2); (2, 2); (3, 1)]
                (initial_state greedy_test_pool) = Some st
      /\ forall id a, team_algorithms st !! id = Some a ->
                      Greedy.drafted_players a = globally_drafted st)
  /\ (exists st,
      run_picks (A := Regret.RegretDraftAlgorithm) 5 [1; 2; 2; 1] [(0, 1); (1, 2); (2, 2); (3, 1)]
                (initial_state greedy_test_pool) = Some st
      /\ forall id a, team_algorithms st !! id = Some a ->
                      Regret.drafted_players a = globally_drafted st).
Proof.
  apply (instances_share_the_global_view greedy_test_pool 5 [1; 2; 2; 1]
           [(0, 1); (1, 2); (2, 2); (3, 1)]).
  simpl. repeat (apply List.Forall_cons; [lia |]). apply List.Forall_nil.
Defined.

(** X16: a pool that is too small shortens the draft cleanly.  For any pool
    of at least ten players with pairwise distinct names, each at a
    position the roster has a slot for, [simulate_draft] with the Greedy or
    the Regret strategy ends normally with ten teams, and every team has
    made exactly [actual_rounds] picks (eight from eighty players on,
    [len(players) // 10] below), all of them stored in its roster slots and
    all of them copies of pool players: no turn of the shortened order is
    lost. *)
Theorem short_pool_fills_every_round (players : list Player)
        (Hsize : (10 <= length players)%nat)
        (Hnames : NoDup (List.map name players))
        (Hslots : Forall (fun p => is_slot (position p) = true) players) :
  (exists our_team all_teams,
      simulate_draft (A := Greedy.GreedyDraftAlgorithm) players = SimDone our_team all_teams
      /\ length all_teams = 10%nat
      /\ Forall (fun t => Z.of_nat (length (draft_picks t)) = actual_rounds (length players)
                          /\ Permutation (roster_players (roster t)) (draft_picks t)) all_teams
      /\ Forall (fun q => In q (List.map copy_player players)) (all_picks all_teams)
      /\ Z.of_nat (length (all_picks all_teams)) = 10 * actual_rounds (length players))
  /\ (exists our_team all_teams,
      simulate_draft (A := Regret.RegretDraftAlgorithm) players = SimDone our_team all_teams
      /\ length all_teams = 10%nat
      /\ Forall (fun t => Z.of_nat (length (draft_picks t)) = actual_rounds (length players)
                          /\ Permutation (roster_players (roster t)) (draft_picks t)) all_teams
      /\ Forall (fun q => In q (List.map copy_player players)) (all_picks all_teams)
      /\ Z.of_nat (length (all_picks all_teams)) = 10 * actual_rounds (length players)).
Proof.
  split.
  - exact (simulate_draft_rounds _ _ greedy_pool_strategy players Hnames Hslots Hsize).
  - exact (simulate_draft_rounds _ _ regret_pool_strategy players Hnames Hslots Hsize).
Qed.

Lemma short_pool_names : NoDup (List.map name short_pool).
Proof. refine (bool_decide_unpack _ _). vm_compute. exact I. Qed.

Lemma short_pool_slotted : Forall (fun p => is_slot (position p) = true) short_pool.
Proof.
  apply List.Forall_forall. intros p Hp. apply in_map_iff in Hp as (i & <- & _). reflexivity.
Qed.

Lemma short_pool_fills_every_round_witness :
  (exists our_team all_teams,
      simulate_draft (A := Greedy.GreedyDraftAlgorithm) short_pool = SimDone our_team all_teams
      /\ length all_teams = 10%nat
      /\ Forall (fun t => Z.of_nat (length (draft_picks t)) = actual_rounds (length short_pool)
                          /\ Permutation (roster_players (roster t)) (draft_picks t)) all_teams
      /\ Forall (fun q => In q (List.map copy_player short_pool)) (all_picks all_teams)
      /\ Z.of_nat (length (all_picks all_teams)) = 10 * actual_rounds (length short_pool))
  /\ (exists our_team all_teams,
      simulate_draft (A := Regret.RegretDraftAlgorithm) short_pool = SimDone our_team all_teams
      /\ length all_teams = 10%nat
      /\ Forall (fun t => Z.of_nat (length (draft_picks t)) = actual_rounds (length short_pool)
                          /\ Permutation (roster_players (roster t)) (draft_picks t)) all_teams
      /\ Forall (fun q => In q (List.map copy_player short_pool)) (all_picks all_teams)
      /\ Z.of_nat (length (all_picks all_teams)) = 10 * actual_rounds (length short_pool)).
Proof.
  apply (short_pool_fills_every_round short_pool).
  - vm_compute. lia.
  - exact short_pool_names.
  - exact short_pool_slotted.
Defined.


(** * The multi-year summary *)

Lemma summary_loop_acc (l : list (Z * YearResult)) (g r : PrimFloat.float) (w : Z) :
  fold_left (fun '(total_greedy, total_regret, regret_wins) entry =>
               let results := snd entry in
               let regret_wins' :=
                 if positive (yr_improvement results) then regret_wins + 1 else regret_wins in
               (PrimFloat.add total_greedy (yr_greedy results),
                PrimFloat.add total_regret (yr_regret results),
                regret_wins'))
            l (g, r, w)
  = (fold_left (fun acc e => PrimFloat.add acc (yr_greedy (snd e))) l g,
     fold_left (fun acc e => PrimFloat.add acc (yr_regret (snd e))) l r,
     fold_left (fun acc imp => if positive imp then acc + 1 else acc)
               (List.map (fun e => yr_improvement (snd e)) l) w).
Proof.
  revert g r w. induction l as [|e l IH]; intros g r w; [done |].
  cbn [fold_left List.map]. by rewrite IH.
Qed.

Lemma wins_count (imps : list PrimFloat.float) (w : Z) :
  fold_left (fun acc imp => if positive imp then acc + 1 else acc) imps w
  = w + Z.of_nat (length (List.filter positive imps)).
Proof.
  revert w. induction imps as [|x imps IH]; intros w; [simpl; lia |].
  cbn [fold_left List.filter]. rewrite IH. destruct (positive x); simpl; lia.
Qed.

Lemma filter_all_length {X : Type} (f : X -> bool) (l : list X) :
  length (List.filter f l) = length l <-> Forall (fun x => f x = true) l.
Proof.
  induction l as [|x l IH]; [by split; [constructor |] |].
  cbn [List.filter]. rewrite Forall_cons. pose proof (List.filter_length_le f l) as Hle.
  destruct (f x) eqn:Ex; simpl.
  - rewrite <- IH. split; [intros Hl; split; [done | lia] | intros [_ Hl]; lia].
  - split; [lia | by intros [? _]].
Qed.

Lemma filter_none_length {X : Type} (f : X -> bool) (l : list X) :
  length (List.filter f l) = 0%nat <-> Forall (fun x => f x = false) l.
Proof.
  induction l as [|x l IH]; [by split; [constructor |] |].
  cbn [List.filter]. rewrite Forall_cons. destruct (f x) eqn:Ex; simpl.
  - split; [lia | by intros [? _]].
  - rewrite IH. split; [by split | by intros [_ ?]].
Qed.

(** The win rate of at most five seasons, case by case in binary64. *)
Lemma rate_cases (w : Z) (n : nat) :
  (1 <= n <= 5)%nat -> 0 <= w <= Z.of_nat n ->
  PrimFloat.leb PrimFloat.zero (rate w n) = true
  /\ PrimFloat.leb (rate w n) (Regret64.of_int 100) = true
  /\ (PrimFloat.eqb (rate w n) (Regret64.of_int 100) = true <-> w = Z.of_nat n)
  /\ (PrimFloat.eqb (rate w n) PrimFloat.zero = true <-> w = 0).
Proof.
  intros Hn Hw.
  assert (Hcases : n = 1%nat \/ n = 2%nat \/ n = 3%nat \/ n = 4%nat \/ n = 5%nat) by lia.
  assert (Hwins : w = 0 \/ w = 1 \/ w = 2 \/ w = 3 \/ w = 4 \/ w = 5) by lia.
  destruct Hcases as [-> | [-> | [-> | [-> | ->]]]];
    destruct Hwins as [-> | [-> | [-> | [-> | [-> | ->]]]]];
    try (exfalso; simpl in Hw; lia);
    vm_compute; repeat split; intros; try reflexivity; try discriminate.
Qed.

Lemma flat_map_length_le {X Y : Type} (f : X -> list Y) (l : list X) :
  (forall x, (length (f x) <= 1)%nat) -> (length (flat_map f l) <= length l)%nat.
Proof.
  intros Hf. induction l as [|x l IH]; [done |].
  cbn [flat_map]. rewrite length_app. specialize (Hf x). simpl. lia.
Qed.

Lemma flat_map_keys_sublist {Y : Type} (f : Z -> list (Z * Y)) (l : list Z) :
  (forall x, List.map fst (f x) = [] \/ List.map fst (f x) = [x]) ->
  sublist (List.map fst (flat_map f l)) l.
Proof.
  intros Hf. induction l as [|x l IH]; [done |].
  cbn [flat_map]. rewrite map_app. destruct (Hf x) as [-> | ->]; simpl.
  - by apply sublist_cons.
  - by apply sublist_skip.
Qed.

Lemma collect_results_entries has_data greedy_result regret_result :
  let all_results := collect_results has_data greedy_result regret_result in
  (length all_results <= 5)%nat
  /\ sublist (List.map fst all_results) [2020; 2021; 2022; 2023; 2024].
Proof.
  cbn zeta. unfold collect_results.
  change 5%nat with (length [2020; 2021; 2022; 2023; 2024]).
  generalize [2020; 2021; 2022; 2023; 2024]. intros years.
  split.
  - apply flat_map_length_le. intros y.
    destruct (has_data y); [| simpl; lia].
    destruct (greedy_result y) as [g|]; [| simpl; lia].
    destruct (regret_result y) as [r|]; simpl; lia.
  - apply flat_map_keys_sublist. intros y.
    destruct (has_data y); [| by left].
    destruct (greedy_result y) as [g|]; [| by left].
    destruct (regret_result y) as [r|]; [by right | by left].
Qed.

Lemma multi_year_summary_nonempty (all_results : list (Z * YearResult)) :
  all_results <> [] ->
  multi_year_summary all_results
  = let '(total_greedy, total_regret, regret_wins) := summary_loop all_results in
    Some {| total_greedy := total_greedy;
            total_regret := total_regret;
            regret_wins := regret_wins;
            total_improvement := PrimFloat.sub total_regret total_greedy;
            win_rate := rate regret_wins (length all_results) |}.
Proof. by destruct all_results. Qed.

(** X17: the win figures of the multi-year summary, as the program computes
    them in binary64.  [all_results] holds at most five seasons, with keys
    in ascending order among 2020..2024; the summary is skipped exactly
    when it is empty.  Otherwise [regret_wins] is the number of seasons
    whose stored improvement is positive, lies between 0 and the number of
    seasons, and is the count the chart computes; [win_rate] is the float
    the chart computes, lies between 0 and 100, is 100 exactly when every
    season has a positive improvement and 0 exactly when none has. *)
Theorem multi_year_summary_is_consistent (has_data : Z -> bool)
        (greedy_result regret_result : Z -> option PrimFloat.float) :
  let all_results := collect_results has_data greedy_result regret_result in
  let improvements := List.map (fun e => yr_improvement (snd e)) all_results in
  (length all_results <= 5)%nat
  /\ sublist (List.map fst all_results) [2020; 2021; 2022; 2023; 2024]
  /\ match multi_year_summary all_results with
     | None => all_results = []
     | Some s =>
         all_results <> []
         /\ regret_wins s = Z.of_nat (length (List.filter positive improvements))
         /\ regret_wins s = chart_regret_wins improvements
         /\ win_rate s = chart_win_rate improvements
         /\ 0 <= regret_wins s <= Z.of_nat (length all_results)
         /\ PrimFloat.leb PrimFloat.zero (win_rate s) = true
         /\ PrimFloat.leb (win_rate s) (Regret64.of_int 100) = true
         /\ (PrimFloat.eqb (win_rate s) (Regret64.of_int 100) = true
             <-> Forall (fun imp => positive imp = true) improvements)
         /\ (PrimFloat.eqb (win_rate s) PrimFloat.zero = true
             <-> Forall (fun imp => positive imp = false) improvements)
     end.
Proof.
  cbn zeta.
  destruct (collect_results_entries has_data greedy_result regret_result) as (Hlen & Hkeys).
  split; [done |]. split; [done |].
  revert Hlen. clear Hkeys.
  generalize (collect_results has_data greedy_result regret_result).
  intros all_results Hlen.
  destruct (decide (all_results = [])) as [-> | Hne]; [done |].
  assert (Hpos : (1 <= length all_results)%nat).
  { destruct all_results; [done | simpl; lia]. }
  rewrite multi_year_summary_nonempty by done.
  unfold summary_loop. rewrite summary_loop_acc.
  cbn [regret_wins win_rate].
  rewrite wins_count, Z.add_0_l.
  set (improvements := List.map (fun e => yr_improvement (snd e)) all_results).
  assert (Hl : length improvements = length all_results) by apply length_map.
  pose proof (List.filter_length_le positive improvements) as Hle.
  set (w := length (List.filter positive improvements)) in *.
  destruct (rate_cases (Z.of_nat w) (length all_results)) as (H0 & H100 & Hall & Hnone);
    [lia | lia |].
  split; [done |]. split; [done |].
  split; [unfold chart_regret_wins; by rewrite wins_count |].
  split; [unfold chart_win_rate, chart_regret_wins; by rewrite wins_count, Hl |].
  split; [lia |]. split; [done |]. split; [done |].
  split.
  - rewrite Hall, <- filter_all_length. fold w. lia.
  - rewrite Hnone, <- filter_none_length. fold w. lia.
Qed.

(** * The Regret instance's cache *)

Lemma group_values_acc (players : list Player) (m : gmap string (list Z)) (pos : string) :
  fold_left (fun m p =>
               <[ position p := default [] (m !! position p) ++ [auction_value p] ]> m)
            players m !! pos
  = match List.map auction_value
            (List.filter (fun p => String.eqb (position p) pos) players) with
    | [] => m !! pos
    | v :: vs => Some (default [] (m !! pos) ++ v :: vs)
    end.
Proof.
  revert m. induction players as [|p players IH]; intros m; [done |].
  cbn [fold_left List.filter]. rewrite IH.
  destruct (String.eqb_spec (position p) pos) as [<- | Hne].
  - cbn [List.map]. rewrite lookup_insert_eq. cbn [default from_option id].
    destruct (List.map auction_value _) as [|v vs]; [done |].
    by rewrite <- app_assoc.
  - by rewrite lookup_insert_ne.
Qed.

Lemma fold_max_In (vs : list Z) (v0 : Z) : In (fold_left Z.max vs v0) (v0 :: vs).
Proof.
  revert v0. induction vs as [|x vs IH]; intros v0; [by left |].
  cbn [fold_left]. destruct (IH (Z.max v0 x)) as [Heq | Hin].
  - destruct (Z.max_spec v0 x) as [[_ Hm] | [_ Hm]]; rewrite Hm in *.
    + right. left. done.
    + left. done.
  - right. right. done.
Qed.

Lemma desc_sorted (l : list Z) :
  StronglySorted (fun a b => b <= a) (py_sort (fun a b => b <=? a) l).
Proof.
  eapply StronglySorted_weaken; [| apply py_sort_sorted].
  - intros a b Hab. by apply Z.leb_le.
  - intros a b c Hab Hbc. apply Z.leb_le in Hab, Hbc. apply Z.leb_le. lia.
  - intros a b Hab. apply Z.leb_gt in Hab. apply Z.leb_le. lia.
Qed.

(** X18: what [_cache_max_values] caches.  [max_auction] is an upper bound
    of every auction value of the pool, is attained by a pool player when
    the pool is not empty, and is 1 for the empty pool.  [position_counts]
    has a key exactly for the positions that occur in the pool, and the
    list under a position holds the auction values of the pool's players at
    that position, each as often as it occurs, in descending order.
    [draft_player] leaves the pool and both cached fields as they are. *)
Theorem regret_cache_spec (pool : list Player) (pos : string) (t : Team)
        (picks_until_next : Z) :
  let r := Regret.init pool in
  let at_pos := List.filter (fun p => String.eqb (position p) pos) pool in
  Forall (fun p => auction_value p <= Regret.max_auction r) pool
  /\ (pool = [] -> Regret.max_auction r = 1)
  /\ (pool <> [] -> exists p, In p pool /\ auction_value p = Regret.max_auction r)
  /\ (Regret.position_counts r !! pos = None <-> at_pos = [])
  /\ (forall values, Regret.position_counts r !! pos = Some values ->
        Permutation values (List.map auction_value at_pos)
        /\ StronglySorted (fun a b => b <= a) values)
  /\ (let r' := snd (Regret.draft_player r t picks_until_next) in
      Regret.all_players r' = Regret.all_players r
      /\ Regret.max_auction r' = Regret.max_auction r
      /\ Regret.position_counts r' = Regret.position_counts r).
Proof.
  cbn zeta.
  assert (Hvalues : List.map auction_value (List.map copy_player pool)
                    = List.map auction_value pool) by (by rewrite map_map).
  assert (Hgroup : Regret.position_counts (Regret.init pool) !! pos
                   = match List.map auction_value
                             (List.filter (fun p => String.eqb (position p) pos) pool) with
                     | [] => None
                     | v :: vs => Some (py_sort (fun a b => b <=? a) (v :: vs))
                     end).
  { cbn [Regret.position_counts Regret.init]. rewrite lookup_fmap.
    unfold Regret.group_values. rewrite group_values_acc, lookup_empty. cbn [default].
    assert (Hf : List.map auction_value
                   (List.filter (fun p => String.eqb (position p) pos)
                                (List.map copy_player pool))
                 = List.map auction_value
                     (List.filter (fun p => String.eqb (position p) pos) pool)).
    { clear. induction pool as [|p pool IH]; [done |].
      cbn [List.map List.filter]. change (position (copy_player p)) with (position p).
      destruct (String.eqb (position p) pos); cbn [List.map]; by rewrite IH. }
    rewrite Hf. destruct (List.map auction_value (List.filter _ pool)); reflexivity. }
  split; [| split; [| split; [| split; [| split]]]].
  - apply List.Forall_forall. intros p Hp. cbn [Regret.max_auction Regret.init].
    rewrite Hvalues. apply max_default_ge. by apply in_map.
  - by intros ->.
  - intros Hne. cbn [Regret.max_auction Regret.init]. rewrite Hvalues.
    destruct pool as [|p0 pool']; [done |]. cbn [List.map Regret.max_default].
    pose proof (fold_max_In (List.map auction_value pool') (auction_value p0)) as Hin.
    change (auction_value p0 :: List.map auction_value pool')
      with (List.map auction_value (p0 :: pool')) in Hin.
    apply in_map_iff in Hin as (p & Hp & Hin). eauto.
  - rewrite Hgroup.
    destruct (List.filter _ pool) as [|p ps]; cbn [List.map];
      split; intros Hx; try reflexivity; discriminate Hx.
  - intros values. rewrite Hgroup.
    destruct (List.map auction_value (List.filter _ pool)) as [|v vs] eqn:E; [done |].
    intros Hx. apply (inj Some) in Hx. subst values.
    split; [apply py_sort_perm | apply desc_sorted].
  - unfold Regret.draft_player.
    destruct (get_needs t); [done |].
    destruct (Regret.get_available_players _); [done |].
    by destruct (Regret.sort_candidates _) as [|[score best] others].
Qed.

(** * Matching names *)

Lemma prefix_app (sub post : string) : String.prefix sub (sub +:+ post) = true.
Proof.
  induction sub as [|c sub IH]; [by destruct post |].
  change (String c sub +:+ post) with (String c (sub +:+ post)).
  cbn [String.prefix]. destruct (Ascii.ascii_dec c c); [exact IH | done].
Qed.

Lemma str_contains_unfold (sub s : string) :
  str_contains sub s
  = String.prefix sub s
    || match s with
       | EmptyString => false
       | String _ s' => str_contains sub s'
       end.
Proof. by destruct s. Qed.

Lemma str_contains_app (sub pre post : string) :
  str_contains sub (pre +:+ sub +:+ post) = true.
Proof.
  induction pre as [|c pre IH].
  - change ("" +:+ sub +:+ post) with (sub +:+ post).
    by rewrite str_contains_unfold, prefix_app.
  - change (String c pre +:+ sub +:+ post) with (String c (pre +:+ sub +:+ post)).
    cbn [str_contains]. rewrite IH. apply orb_true_r.
Qed.

Lemma str_contains_refl (s : string) : str_contains s s = true.
Proof.
  pose proof (str_contains_app s EmptyString EmptyString) as Hc.
  change ("" +:+ s +:+ "") with (s +:+ "") in Hc.
  assert (Hs : s +:+ "" = s).
  { clear. induction s as [|c s IH]; [done |].
    change (String c s +:+ "") with (String c (s +:+ "")). by rewrite IH. }
  by rewrite Hs in Hc.
Qed.

Lemma dict_get_In key items v : dict_get key items = Some v -> In (key, v) items.
Proof.
  induction items as [|[k w] items IH]; [done |]. cbn [dict_get].
  destruct (String.eqb_spec k key) as [-> | Hne].
  - intros [= ->]. by left.
  - intros Hget. right. by apply IH.
Qed.

Section MatchingProperties.
Variables (lower : string -> string) (split : string -> list string).

Lemma names_similar_sym (name1 name2 : string) :
  _names_similar split name1 name2 = _names_similar split name2 name1.
Proof.
  unfold _names_similar.
  rewrite (comm_L (∩) (list_to_set (split name2)) (list_to_set (split name1))).
  by rewrite (orb_comm (size (list_to_set (split name2)) <=? 2)%nat).
Qed.

Lemma names_similar_common (name1 name2 : string) :
  _names_similar split name1 name2 = true ->
  exists part, In part (split name1) /\ In part (split name2).
Proof.
  unfold _names_similar. intros Hs.
  assert (Hsize : (1 <= size (list_to_set (split name1) ∩ list_to_set (split name2)
                               : gset string))%nat).
  { apply orb_true_iff in Hs as [Hs | Hs].
    - apply Nat.leb_le in Hs. lia.
    - apply andb_true_iff in Hs as [Hs _]. by apply Nat.leb_le in Hs. }
  destruct (decide ((list_to_set (split name1) ∩ list_to_set (split name2) : gset string) = ∅))
    as [He | Hne].
  - rewrite He, size_empty in Hsize. lia.
  - apply set_choose_L in Hne as [part Hpart].
    apply elem_of_intersection in Hpart as [H1 H2].
    apply elem_of_list_to_set in H1, H2. exists part. by rewrite <- !list_elem_of_In.
Qed.

End MatchingProperties.

(** X19: what the fuzzy name matching can return.  [_names_similar] is
    symmetric and holds only for names that share a part.  In
    [match_player_points] an exact key wins over every fuzzy candidate;
    otherwise the points of the first key (in the order of [actual_data])
    that contains the lowered name, is contained in it, or is similar, are
    returned, and 0.0 when there is none.  So the result is 0.0 or the
    points of some entry, and a key that equals the name up to case is
    always matched by some entry. *)
Theorem match_player_points_spec (lower : string -> string) (split : string -> list string)
        (player_name : string) (actual_data : list (string * Q)) :
  let result := match_player_points lower split player_name actual_data in
  (forall name1 name2,
      _names_similar split name1 name2 = _names_similar split name2 name1
      /\ (_names_similar split name1 name2 = true ->
          exists part, In part (split name1) /\ In part (split name2)))
  /\ (forall points, dict_get player_name actual_data = Some points -> result = points)
  /\ (dict_get player_name actual_data = None ->
      (exists before actual_name points after,
          actual_data = before ++ (actual_name, points) :: after
          /\ fuzzy_match lower split (lower player_name) actual_name = true
          /\ Forall (fun item => fuzzy_match lower split (lower player_name) (fst item) = false)
                    before
          /\ result = points)
      \/ (Forall (fun item => fuzzy_match lower split (lower player_name) (fst item) = false)
                 actual_data
          /\ result = 0%Q))
  /\ (result = 0%Q \/ exists actual_name, In (actual_name, result) actual_data)
  /\ (forall actual_name points,
        In (actual_name, points) actual_data ->
        lower actual_name = lower player_name ->
        exists matched, In (matched, result) actual_data).
Proof.
  cbn zeta.
  assert (Hfind : forall (f : string * Q -> bool) (l : list (string * Q)),
             match List.find f l with
             | Some item => exists before after,
                              l = before ++ item :: after /\ f item = true
                              /\ Forall (fun i => f i = false) before
             | None => Forall (fun i => f i = false) l
             end).
  { intros f l. induction l as [|x l IH]; cbn [List.find]; [constructor |].
    destruct (f x) eqn:Ex.
    - exists [], l. split; [done |]. split; [done | constructor].
    - destruct (List.find f l) as [item|].
      + destruct IH as (before & after & -> & Hitem & Hbefore).
        exists (x :: before), after. split; [done |]. split; [done |]. by constructor.
      + by constructor. }
  split; [| split; [| split; [| split]]].
  - intros name1 name2. split; [apply names_similar_sym | apply names_similar_common].
  - intros points Hget. unfold match_player_points. by rewrite Hget.
  - intros Hnone. unfold match_player_points. rewrite Hnone.
    specialize (Hfind (fun item => fuzzy_match lower split (lower player_name) (fst item))
                      actual_data).
    destruct (List.find _ actual_data) as [[actual_name points]|].
    + left. destruct Hfind as (before & after & Heq & Hitem & Hbefore).
      exists before, actual_name, points, after. by repeat split.
    + right. by split.
  - unfold match_player_points.
    destruct (dict_get player_name actual_data) as [points|] eqn:Hget.
    + right. exists player_name. by apply dict_get_In.
    + destruct (List.find _ actual_data) as [[actual_name points]|] eqn:Ef; [| by left].
      right. exists actual_name. by apply find_some in Ef as [Hin _].
  - intros actual_name points Hin Hlower. unfold match_player_points.
    destruct (dict_get player_name actual_data) as [pts|] eqn:Hget.
    + exists player_name. by apply dict_get_In.
    + destruct (List.find _ actual_data) as [[matched pts]|] eqn:Ef.
      * exists matched. by apply find_some in Ef as [Hm _].
      * exfalso. apply (find_none _ _ Ef) in Hin. cbn [fst] in Hin.
        unfold fuzzy_match in Hin. rewrite Hlower, str_contains_refl in Hin. done.
Qed.


(** * The Greedy instance's order *)

Lemma sort_insert_stable {X : Type} (key : X -> Z) (x : X) (l : list X) (c : Z) :
  List.filter (fun y => key y =? c) (sort_insert (fun a b => key a <=? key b) x l)
  = List.filter (fun y => key y =? c) (x :: l).
Proof.
  induction l as [|y l IH]; [done |]. cbn [sort_insert].
  destruct (Z.leb_spec (key x) (key y)) as [Hle | Hgt]; [done |].
  cbn [List.filter] in *. rewrite IH.
  destruct (Z.eqb_spec (key x) c) as [Hx | Hx]; [| done].
  destruct (Z.eqb_spec (key y) c) as [Hy | Hy]; [lia | done].
Qed.

Lemma py_sort_stable {X : Type} (key : X -> Z) (l : list X) (c : Z) :
  List.filter (fun y => key y =? c) (py_sort (fun a b => key a <=? key b) l)
  = List.filter (fun y => key y =? c) l.
Proof.
  induction l as [|x l IH]; [done |].
  cbn [py_sort fold_right]. rewrite sort_insert_stable.
  cbn [List.filter]. fold (py_sort (fun a b => key a <=? key b) l). by rewrite IH.
Qed.

(** X20: the Greedy constructor sorts stably.  The instance's list holds
    the copies of the pool's players, each as often as the pool has it, in
    ascending order of ADP rank, and the players of one rank are in the
    order the pool has them (ties keep the input order); no name is marked
    as drafted. *)
Theorem greedy_init_is_stable_sort (pool : list Player) (rank : Z) :
  let g := Greedy.init pool in
  Permutation (Greedy.available_players g) (List.map copy_player pool)
  /\ StronglySorted (fun a b => adp_rank a <= adp_rank b) (Greedy.available_players g)
  /\ List.filter (fun p => adp_rank p =? rank) (Greedy.available_players g)
     = List.map copy_player (List.filter (fun p => adp_rank p =? rank) pool)
  /\ Greedy.drafted_players g = ∅.
Proof.
  cbn zeta. split; [apply greedy_init_perm |]. split; [apply greedy_init_sorted |].
  split; [| done].
  cbn [Greedy.available_players Greedy.init]. rewrite (py_sort_stable adp_rank).
  induction pool as [|p pool IH]; [done |].
  cbn [List.map List.filter]. change (adp_rank (copy_player p)) with (adp_rank p).
  destruct (adp_rank p =? rank); cbn [List.map]; by rewrite IH.
Qed.
